(** * omnom-nom/order: the apiserver package

    A shallow embedding of the Go package [apiserver] (the service factory
    built on gorilla/mux and negroni, the provided middleware, and the
    managed HTTP server) together with the properties its specification
    states about it.

    Conventions.
    - A Go call that can return an [error] or fault at run time returns a
      [Result]: [Ok], [Err] (the error text) or [Panic].
    - Go maps are [gmap]s; the order in which [range] visits a map is not
      fixed by the language (and may change from one [range] statement to
      the next), so it is an explicit [RangeOrder].
    - Go slices of strings are headers into a store of backing arrays, so
      that aliasing between two slices is visible.
    - Code of the Go standard library and of the two third-party libraries is
      not part of the package; what the package relies on is modelled next to
      its use and marked as such. *)

From stdpp Require Import base option list strings gmap pretty.
From Stdlib Require Import Ascii ZArith Lia.

Local Open Scope string_scope.
Local Open Scope list_scope.

(** ** Results of fallible calls *)

Inductive GoPanic : Type :=
  | IndexOutOfRange (index len : nat).

Inductive Result (A : Type) : Type :=
  | Ok (a : A)
  | Err (e : string)
  | Panic (p : GoPanic).

Arguments Ok {A} a.
Arguments Err {A} e.
Arguments Panic {A} p.

Definition bindR {A B : Type} (r : Result A) (k : A -> Result B) : Result B :=
  match r with
  | Ok a => k a
  | Err e => Err e
  | Panic p => Panic p
  end.

Notation "x <-R r ;; k" := (bindR r (fun x => k))
  (at level 100, r at next level, right associativity).

(** [l[i]] on a Go slice whose elements are [l]. *)
Definition index {A : Type} (l : list A) (i : nat) : Result A :=
  match l !! i with
  | Some a => Ok a
  | None => Panic (IndexOutOfRange i (length l))
  end.

(** ** The pieces of the Go standard library the package uses *)

Module strings_.

(** [strings.Split(s, sep)] for a separator of one byte, the only way the
    package calls it ([":"]). *)
Fixpoint Split (s : string) (sep : Ascii.ascii) : list string :=
  match s with
  | EmptyString => [EmptyString]
  | String c rest =>
      if Ascii.eqb c sep then EmptyString :: Split rest sep
      else match Split rest sep with
           | [] => [String c EmptyString]
           | x :: xs => String c x :: xs
           end
  end.

(** [strings.Contains(s, sep)] for a separator of one byte. *)
Fixpoint Contains (s : string) (sep : Ascii.ascii) : bool :=
  match s with
  | EmptyString => false
  | String c rest => Ascii.eqb c sep || Contains rest sep
  end.

End strings_.

Module strconv.

(** [strconv.Itoa]: the decimal text of an [int]. *)
Definition Itoa (n : Z) : string := pretty n.

End strconv.

Module net.

(** [net.IP] is a slice of bytes; the empty list also stands for [nil]. *)
Definition IP := list N.

Definition IPv4len : nat := 4.
Definition IPv6len : nat := 16.

Definition isZeros (p : list N) : bool := forallb (N.eqb 0) p.

(** [ip.To4()]: the four-byte form, [None] for Go's [nil]. *)
Definition To4 (ip : IP) : option IP :=
  if Nat.eqb (length ip) IPv4len then Some ip
  else if Nat.eqb (length ip) IPv6len
          && isZeros (take 10 ip)
          && bool_decide (ip !! 10%nat = Some 255%N)
          && bool_decide (ip !! 11%nat = Some 255%N)
       then Some (take 4 (drop 12 ip))
       else None.

Definition dotted (p4 : IP) : string :=
  match p4 with
  | [a; b; c; d] => pretty a +:+ "." +:+ pretty b +:+ "." +:+ pretty c +:+ "." +:+ pretty d
  | _ => ""
  end.

End net.

(** What the standard library does outside the model: the text form of an
    address that is not IPv4, and reading a key pair from the file system
    (the certificate, [inl], or the error, [inr]). *)
Record StdEnv : Type := {
  ipOtherString : net.IP -> string;
  LoadX509KeyPair : string -> string -> string + string
}.

(** [ip.String()]: dotted decimal for an IPv4 address. *)
Definition IP_String (env : StdEnv) (ip : net.IP) : string :=
  match ip with
  | [] => "<nil>"
  | _ =>
      match net.To4 ip with
      | Some p4 => net.dotted p4
      | None => ipOtherString env ip
      end
  end.

(** ** Slices of strings

    A Go slice is a header (backing array, offset, length, capacity); two
    headers over the same array see each other's writes. The store maps the
    identity of a backing array to its elements. *)

Record Slice : Type := {
  arr : nat;
  off : nat;
  len : nat;
  cap : nat
}.

Abbreviation Store := (gmap nat (list string)).

(** The [nil] slice. *)
Definition nilSlice : Slice := {| arr := 0; off := 0; len := 0; cap := 0 |}.

(** The elements a slice shows, [s[0] .. s[len(s)-1]]. *)
Definition elems (h : Store) (s : Slice) : list string :=
  take (len s) (drop (off s) (default [] (h !! arr s))).

(** [s[:]]: both bounds omitted, so low is 0 and high is [len(s)]. *)
Definition sliceAll (s : Slice) : Slice :=
  {| arr := arr s; off := off s + 0; len := len s - 0; cap := cap s - 0 |}.

(** [s[i] = v]. *)
Definition setElem (h : Store) (s : Slice) (i : nat) (v : string) : Result Store :=
  if decide (i < len s)
  then Ok (alter (fun a => <[off s + i := v]> a) (arr s) h)
  else Panic (IndexOutOfRange i (len s)).

(** [append([]string(nil), s...)]: a copy in a backing array of its own,
    allocated at the identity [fresh]. The package never calls it; it is the
    copy [updateRoutes] is compared with. *)
Definition cloneSlice (h : Store) (fresh : nat) (s : Slice) : Store * Slice :=
  (<[fresh := elems h s]> h,
   {| arr := fresh; off := 0; len := len s; cap := len s |}).

(** ** Requests, the response writer and the world a handler acts on *)

Record Request : Type := {
  ReqMethod : string;
  URLPath : string;
  Proto : string;
  RemoteAddr : string;
  UserAgent : string;
  Body : string
}.

Inductive LogLevel : Type := LDebug | LWarn | LError.

Record LogLine : Type := { level : LogLevel; text : string }.

(** The calls received by the response writer, in order. The writer is an
    interface of [net/http]: what is recorded is what it was asked to do. *)
Inductive RwCall : Type :=
  | RwHeaderSet (key value : string)
  | RwWriteHeader (code : Z)
  | RwWrite (body : string).

Record World (App : Type) : Type := {
  rw : list RwCall;
  logged : list LogLine;
  app : App
}.

Arguments rw {App} w.
Arguments logged {App} w.
Arguments app {App} w.

(** What a handler can do: call the [http.ResponseWriter], write a log line,
    or run a callback supplied by the application. *)
Inductive Effect (App : Type) : Type :=
  | HeaderSet (key value : string)
  | WriteHeader (code : Z)
  | Write (body : string)
  | LogEff (line : LogLine)
  | Call (f : World App -> World App).

Arguments HeaderSet {App} key value.
Arguments WriteHeader {App} code.
Arguments Write {App} body.
Arguments LogEff {App} line.
Arguments Call {App} f.

Definition perform {App : Type} (e : Effect App) (w : World App) : World App :=
  match e with
  | HeaderSet k v => {| rw := rw w ++ [RwHeaderSet k v]; logged := logged w; app := app w |}
  | WriteHeader c => {| rw := rw w ++ [RwWriteHeader c]; logged := logged w; app := app w |}
  | Write b => {| rw := rw w ++ [RwWrite b]; logged := logged w; app := app w |}
  | LogEff l => {| rw := rw w; logged := logged w ++ [l]; app := app w |}
  | Call f => f w
  end.

(** A callback that only touches the application's own state. *)
Definition onApp {App : Type} (f : App -> App) (w : World App) : World App :=
  {| rw := rw w; logged := logged w; app := f (app w) |}.

(** The bytes written as the response body. *)
Definition bodyWritten (calls : list RwCall) : string :=
  foldr (fun c acc => match c with RwWrite b => b +:+ acc | _ => acc end) "" calls.

(** [http.HandlerFunc]: a terminal handler. *)
Definition HandlerFunc (App : Type) : Type := Request -> World App -> World App.

(** ** Middleware (types of the package)

    [ServeHTTP(rw, r, next)] is a small program over the effects above in
    which calling [next] is an instruction of its own, so that whether and how
    often a middleware yields to the rest of the chain can be read off a run. *)

Inductive Prog (App : Type) : Type :=
  | Ret
  | Do (e : Effect App) (k : Prog App)
  | Next (r : Request) (k : Prog App)
  | Read (k : World App -> Prog App).

Arguments Ret {App}.
Arguments Do {App} e k.
Arguments Next {App} r k.
Arguments Read {App} k.

(** [if c { kt } else { kf }] on a condition over the world. *)
Definition Branch {App : Type} (c : World App -> bool) (kt kf : Prog App) : Prog App :=
  Read (fun w => if c w then kt else kf).

(** The interface [Middleware]: its method [ServeHTTP], by request. A
    value of this type is a middleware object: the [nil] interface value,
    which negroni cannot serve, is not among them. *)
Definition Middleware (App : Type) : Type := Request -> Prog App.

(** The three tiers a middleware is registered in. *)
Inductive Tier : Type := TAlways | TDefault | TAvailable.

#[global] Instance Tier_eq_dec : EqDecision Tier.
Proof. solve_decision. Defined.

(** A run: the world, and a record of the registered middleware entered so
    far (tier and name), kept by the chain and out of the programs' reach. *)
Record Run (App : Type) : Type := {
  world : World App;
  entered : list (Tier * string)
}.

Arguments world {App} r.
Arguments entered {App} r.

Definition onWorld {App : Type} (f : World App -> World App) (s : Run App) : Run App :=
  {| world := f (world s); entered := entered s |}.

Definition enter {App : Type} (t : Tier) (name : string) (s : Run App) : Run App :=
  {| world := world s; entered := entered s ++ [(t, name)] |}.

(** Running [ServeHTTP] against the rest of the chain. *)
Fixpoint exec {App : Type} (p : Prog App) (next : Request -> Run App -> Run App)
    (s : Run App) : Run App :=
  match p with
  | Ret => s
  | Do e k => exec k next (onWorld (perform e) s)
  | Next r k => exec k next (next r s)
  | Read k => exec (k (world s)) next s
  end.

(** How many times the run calls [next]. *)
Fixpoint nextCalls {App : Type} (p : Prog App) (next : Request -> Run App -> Run App)
    (s : Run App) : nat :=
  match p with
  | Ret => 0
  | Do e k => nextCalls k next (onWorld (perform e) s)
  | Next r k => S (nextCalls k next (next r s))
  | Read k => nextCalls (k (world s)) next s
  end.

(** The effects the program performs itself on the run, in order. *)
Fixpoint ownEffects {App : Type} (p : Prog App) (next : Request -> Run App -> Run App)
    (s : Run App) : list (Effect App) :=
  match p with
  | Ret => []
  | Do e k => e :: ownEffects k next (onWorld (perform e) s)
  | Next r k => ownEffects k next (next r s)
  | Read k => ownEffects (k (world s)) next s
  end.

(** Every path through the program calls [next]. *)
Fixpoint delegating {App : Type} (p : Prog App) : Prop :=
  match p with
  | Ret => False
  | Do _ k => delegating k
  | Next _ _ => True
  | Read k => forall w, delegating (k w)
  end.

(** [MiddlewareFunc]: the adapter for ordinary functions. *)
Definition MiddlewareFunc {App : Type} (m : Request -> Prog App) : Middleware App := m.

(** ** Types of the package *)

Definition MiddlewareLogger : string := "middleware:logger".
Definition MiddlewareLeader : string := "middleware:on_leader".
Definition MiddlewareMd5Signature : string := "middleware:md5signature".
Definition MiddlewareHostNotRegisreted : string := "middleware:hostIsRegistered".
Definition MiddlewareAuthorization : string := "middleware:requestIsAuthorized".
Definition MiddlewareRedirect : string := "middleware:requestIsRedirected".
Definition MiddlewareDbStatus : string := "middleware:checkdbstatus".

(** [Route]: a REST endpoint. [Include] and [Exclude] are slice headers. *)
Record Route (App : Type) : Type := {
  Name : string;
  Method : string;
  Path : string;
  Handler : HandlerFunc App;
  Include : Slice;
  Exclude : Slice
}.

Arguments Name {App} r.
Arguments Method {App} r.
Arguments Path {App} r.
Arguments Handler {App} r.
Arguments Include {App} r.
Arguments Exclude {App} r.

Inductive ServerStatus : Type := Stopped | Starting | Running.

#[global] Instance ServerStatus_eq_dec : EqDecision ServerStatus.
Proof. solve_decision. Defined.

(** [DefaultShutdownTimeout = time.Second * 10], in nanoseconds. *)
Definition DefaultShutdownTimeout : Z := 10 * 1000000000.

(** ** The provided middleware (middleware.go) *)

(** [ServiceCallCounter], [CrashHandler] and [ServiceRedirect] are callbacks
    of the application; [ServiceGatekeeper] reads the request (and what the
    application knows) and answers whether it may proceed. *)
Definition ServiceCallCounter (App : Type) : Type := App -> App.
Definition ServiceGatekeeper (App : Type) : Type := Request -> App -> bool.
Definition CrashHandler (App : Type) : Type := World App -> World App.
Definition ServiceRedirect (App : Type) : Type := Request -> World App -> World App.

Record serviceCallMonitor (App : Type) : Type := { counter : ServiceCallCounter App }.
Arguments counter {App} s.

Definition NewServiceCallCounter {App : Type} (c : ServiceCallCounter App)
  : serviceCallMonitor App := {| counter := c |}.

Definition serviceCallMonitor_ServeHTTP {App : Type} (m : serviceCallMonitor App)
  : Middleware App :=
  fun r => Do (Call (onApp (counter m))) (Next r Ret).

Record serviceGatekeeper (App : Type) : Type := {
  gatekeeper : ServiceGatekeeper App;
  responseCode : Z;
  contentType : string;
  responseMessage : string;
  logMessage : string
}.

Arguments gatekeeper {App} s.
Arguments responseCode {App} s.
Arguments contentType {App} s.
Arguments responseMessage {App} s.
Arguments logMessage {App} s.

(** A functional option acts on the gatekeeper under construction; the log
    lines it writes are collected beside it. *)
Definition ServiceGatekeeperOpt (App : Type) : Type :=
  serviceGatekeeper App * list LogLine -> serviceGatekeeper App * list LogLine.

Definition ServiceGatekeeperResponse {App : Type} (response : string)
  : ServiceGatekeeperOpt App :=
  fun '(m, l) =>
    ({| gatekeeper := gatekeeper m; responseCode := responseCode m;
        contentType := contentType m; responseMessage := response;
        logMessage := logMessage m |}, l).

Definition ServiceGatekeeperResponseCode {App : Type} (code : Z)
  : ServiceGatekeeperOpt App :=
  fun '(m, l) =>
    ({| gatekeeper := gatekeeper m; responseCode := code;
        contentType := contentType m; responseMessage := responseMessage m;
        logMessage := logMessage m |}, l).

Definition ServiceGatekeeperContentType {App : Type} (ct : string)
  : ServiceGatekeeperOpt App :=
  fun '(m, l) =>
    ({| gatekeeper := gatekeeper m; responseCode := responseCode m;
        contentType := ct; responseMessage := responseMessage m;
        logMessage := logMessage m |}, l).

Definition ServiceGatekeeperLogMessage {App : Type} (msg : string)
  : ServiceGatekeeperOpt App :=
  fun '(m, l) =>
    ({| gatekeeper := gatekeeper m; responseCode := responseCode m;
        contentType := contentType m; responseMessage := responseMessage m;
        logMessage := msg |}, l).

Definition ServiceGatekeeperTextResponse {App : Type} (response : string)
  : ServiceGatekeeperOpt App :=
  fun '(m, l) =>
    ({| gatekeeper := gatekeeper m; responseCode := responseCode m;
        contentType := "text/plain"; responseMessage := response;
        logMessage := logMessage m |}, l).

(** [json.Marshal] is the standard library's: [marshal] stands for it, and
    answers the bytes ([inl]) or the error ([inr]). *)
Definition ServiceGatekeeperJSONResponse {App A : Type}
    (marshal : A -> string + string) (response : A) : ServiceGatekeeperOpt App :=
  fun '(m, l) =>
    match marshal response with
    | inl respJSON =>
        ({| gatekeeper := gatekeeper m; responseCode := responseCode m;
            contentType := "application/json"; responseMessage := respJSON;
            logMessage := logMessage m |}, l)
    | inr e =>
        ServiceGatekeeperTextResponse "<internal error: response is not JSON format>"
          (m, l ++ [{| level := LError;
                       text := "service gatekeeper failed to serialize JSON response: "
                               +:+ e |}])
    end.

(** [http.StatusServiceUnavailable]. *)
Definition StatusServiceUnavailable : Z := 503.
Definition StatusNotFound : Z := 404.

Definition NewServiceGatekeeper {App : Type} (gk : ServiceGatekeeper App)
    (options : list (ServiceGatekeeperOpt App)) : serviceGatekeeper App * list LogLine :=
  let g := {| gatekeeper := gk; responseCode := StatusServiceUnavailable;
              contentType := ""; responseMessage := "";
              logMessage := "service is not available" |} in
  foldl (fun acc opt => opt acc) (g, []) options.

Definition serviceGatekeeper_ServeHTTP {App : Type} (g : serviceGatekeeper App)
  : Middleware App :=
  fun r =>
    Branch (fun w => negb (gatekeeper g r (app w)))
      (Do (LogEff {| level := LWarn;
                     text := "api request is not accepted: " +:+ logMessage g |})
      (Do (HeaderSet "Content-Type" (contentType g))
      (Do (WriteHeader (responseCode g))
      (if bool_decide (0 < String.length (responseMessage g))
       then Do (Write (responseMessage g)) Ret
       else Ret))))
      (Next r Ret).

Record crashHandler (App : Type) : Type := { crash_handler : CrashHandler App }.
Arguments crash_handler {App} c.

Definition NewCrashHandler {App : Type} (h : CrashHandler App) : crashHandler App :=
  {| crash_handler := h |}.

(** The deferred call runs when [next] has returned (a fault inside [next]
    is not modelled). *)
Definition crashHandler_ServeHTTP {App : Type} (m : crashHandler App) : Middleware App :=
  fun r => Next r (Do (Call (crash_handler m)) Ret).

Record serviceRedirect (App : Type) : Type := { redirect_handler : ServiceRedirect App }.
Arguments redirect_handler {App} s.

Definition NewServiceRedirectHandler {App : Type} (h : ServiceRedirect App)
  : serviceRedirect App := {| redirect_handler := h |}.

Definition serviceRedirect_ServeHTTP {App : Type} (m : serviceRedirect App)
  : Middleware App :=
  fun r => Do (Call (redirect_handler m r)) (Next r Ret).

(** ** What the package uses of gorilla/mux and negroni

    Both are third-party libraries. Modelled here: a router is the list of
    its routes in registration order, the first route that matches wins, a
    route built from a template the library rejects never matches, and a
    router without a match falls back to its not-found handler. How a path
    is compared with a template is left to a [MuxEnv]. The replies mux
    sends on its own (the redirect of [StrictSlash], method not allowed)
    are not modelled. *)

Inductive PathKind : Type := PathExact | PathPrefix.

Record MuxRoute (T : Type) : Type := {
  kind : PathKind;
  tpl : string;
  methods : list string;
  routeName : string;
  target : T;
  err : option string
}.

Arguments kind {T} m.
Arguments tpl {T} m.
Arguments methods {T} m.
Arguments routeName {T} m.
Arguments target {T} m.
Arguments err {T} m.

(** [strings.TrimRight(s, c)] for a cutset of one byte. *)
Fixpoint TrimRight (s : string) (c : Ascii.ascii) : string :=
  match s with
  | EmptyString => EmptyString
  | String a rest =>
      let r := TrimRight rest c in
      if String.eqb r "" && Ascii.eqb a c then "" else String a r
  end.

(** [strings.ToUpper] on ASCII letters. *)
Definition upperByte (c : Ascii.ascii) : Ascii.ascii :=
  let n := Ascii.nat_of_ascii c in
  if Nat.leb 97 n && Nat.leb n 122 then Ascii.ascii_of_nat (n - 32) else c.

Fixpoint ToUpper (s : string) : string :=
  match s with
  | EmptyString => EmptyString
  | String a rest => String (upperByte a) (ToUpper rest)
  end.

(** mux's [braceIndices]: the braces of a template must balance. *)
Fixpoint bracesBalanced (s : string) (level : nat) : bool :=
  match s with
  | EmptyString => Nat.eqb level 0
  | String a rest =>
      if Ascii.eqb a "{" then bracesBalanced rest (S level)
      else if Ascii.eqb a "}" then
        match level with
        | O => false
        | S l => bracesBalanced rest l
        end
      else bracesBalanced rest level
  end.

(** The double quote, and [%q] for a text with nothing to escape. *)
Definition dquote : string := String (Ascii.ascii_of_nat 34) EmptyString.
Definition quoted (s : string) : string := dquote +:+ s +:+ dquote.

(** mux's [addRegexpMatcher]: the template a route gets below its parent's,
    and the error the route keeps when the template is refused. *)
Definition addRegexpMatcher (parentTpl raw : string) : string * option string :=
  match raw with
  | String a _ =>
      if negb (Ascii.eqb a "/")
      then (raw, Some ("mux: path must start with a slash, got " +:+ quoted raw))
      else
        let t := TrimRight parentTpl "/" +:+ raw in
        (t, if bracesBalanced t 0 then None else Some ("mux: unbalanced braces in " +:+ quoted t))
  | EmptyString =>
      let t := TrimRight parentTpl "/" +:+ raw in
      (t, if bracesBalanced t 0 then None else Some ("mux: unbalanced braces in " +:+ quoted t))
  end.

Arguments addRegexpMatcher : simpl never.

(** [negroni.Handler]s of a chain: a registered middleware (with the tier and
    name it was registered under), or [negroni.Wrap] of a plain handler or of
    a route's own subrouter. *)
Inductive NegroniHandler (App : Type) : Type :=
  | Registered (tier : Tier) (name : string) (mw : Middleware App)
  | WrapFunc (h : HandlerFunc App)
  | WrapSubrouter (leafs : list (MuxRoute (HandlerFunc App))).

Arguments Registered {App} tier name mw.
Arguments WrapFunc {App} h.
Arguments WrapSubrouter {App} leafs.

(** A [*negroni.Negroni]: its handlers in order. *)
Definition Negroni (App : Type) : Type := list (NegroniHandler App).

(** What a route of the per-prefix router leads to. *)
Inductive PrefixTarget (App : Type) : Type :=
  | PFunc (h : HandlerFunc App)
  | PSubrouter (leafs : list (MuxRoute (HandlerFunc App)))
  | PChain (n : Negroni App).

Arguments PFunc {App} h.
Arguments PSubrouter {App} leafs.
Arguments PChain {App} n.

Record PrefixRouter (App : Type) : Type := {
  prRoutes : list (MuxRoute (PrefixTarget App));
  prNotFound : option (Negroni App);
  prStrictSlash : bool
}.

Arguments prRoutes {App} p.
Arguments prNotFound {App} p.
Arguments prStrictSlash {App} p.

(** What a route of the top router leads to: the per-prefix router of a key
    of the route table (a pointer, looked up when a request comes in), the
    always chain around that router, or the static file server. *)
Inductive TopTarget (App : Type) : Type :=
  | TSubrouter (key : string)
  | TAlwaysWrap (n : Negroni App) (key : string)
  | TFileServer (strip dir : string).

Arguments TSubrouter {App} key.
Arguments TAlwaysWrap {App} n key.
Arguments TFileServer {App} strip dir.

Record Router (App : Type) : Type := {
  topRoutes : list (MuxRoute (TopTarget App));
  subrouters : gmap string (PrefixRouter App);
  NotFoundHandler_ : option (Negroni App)
}.

Arguments topRoutes {App} r.
Arguments subrouters {App} r.
Arguments NotFoundHandler_ {App} r.

(** How mux compares a request path with a template, and what the static
    file server answers: both outside the package. *)
Record MuxEnv (App : Type) : Type := {
  pathMatch : PathKind -> string -> string -> bool;
  fileServer : string -> string -> HandlerFunc App
}.

Arguments pathMatch {App} m.
Arguments fileServer {App} m.

(** Templates without variables, compared letter by letter. *)
Definition literalPathMatch (k : PathKind) (t path : string) : bool :=
  match k with
  | PathExact => String.eqb t path
  | PathPrefix => String.prefix t path
  end.

Definition literalMux {App : Type} : MuxEnv App :=
  {| pathMatch := literalPathMatch; fileServer := fun _ _ _ w => w |}.

(** mux's [Route.Match], without the route's subrouter. *)
Definition routeMatches {App T : Type} (env : MuxEnv App) (rt : MuxRoute T)
    (req : Request) : bool :=
  bool_decide (err rt = None)
  && pathMatch env (kind rt) (tpl rt) (URLPath req)
  && (bool_decide (methods rt = []) || bool_decide (ReqMethod req ∈ methods rt)).

(** The handler a request ends at. *)
Inductive Resolved (App : Type) : Type :=
  | RouteChain (n : Negroni App)
  | NotFoundChain (n : Negroni App)
  | PlainFunc (h : HandlerFunc App)
  | AlwaysThenRouter (n : Negroni App) (key : string)
  | FileServer (strip dir : string)
  | DefaultNotFound.

Arguments RouteChain {App} n.
Arguments NotFoundChain {App} n.
Arguments PlainFunc {App} h.
Arguments AlwaysThenRouter {App} n key.
Arguments FileServer {App} strip dir.
Arguments DefaultNotFound {App}.

Definition matchLeafs {App : Type} (env : MuxEnv App)
    (leafs : list (MuxRoute (HandlerFunc App))) (req : Request)
  : option (HandlerFunc App) :=
  target <$> List.find (fun rt => routeMatches env rt req) leafs.

(** mux's [Router.Match] on the routes of a per-prefix router. *)
Fixpoint matchPrefixRoutes {App : Type} (env : MuxEnv App)
    (routes : list (MuxRoute (PrefixTarget App))) (req : Request)
  : option (Resolved App) :=
  match routes with
  | [] => None
  | rt :: rest =>
      if routeMatches env rt req then
        match target rt with
        | PFunc h => Some (PlainFunc h)
        | PChain n => Some (RouteChain n)
        | PSubrouter leafs =>
            match matchLeafs env leafs req with
            | Some h => Some (PlainFunc h)
            | None => matchPrefixRoutes env rest req
            end
        end
      else matchPrefixRoutes env rest req
  end.

Definition resolvePrefix {App : Type} (env : MuxEnv App) (pr : PrefixRouter App)
    (req : Request) : option (Resolved App) :=
  match matchPrefixRoutes env (prRoutes pr) req with
  | Some x => Some x
  | None => NotFoundChain <$> prNotFound pr
  end.

(** mux's [Router.Match] on the routes of the top router. *)
Fixpoint matchTopRoutes {App : Type} (env : MuxEnv App)
    (subs : gmap string (PrefixRouter App))
    (routes : list (MuxRoute (TopTarget App))) (req : Request)
  : option (Resolved App) :=
  match routes with
  | [] => None
  | rt :: rest =>
      if routeMatches env rt req then
        match target rt with
        | TSubrouter key =>
            match subs !! key ≫= (fun pr => resolvePrefix env pr req) with
            | Some x => Some x
            | None => matchTopRoutes env subs rest req
            end
        | TAlwaysWrap n key => Some (AlwaysThenRouter n key)
        | TFileServer strip dir => Some (FileServer strip dir)
        end
      else matchTopRoutes env subs rest req
  end.

Definition resolve {App : Type} (env : MuxEnv App) (R : Router App) (req : Request)
  : Resolved App :=
  match matchTopRoutes env (subrouters R) (topRoutes R) req with
  | Some x => x
  | None =>
      match NotFoundHandler_ R with
      | Some n => NotFoundChain n
      | None => DefaultNotFound
      end
  end.

(** [http.NotFound], the reply of a router that has no not-found handler. *)
Definition httpNotFound {App : Type} : HandlerFunc App :=
  fun _ w =>
    perform (Write ("404 page not found" +:+ String (Ascii.ascii_of_nat 10) EmptyString))
      (perform (WriteHeader StatusNotFound)
         (perform (HeaderSet "X-Content-Type-Options" "nosniff")
            (perform (HeaderSet "Content-Type" "text/plain; charset=utf-8") w))).

(** Serving a route's own subrouter. *)
Definition serveLeafs {App : Type} (env : MuxEnv App)
    (leafs : list (MuxRoute (HandlerFunc App))) : HandlerFunc App :=
  fun req w =>
    match matchLeafs env leafs req with
    | Some h => h req w
    | None => httpNotFound req w
    end.

(** [Negroni.ServeHTTP]: each handler gets the rest of the chain as [next];
    [negroni.Wrap] runs its handler and then calls [next]; after the last
    handler [final] runs (nothing, for a chain served on its own). *)
Fixpoint runChainThen {App : Type} (env : MuxEnv App) (n : Negroni App)
    (final : Request -> Run App -> Run App) (req : Request) (s : Run App) : Run App :=
  match n with
  | [] => final req s
  | Registered t name mw :: rest =>
      exec (mw req) (runChainThen env rest final) (enter t name s)
  | WrapFunc h :: rest =>
      runChainThen env rest final req (onWorld (h req) s)
  | WrapSubrouter leafs :: rest =>
      runChainThen env rest final req (onWorld (serveLeafs env leafs req) s)
  end.

Definition runChain {App : Type} (env : MuxEnv App) (n : Negroni App)
  : Request -> Run App -> Run App :=
  runChainThen env n (fun _ s => s).

(** Serving what a per-prefix router resolved to. *)
Definition servePrefixResolved {App : Type} (env : MuxEnv App)
    (x : option (Resolved App)) (req : Request) (s : Run App) : Run App :=
  match x with
  | Some (RouteChain n) | Some (NotFoundChain n) => runChain env n req s
  | Some (PlainFunc h) => onWorld (h req) s
  | Some (FileServer strip dir) => onWorld (fileServer env strip dir req) s
  | Some (AlwaysThenRouter _ _) | Some DefaultNotFound | None =>
      onWorld (httpNotFound req) s
  end.

(** [Router.ServeHTTP] of the handler [Make] returns. *)
Definition ServeHTTP {App : Type} (env : MuxEnv App) (R : Router App)
    (req : Request) (s : Run App) : Run App :=
  match resolve env R req with
  | RouteChain n | NotFoundChain n => runChain env n req s
  | PlainFunc h => onWorld (h req) s
  | AlwaysThenRouter n key =>
      runChainThen env n
        (fun r s' =>
           servePrefixResolved env
             (subrouters R !! key ≫= (fun pr => resolvePrefix env pr r)) r s')
        req s
  | FileServer strip dir => onWorld (fileServer env strip dir req) s
  | DefaultNotFound => onWorld (httpNotFound req) s
  end.

(** ** The service factory *)

(** The [range] statements of [Make] over a map: over [f.always], over the
    route table, and over [f.defaults], once for each route (the route is
    known by the key of its table entry and its index there). *)
Inductive RangeSite : Type :=
  | OverAlways
  | OverRouteMap
  | OverDefaults (urlPrefix : string) (i : nat).

(** The order in which [range] visits the entries of a map: some order of
    its entries, not fixed by the language, and not the same from one
    [range] statement to the next. *)
Record RangeOrder : Type := {
  rangeOf : RangeSite -> forall V : Type, gmap string V -> list (string * V);
  rangeOf_perm : forall (site : RangeSite) (V : Type) (m : gmap string V),
    rangeOf site V m ≡ₚ map_to_list m
}.

Arguments rangeOf r site {V} m.

(** One such order: that of the keys, everywhere. *)
Definition keyOrder : RangeOrder :=
  {| rangeOf := fun _ V m => map_to_list m;
     rangeOf_perm := fun _ V m => reflexivity (map_to_list m) |}.

(** Another: the reverse of it for the routes of odd index. *)
Definition mixedOrder : RangeOrder :=
  {| rangeOf := fun site V m =>
       match site with
       | OverDefaults _ i => if Nat.odd i then reverse (map_to_list m) else map_to_list m
       | _ => map_to_list m
       end;
     rangeOf_perm := fun site V m =>
       match site with
       | OverDefaults _ i =>
           match Nat.odd i as b
             return (if b then reverse (map_to_list m) else map_to_list m)
                    ≡ₚ map_to_list m
           with
           | true => reverse_Permutation (map_to_list m)
           | false => reflexivity (map_to_list m)
           end
       | _ => reflexivity (map_to_list m)
       end |}.

Record gorillaMuxFactory (App : Type) : Type := {
  always : gmap string (Middleware App);
  defaults : gmap string (Middleware App);
  available : gmap string (Middleware App)
}.

Arguments always {App} g.
Arguments defaults {App} g.
Arguments available {App} g.

Definition FactoryForGorillaMux {App : Type} : Result (gorillaMuxFactory App) :=
  Ok {| always := ∅; defaults := ∅; available := ∅ |}.

Definition Always {App : Type} (name : string) (middleware : Middleware App)
    (f : gorillaMuxFactory App) : gorillaMuxFactory App :=
  {| always := <[name := middleware]> (always f);
     defaults := defaults f; available := available f |}.

Definition Default {App : Type} (name : string) (middleware : Middleware App)
    (f : gorillaMuxFactory App) : gorillaMuxFactory App :=
  {| always := always f;
     defaults := <[name := middleware]> (defaults f); available := available f |}.

Definition Available {App : Type} (name : string) (middleware : Middleware App)
    (f : gorillaMuxFactory App) : gorillaMuxFactory App :=
  {| always := always f; defaults := defaults f;
     available := <[name := middleware]> (available f) |}.

(** The lines [Make] and the handlers write through logrus. *)
Definition Errorf (msg : string) : LogLine := {| level := LError; text := msg |}.
Definition Warnf (msg : string) : LogLine := {| level := LWarn; text := msg |}.
Definition Debugf (msg : string) : LogLine := {| level := LDebug; text := msg |}.

Definition NotFoundHandler {App : Type} : HandlerFunc App :=
  fun r w =>
    perform (Write ("{" +:+ quoted "Error" +:+ ": " +:+ quoted "API Not Supported" +:+ "}"))
      (perform (WriteHeader StatusNotFound)
         (perform
            (LogEff (Debugf ("rest api = " +:+ ReqMethod r +:+ " " +:+ URLPath r
                             +:+ ", http=" +:+ pretty StatusNotFound
                             +:+ ", proto=" +:+ Proto r
                             +:+ ", sender=" +:+ RemoteAddr r
                             +:+ ", agent=" +:+ UserAgent r)))
            w)).

Definition APIListingHandler {App : Type} : HandlerFunc App :=
  fun _ w => perform (WriteHeader StatusNotFound) w.

(** [http.MethodGet]. *)
Definition MethodGet : string := "GET".

Definition setMethod {App : Type} (m : string) (r : Route App) : Route App :=
  {| Name := Name r; Method := m; Path := Path r; Handler := Handler r;
     Include := Include r; Exclude := Exclude r |}.

Definition setInclude {App : Type} (s : Slice) (r : Route App) : Route App :=
  {| Name := Name r; Method := Method r; Path := Path r; Handler := Handler r;
     Include := s; Exclude := Exclude r |}.

Definition setExclude {App : Type} (s : Slice) (r : Route App) : Route App :=
  {| Name := Name r; Method := Method r; Path := Path r; Handler := Handler r;
     Include := Include r; Exclude := s |}.

(** The body of the loop of [updateRoutes] at index [i]. *)
Definition updateRoute {App : Type} (routes : list (Route App))
    (routes2 : list (Route App)) (i : nat) : list (Route App) :=
  match routes !! i with
  | None => routes2
  | Some ri =>
      let routes2 :=
        if String.eqb (Method ri) "" then alter (setMethod MethodGet) i routes2
        else routes2 in
      let routes2 := alter (setInclude (sliceAll (Include ri))) i routes2 in
      alter (setExclude (sliceAll (Exclude ri))) i routes2
  end.

(** [updateRoutes]: [make] and [copy] give a second array with the same
    route values (the slice headers among them), then the loop runs. *)
Definition updateRoutes {App : Type} (routes : list (Route App)) : list (Route App) :=
  let routes2 := routes in
  foldl (updateRoute routes) routes2 (seq 0 (length routes)).

(** The set [excluded] of [Make]: a map whose values are never [nil]. *)
Definition excludedOf (exclude : list string) : gmap string unit :=
  foldl (fun excluded name => <[name := tt]> excluded) ∅ exclude.

(** The set [included] of [Make] (built, and not read afterwards). *)
Definition includedOf (excluded : gmap string unit) (include : list string)
  : gmap string unit :=
  foldl (fun included name =>
           match excluded !! name with
           | None => <[name := tt]> included
           | Some _ => included
           end) ∅ include.

(** The default middleware objects, minus the excluded ones. *)
Definition addDefaults {App : Type} (o : RangeOrder) (site : RangeSite)
    (f : gorillaMuxFactory App)
    (excluded : gmap string unit) (middlewares : Negroni App) : Negroni App :=
  foldl (fun mws '(name, middleware) =>
           match excluded !! name with
           | None => mws ++ [Registered TDefault name middleware]
           | Some _ => mws
           end) middlewares (rangeOf o site (defaults f)).

(** One turn of the loop over [route.Include]. *)
Definition addRequested {App : Type} (f : gorillaMuxFactory App)
    (excluded : gmap string unit) (acc : Negroni App * list LogLine) (name : string)
  : Negroni App * list LogLine :=
  let '(mws, out) := acc in
  match excluded !! name with
  | Some _ =>
      (mws, out ++ [Errorf ("middleware [" +:+ name
                            +:+ "] is present in <included> and <excluded> list, skipping")])
  | None =>
      match always f !! name with
      | Some _ =>
          (mws, out ++ [Warnf ("middleware [" +:+ name
                               +:+ "] is unconditionally included, skipping")])
      | None =>
          match defaults f !! name with
          | Some _ =>
              (mws, out ++ [Warnf ("middleware [" +:+ name
                                   +:+ "] is included by default, skipping")])
          | None =>
              match available f !! name with
              | None =>
                  (mws, out ++ [Errorf ("middleware [" +:+ name
                                        +:+ "] is not registered, skipping")])
              | Some middleware =>
                  (mws ++ [Registered TAvailable name middleware], out)
              end
          end
      end
  end.

(** The route's own subrouter, [routerWithPrefix.Path("/").Subrouter()]:
    its template and error, and the routes registered in it. A route named
    [Apis] registers nothing there. *)
Definition subrouterOf {App : Type} (prefixTpl : string) (route : Route App)
  : string * option string * list (MuxRoute (HandlerFunc App)) :=
  let '(subTpl, subErr) := addRegexpMatcher prefixTpl "/" in
  let '(leafTpl, leafErr) := addRegexpMatcher subTpl ("/" +:+ Path route) in
  let leafs :=
    if String.eqb (Name route) "Apis" then []
    else [ {| kind := PathExact; tpl := leafTpl; methods := [ToUpper (Method route)];
              routeName := Name route; target := Handler route; err := leafErr |} ] in
  (subTpl, subErr, leafs).

(** The slice [middlewares] of [Make] for one route, as it stands when the
    route is bound, and the lines logged on the way. *)
Definition middlewaresOf {App : Type} (o : RangeOrder) (site : RangeSite) (h : Store)
    (f : gorillaMuxFactory App) (route : Route App)
    (leafs : list (MuxRoute (HandlerFunc App))) (out : list LogLine)
  : Negroni App * list LogLine :=
  let excluded := excludedOf (elems h (Exclude route)) in
  let included := includedOf excluded (elems h (Include route)) in
  let middlewares := addDefaults o site f excluded [] in
  let '(middlewares, out) :=
    foldl (addRequested f excluded) (middlewares, out) (elems h (Include route)) in
  (middlewares ++ [WrapSubrouter leafs], out).

(** Step 4 of [Make]: one turn of the loop over the updated routes. The
    index of the turn is carried along: it tells this turn's [range] over
    [f.defaults] from the others. *)
Definition registerRoute {App : Type} (o : RangeOrder) (h : Store)
    (f : gorillaMuxFactory App) (alwaysN : Negroni App) (urlPrefix prefixTpl : string)
    (st : list (MuxRoute (TopTarget App)) * list (MuxRoute (PrefixTarget App))
          * list LogLine * nat)
    (route : Route App)
  : list (MuxRoute (TopTarget App)) * list (MuxRoute (PrefixTarget App))
    * list LogLine * nat :=
  let '(top, proutes, out, i) := st in
  let '(subTpl, subErr, leafs) := subrouterOf prefixTpl route in
  let proutes :=
    proutes ++ [ {| kind := PathExact; tpl := subTpl; methods := []; routeName := "";
                    target := PSubrouter leafs; err := subErr |} ] in
  let top :=
    if String.eqb (Name route) "Apis" then
      let '(apiTpl, apiErr) := addRegexpMatcher "" "/api/" in
      top ++ [ {| kind := PathPrefix; tpl := apiTpl; methods := []; routeName := "";
                  target := TFileServer "/api/" "/milkyway/swagger-ui/";
                  err := apiErr |} ]
    else top in
  let '(middlewares, out) :=
    middlewaresOf o (OverDefaults urlPrefix i) h f route leafs out in
  let '(routeTpl, routeErr) := addRegexpMatcher prefixTpl ("/" +:+ Path route) in
  let proutes :=
    proutes ++ [ {| kind := PathExact; tpl := routeTpl;
                    methods := [ToUpper (Method route)]; routeName := "";
                    target := PChain (alwaysN ++ middlewares); err := routeErr |} ] in
  (top, proutes, out, S i).

(** The router under construction. *)
Record Building (App : Type) : Type := {
  bTop : list (MuxRoute (TopTarget App));
  bSubs : gmap string (PrefixRouter App);
  bNotFound : option (Negroni App);
  bLog : list LogLine
}.

Arguments bTop {App} b.
Arguments bSubs {App} b.
Arguments bNotFound {App} b.
Arguments bLog {App} b.

(** Step 3 of [Make]: one turn of the loop over the route table. *)
Definition registerPrefix {App : Type} (o : RangeOrder) (h : Store)
    (f : gorillaMuxFactory App) (alwaysN : Negroni App)
    (st : Building App) (entry : string * list (Route App)) : Building App :=
  let '(urlPrefix, routes) := entry in
  let '(prefixTpl, prefixErr) := addRegexpMatcher "" ("/" +:+ urlPrefix) in
  let top :=
    bTop st ++ [ {| kind := PathPrefix; tpl := prefixTpl; methods := []; routeName := "";
                    target := TSubrouter urlPrefix; err := prefixErr |} ] in
  let notFound := alwaysN ++ [WrapFunc NotFoundHandler] in
  let '(listTpl, listErr) := addRegexpMatcher prefixTpl "/" in
  let proutes :=
    [ {| kind := PathExact; tpl := listTpl; methods := []; routeName := "";
         target := PFunc APIListingHandler; err := listErr |} ] in
  let '(pathTpl, pathErr) := addRegexpMatcher "" urlPrefix in
  let top :=
    top ++ [ {| kind := PathExact; tpl := pathTpl; methods := []; routeName := "";
                target := TAlwaysWrap alwaysN urlPrefix; err := pathErr |} ] in
  let updatedRoutes := updateRoutes routes in
  let '(top, proutes, out, _) :=
    foldl (registerRoute o h f alwaysN urlPrefix prefixTpl) (top, proutes, bLog st, 0)
          updatedRoutes in
  {| bTop := top;
     bSubs := <[urlPrefix := {| prRoutes := proutes; prNotFound := Some notFound;
                                prStrictSlash := true |}]> (bSubs st);
     bNotFound := Some notFound;
     bLog := out |}.

(** Step 2 of [Make]: the chain of the middleware that is always included. *)
Definition alwaysChain {App : Type} (o : RangeOrder) (f : gorillaMuxFactory App)
  : Negroni App :=
  foldl (fun alwaysHandlers '(name, middleware) =>
           alwaysHandlers ++ [Registered TAlways name middleware])
        [] (rangeOf o OverAlways (always f)).

(** What [Make] returns: the handler, the error, and the lines it logged. *)
Record Made (App : Type) : Type := {
  made : Router App;
  madeErr : option string;
  madeLog : list LogLine
}.

Arguments made {App} m.
Arguments madeErr {App} m.
Arguments madeLog {App} m.

Definition Make {App : Type} (o : RangeOrder) (h : Store)
    (f : gorillaMuxFactory App) (routeMap : gmap string (list (Route App)))
  : Made App :=
  let st :=
    foldl (registerPrefix o h f (alwaysChain o f))
          {| bTop := []; bSubs := ∅; bNotFound := None; bLog := [] |}
          (rangeOf o OverRouteMap routeMap) in
  {| made := {| topRoutes := bTop st; subrouters := bSubs st;
                NotFoundHandler_ := bNotFound st |};
     madeErr := None;
     madeLog := bLog st |}.

(** ** The managed server (server.go) *)

(** [tls.Config], as far as the package fills it in. *)
Record TLSConfig : Type := {
  MinVersion : Z;
  Certificates : list string
}.

(** [tls.VersionTLS11]. *)
Definition VersionTLS11 : Z := 770.

(** [http.Server], as far as the package touches it. The error logger is
    known by its name. *)
Record HTTPServer (H : Type) : Type := {
  Addr : string;
  SrvHandler : H;
  TLSConfig_ : option TLSConfig;
  ErrorLog : option string
}.

Arguments Addr {H} h.
Arguments SrvHandler {H} h.
Arguments TLSConfig_ {H} h.
Arguments ErrorLog {H} h.

(** [ServerStatusListener]: a callback of the application, known by its
    name; its calls are recorded as events. *)
Definition ServerStatusListener : Type := string.

Record ServerImpl (H : Type) : Type := {
  serverStatus : ServerStatus;
  statusListener : option ServerStatusListener;
  server : HTTPServer H;
  shutdownTimeout : Z
}.

Arguments serverStatus {H} s.
Arguments statusListener {H} s.
Arguments server {H} s.
Arguments shutdownTimeout {H} s.

Definition withServer {H : Type} (f : HTTPServer H -> HTTPServer H)
    (srv : ServerImpl H) : ServerImpl H :=
  {| serverStatus := serverStatus srv; statusListener := statusListener srv;
     server := f (server srv); shutdownTimeout := shutdownTimeout srv |}.

Definition withAddr {H : Type} (a : string) (hs : HTTPServer H) : HTTPServer H :=
  {| Addr := a; SrvHandler := SrvHandler hs; TLSConfig_ := TLSConfig_ hs;
     ErrorLog := ErrorLog hs |}.

Definition withTLSConfig {H : Type} (c : option TLSConfig) (hs : HTTPServer H)
  : HTTPServer H :=
  {| Addr := Addr hs; SrvHandler := SrvHandler hs; TLSConfig_ := c;
     ErrorLog := ErrorLog hs |}.

Definition withErrorLog {H : Type} (l : option string) (hs : HTTPServer H)
  : HTTPServer H :=
  {| Addr := Addr hs; SrvHandler := SrvHandler hs; TLSConfig_ := TLSConfig_ hs;
     ErrorLog := l |}.

(** [ServerOpt]: acts on the server under construction, or fails. *)
Definition ServerOpt (H : Type) : Type := ServerImpl H -> Result (ServerImpl H).

Definition ServerAddress {H : Type} (address : string) : ServerOpt H :=
  fun srv => Ok (withServer (withAddr address) srv).

Definition ServerIP {H : Type} (env : StdEnv) (ip : net.IP) : ServerOpt H :=
  fun srv =>
    match net.To4 ip with
    | None => Err ("invalid api server IP: " +:+ IP_String env ip)
    | Some _ =>
        port <-R index (strings_.Split (Addr (server srv)) ":") 1 ;;
        Ok (withServer (withAddr (IP_String env ip +:+ ":" +:+ port)) srv)
    end.

Definition ServerPort {H : Type} (port : Z) : ServerOpt H :=
  fun srv =>
    host <-R index (strings_.Split (Addr (server srv)) ":") 0 ;;
    Ok (withServer (withAddr (host +:+ ":" +:+ strconv.Itoa port)) srv).

Definition ServerCertificateFile {H : Type} (env : StdEnv) (certFile keyFile : string)
  : ServerOpt H :=
  fun srv =>
    match LoadX509KeyPair env certFile keyFile with
    | inr e => Err e
    | inl cer =>
        Ok (withServer
              (withTLSConfig (Some {| MinVersion := VersionTLS11; Certificates := [cer] |}))
              srv)
    end.

Definition ServerLogger {H : Type} (logger : option string) : ServerOpt H :=
  fun srv => Ok (withServer (withErrorLog logger) srv).

Definition ServerListener {H : Type} (listener : option ServerStatusListener)
  : ServerOpt H :=
  fun srv =>
    Ok {| serverStatus := serverStatus srv; statusListener := listener;
          server := server srv; shutdownTimeout := shutdownTimeout srv |}.

(** The loop of [New] over the options. *)
Fixpoint applyOptions {H : Type} (options : list (ServerOpt H)) (impl : ServerImpl H)
  : Result (ServerImpl H) :=
  match options with
  | [] => Ok impl
  | opt :: rest =>
      match opt impl with
      | Ok impl' => applyOptions rest impl'
      | Err e => Err e
      | Panic p => Panic p
      end
  end.

(** [New]: [Err e] stands for the pair [(nil, err)]. *)
Definition New {H : Type} (handler : H) (options : list (ServerOpt H))
  : Result (ServerImpl H) :=
  let impl :=
    {| serverStatus := Stopped;
       statusListener := None;
       server := {| Addr := ""; SrvHandler := handler; TLSConfig_ := None;
                    ErrorLog := None |};
       shutdownTimeout := DefaultShutdownTimeout |} in
  applyOptions options impl.

Definition Endpoint {H : Type} (srv : ServerImpl H) : string :=
  "http" +:+ "://" +:+ Addr (server srv).

(** *** The life of a started server

    Every method takes the server's mutex for its whole body, and so does
    each block of the goroutine that [StartHTTP] and [StartHTTPS] start:
    each is one atomic step on the process below. *)

Inductive Protocol : Type := HTTP | HTTPS.

(** Where a goroutine of the accept loop stands: started and not yet past
    its first block; inside [ListenAndServe]; back from it, the error
    logged; gone. *)
Inductive LoopPC : Type := Spawned | Serving | Returned | Exited.

#[global] Instance LoopPC_eq_dec : EqDecision LoopPC.
Proof. solve_decision. Defined.

Record AcceptLoop : Type := {
  protocol : Protocol;
  pc : LoopPC
}.

Inductive Event : Type :=
  | Notified (listener : ServerStatusListener) (statusOld statusNew : ServerStatus)
  | ErrorLogged (logger : option string) (msg : string)
  | ShutdownCalled (timeout : Z).

Record Process (H : Type) : Type := {
  srv : ServerImpl H;
  loops : list AcceptLoop;
  events : list Event
}.

Arguments srv {H} p.
Arguments loops {H} p.
Arguments events {H} p.

Definition status {H : Type} (p : Process H) : ServerStatus := serverStatus (srv p).

Definition setStatus {H : Type} (st : ServerStatus) (p : Process H) : Process H :=
  let oldStatus := serverStatus (srv p) in
  {| srv := {| serverStatus := st; statusListener := statusListener (srv p);
               server := server (srv p); shutdownTimeout := shutdownTimeout (srv p) |};
     loops := loops p;
     events := match statusListener (srv p) with
               | Some l => events p ++ [Notified l oldStatus st]
               | None => events p
               end |}.

(** The [go func() { ... }()] statement. *)
Definition spawn {H : Type} (proto : Protocol) (p : Process H) : Process H :=
  {| srv := srv p; loops := loops p ++ [{| protocol := proto; pc := Spawned |}];
     events := events p |}.

Definition StatusListener {H : Type} (listener : option ServerStatusListener)
    (p : Process H) : Process H :=
  {| srv := {| serverStatus := serverStatus (srv p); statusListener := listener;
               server := server (srv p); shutdownTimeout := shutdownTimeout (srv p) |};
     loops := loops p; events := events p |}.

Definition IsRunning {H : Type} (p : Process H) : bool :=
  bool_decide (status p = Running).

Definition IsStopped {H : Type} (p : Process H) : bool :=
  bool_decide (status p = Stopped).

(** The error (or [None] for [nil]) and the process afterwards. *)
Definition StartHTTP {H : Type} (p : Process H) : option string * Process H :=
  if bool_decide (status p ≠ Stopped) then
    (Some ("api server is already running (or starting) on: " +:+ Endpoint (srv p)), p)
  else
    (None, setStatus Starting (spawn HTTP p)).

Definition StartHTTPS {H : Type} (p : Process H) : option string * Process H :=
  if bool_decide (status p ≠ Stopped) then
    (Some ("api server is already running on: " +:+ Endpoint (srv p)), p)
  else
    match TLSConfig_ (server (srv p)) with
    | None =>
        (Some "https api server can not start without SSL certificate and private key", p)
    | Some _ => (None, setStatus Starting (spawn HTTPS p))
    end.

Definition Stop {H : Type} (p : Process H) : option string * Process H :=
  if bool_decide (status p = Stopped) then
    (Some ("api server is already stopped and not listening on: " +:+ Endpoint (srv p)), p)
  else
    (None, {| srv := srv p; loops := loops p;
              events := events p ++ [ShutdownCalled (shutdownTimeout (srv p))] |}).

Definition setPC {H : Type} (i : nat) (c : LoopPC) (p : Process H) : Process H :=
  {| srv := srv p;
     loops := alter (fun l => {| protocol := protocol l; pc := c |}) i (loops p);
     events := events p |}.

Definition pcOf {H : Type} (i : nat) (p : Process H) : option LoopPC := pc <$> loops p !! i.

(** First block of the goroutine: [setStatus(Running)] under the lock, then
    on to [ListenAndServe] (or [ListenAndServeTLS]). *)
Definition loopRun {H : Type} (i : nat) (p : Process H) : option (Process H) :=
  if bool_decide (pcOf i p = Some Spawned)
  then Some (setStatus Running (setPC i Serving p))
  else None.

(** [ListenAndServe] comes back with [err], which is logged when not [nil]:
    through the server's error logger, or through the standard one. *)
Definition loopReturn {H : Type} (i : nat) (err : option string) (p : Process H)
  : option (Process H) :=
  if bool_decide (pcOf i p = Some Serving) then
    let p' := setPC i Returned p in
    Some {| srv := srv p'; loops := loops p';
            events := match err with
                      | None => events p'
                      | Some e =>
                          match ErrorLog (server (srv p)) with
                          | Some l => events p' ++ [ErrorLogged (Some l) e]
                          | None => events p' ++ [ErrorLogged None ("error:  " +:+ e)]
                          end
                      end |}
  else None.

(** Last block of the goroutine: [setStatus(Stopped)] under the lock. *)
Definition loopExit {H : Type} (i : nat) (p : Process H) : option (Process H) :=
  if bool_decide (pcOf i p = Some Returned)
  then Some (setStatus Stopped (setPC i Exited p))
  else None.

(** The atomic steps of a process: the calls on the [Server] interface and
    the blocks of the accept loops. *)
Inductive Step : Type :=
  | CallStatusListener (listener : option ServerStatusListener)
  | CallIsRunning
  | CallIsStopped
  | CallStartHTTP
  | CallStartHTTPS
  | CallStop
  | LoopRun (i : nat)
  | LoopReturn (i : nat) (err : option string)
  | LoopExit (i : nat).

Definition step {H : Type} (a : Step) (p : Process H) : option (Process H) :=
  match a with
  | CallStatusListener l => Some (StatusListener l p)
  | CallIsRunning | CallIsStopped => Some p
  | CallStartHTTP => Some (StartHTTP p).2
  | CallStartHTTPS => Some (StartHTTPS p).2
  | CallStop => Some (Stop p).2
  | LoopRun i => loopRun i p
  | LoopReturn i e => loopReturn i e p
  | LoopExit i => loopExit i p
  end.

(** A run of the process along a list of steps. *)
Fixpoint steps {H : Type} (l : list Step) (p : Process H) : option (Process H) :=
  match l with
  | [] => Some p
  | a :: rest => step a p ≫= steps rest
  end.

(** The process right after [New] returned the server. *)
Definition started {H : Type} (impl : ServerImpl H) : Process H :=
  {| srv := impl; loops := []; events := [] |}.

(** ** The chain of a route in the specification's words

    "Start with all default-tier middleware whose name is not in the
    Exclude-set. For each name in Include: if also in the Exclude-set, skip
    with a logged conflict; if already in the always-tier or default-tier,
    skip with a logged warning; otherwise resolve from the available-tier: if
    absent, skip with a logged error; else append." *)

Inductive Verdict (App : Type) : Type :=
  | Conflict
  | AlreadyAlways
  | AlreadyDefault
  | Unregistered
  | Appended (mw : Middleware App).

Arguments Conflict {App}.
Arguments AlreadyAlways {App}.
Arguments AlreadyDefault {App}.
Arguments Unregistered {App}.
Arguments Appended {App} mw.

Definition specVerdict {App : Type} (f : gorillaMuxFactory App)
    (exclude : list string) (name : string) : Verdict App :=
  if decide (name ∈ exclude) then Conflict
  else if decide (is_Some (always f !! name)) then AlreadyAlways
  else if decide (is_Some (defaults f !! name)) then AlreadyDefault
  else match available f !! name with
       | None => Unregistered
       | Some mw => Appended mw
       end.

Definition specDefaults {App : Type} (o : RangeOrder) (site : RangeSite)
    (f : gorillaMuxFactory App) (exclude : list string) : Negroni App :=
  (fun e => Registered TDefault e.1 e.2)
    <$> filter (fun e => e.1 ∉ exclude) (rangeOf o site (defaults f)).

Definition specRequested {App : Type} (f : gorillaMuxFactory App)
    (exclude include : list string) : Negroni App :=
  omap (fun name =>
          match specVerdict f exclude name with
          | Appended mw => Some (Registered TAvailable name mw)
          | _ => None
          end) include.

Definition specLogged {App : Type} (f : gorillaMuxFactory App)
    (exclude include : list string) : list LogLine :=
  omap (fun name =>
          match specVerdict f exclude name with
          | Conflict =>
              Some (Errorf ("middleware [" +:+ name
                            +:+ "] is present in <included> and <excluded> list, skipping"))
          | AlreadyAlways =>
              Some (Warnf ("middleware [" +:+ name
                           +:+ "] is unconditionally included, skipping"))
          | AlreadyDefault =>
              Some (Warnf ("middleware [" +:+ name
                           +:+ "] is included by default, skipping"))
          | Unregistered =>
              Some (Errorf ("middleware [" +:+ name +:+ "] is not registered, skipping"))
          | Appended _ => None
          end) include.

(** The name a handler of a chain was registered under. *)
Definition nameOf {App : Type} (x : NegroniHandler App) : option string :=
  match x with
  | Registered _ name _ => Some name
  | _ => None
  end.

(** The names of the registered middleware in each chain of a per-prefix
    router, route by route. *)
Definition chainNames {App : Type} (pr : PrefixRouter App) : list (list string) :=
  omap (fun rt : MuxRoute (PrefixTarget App) =>
          match target rt with
          | PChain n => Some (omap nameOf (n : list (NegroniHandler App)))
          | _ => None
          end) (prRoutes pr).

(** The terminal element in the specification's words: the route handler,
    bound to the route's path, method and name. *)
Definition specTerminal {App : Type} (prefixTpl : string) (route : Route App)
  : NegroniHandler App :=
  WrapSubrouter
    [ {| kind := PathExact;
         tpl := (addRegexpMatcher (addRegexpMatcher prefixTpl "/").1
                   ("/" +:+ Path route)).1;
         methods := [ToUpper (Method route)];
         routeName := Name route;
         target := Handler route;
         err := (addRegexpMatcher (addRegexpMatcher prefixTpl "/").1
                   ("/" +:+ Path route)).2 |} ].

(** The routes [Make] adds to the per-prefix router for one route: the
    route's own subrouter, and the route bound to its chain. *)
Definition prefixRoutesOf {App : Type} (o : RangeOrder) (h : Store)
    (f : gorillaMuxFactory App) (urlPrefix prefixTpl : string) (i : nat)
    (route : Route App)
  : list (MuxRoute (PrefixTarget App)) :=
  let '(subTpl, subErr, leafs) := subrouterOf prefixTpl route in
  let '(routeTpl, routeErr) := addRegexpMatcher prefixTpl ("/" +:+ Path route) in
  [ {| kind := PathExact; tpl := subTpl; methods := []; routeName := "";
       target := PSubrouter leafs; err := subErr |};
    {| kind := PathExact; tpl := routeTpl; methods := [ToUpper (Method route)];
       routeName := "";
       target :=
         PChain (alwaysChain o f
                   ++ (middlewaresOf o (OverDefaults urlPrefix i) h f route leafs []).1);
       err := routeErr |} ].

(** The route of the listing endpoint. *)
Definition listingRoute {App : Type} (prefixTpl : string)
  : MuxRoute (PrefixTarget App) :=
  {| kind := PathExact; tpl := (addRegexpMatcher prefixTpl "/").1; methods := [];
     routeName := ""; target := PFunc APIListingHandler;
     err := (addRegexpMatcher prefixTpl "/").2 |}.

(** A route as the specification normalizes it: "missing method defaults to
    GET"; every other field as it was. *)
Definition specNormalized {App : Type} (r : Route App) : Route App :=
  {| Name := Name r;
     Method := if String.eqb (Method r) "" then MethodGet else Method r;
     Path := Path r; Handler := Handler r;
     Include := Include r; Exclude := Exclude r |}.

(** The per-prefix router [Make] leaves behind for one entry of the route
    table (shown below to be what the loops build): the listing endpoint
    first, then two routes for each normalized route, and the not-found
    handler inside the always chain. *)
Definition prefixRouterOf {App : Type} (o : RangeOrder) (h : Store)
    (f : gorillaMuxFactory App) (urlPrefix : string) (routes : list (Route App))
  : PrefixRouter App :=
  let prefixTpl := (addRegexpMatcher "" ("/" +:+ urlPrefix)).1 in
  {| prRoutes :=
       listingRoute prefixTpl
         :: mjoin (imap (prefixRoutesOf o h f urlPrefix prefixTpl) (updateRoutes routes));
     prNotFound := Some (alwaysChain o f ++ [WrapFunc NotFoundHandler]);
     prStrictSlash := true |}.

(** The route [Make] adds to the top router for a route named [Apis]. *)
Definition fileRoutesOf {App : Type} (route : Route App)
  : list (MuxRoute (TopTarget App)) :=
  if String.eqb (Name route) "Apis" then
    [ {| kind := PathPrefix; tpl := (addRegexpMatcher "" "/api/").1; methods := [];
         routeName := ""; target := TFileServer "/api/" "/milkyway/swagger-ui/";
         err := (addRegexpMatcher "" "/api/").2 |} ]
  else [].

(** The routes [Make] adds to the top router for one entry of the table. *)
Definition topRoutesOf {App : Type} (o : RangeOrder) (f : gorillaMuxFactory App)
    (entry : string * list (Route App)) : list (MuxRoute (TopTarget App)) :=
  [ {| kind := PathPrefix; tpl := (addRegexpMatcher "" ("/" +:+ entry.1)).1;
       methods := []; routeName := ""; target := TSubrouter entry.1;
       err := (addRegexpMatcher "" ("/" +:+ entry.1)).2 |};
    {| kind := PathExact; tpl := (addRegexpMatcher "" entry.1).1;
       methods := []; routeName := ""; target := TAlwaysWrap (alwaysChain o f) entry.1;
       err := (addRegexpMatcher "" entry.1).2 |} ]
  ++ (updateRoutes entry.2 ≫= fileRoutesOf).

(** The lines [Make] logs for one route, in the specification's words. *)
Definition loggedOf {App : Type} (h : Store) (f : gorillaMuxFactory App)
    (route : Route App) : list LogLine :=
  specLogged f (elems h (Exclude route)) (elems h (Include route)).

(** A chain starts with the always chain [A]. *)
Definition startsWith {App : Type} (A n : Negroni App) : Prop :=
  exists rest, n = A ++ rest.

(** A continuation that only adds to the record of entered middleware. *)
Definition keepsEntered {App : Type} (g : Request -> Run App -> Run App) : Prop :=
  forall r s x, x ∈ entered s -> x ∈ entered (g r s).

(** Every registered middleware of a chain yields to the next on every path. *)
Definition allDelegating {App : Type} (n : Negroni App) : Prop :=
  Forall (fun x => match x with
                   | Registered _ _ mw => forall r, delegating (mw r)
                   | _ => True
                   end) n.

(** What a request resolved to is, when it is a negroni chain, inside [A]. *)
Definition insideAlways {App : Type} (A : Negroni App) (x : Resolved App) : Prop :=
  match x with
  | RouteChain n | NotFoundChain n | AlwaysThenRouter n _ => startsWith A n
  | PlainFunc _ | FileServer _ _ | DefaultNotFound => True
  end.

(** Every chain a per-prefix router can hand a request to is inside [A]. *)
Definition wrappedRouter {App : Type} (A : Negroni App) (pr : PrefixRouter App) : Prop :=
  Forall (fun rt => forall n, target rt = PChain n -> startsWith A n) (prRoutes pr)
  /\ (forall n, prNotFound pr = Some n -> startsWith A n).

(** A sample application: its state is the list of the callbacks that ran. *)
Definition Marks : Type := list string.

Definition markCounter (tag : string) : serviceCallMonitor Marks :=
  NewServiceCallCounter (fun a => a ++ [tag]).

Definition sampleHandler (tag : string) : HandlerFunc Marks :=
  fun _ w => perform (Write tag) w.

Definition sampleRequest (method path : string) : Request :=
  {| ReqMethod := method; URLPath := path; Proto := "HTTP/1.1";
     RemoteAddr := "127.0.0.1:40000"; UserAgent := "client"; Body := "" |}.

Definition freshRun : Run Marks :=
  {| world := {| rw := []; logged := []; app := [] |}; entered := [] |}.

Definition emptyFactory : gorillaMuxFactory Marks :=
  {| always := ∅; defaults := ∅; available := ∅ |}.

Definition sampleEnv : StdEnv :=
  {| ipOtherString := fun _ => "?";
     LoadX509KeyPair := fun _ _ => inr "open: no such file or directory" |}.

(** Sample middleware, routes and tables. *)
Definition sampleCount : Middleware Marks :=
  serviceCallMonitor_ServeHTTP (markCounter "count").

Definition sampleGate : Middleware Marks :=
  serviceGatekeeper_ServeHTTP (NewServiceGatekeeper (fun _ _ => false) []).1.

Definition sampleOpenGate : Middleware Marks :=
  serviceGatekeeper_ServeHTTP (NewServiceGatekeeper (fun _ _ => true) []).1.

Definition sampleStore : Store :=
  {[ 1 := ["count"; "audit"]; 2 := ["audit"; "trace"; "count"] ]}.

(** A route that asks for [audit], [trace] and [count] and excludes [count]
    and [audit]. *)
Definition sampleRoute : Route Marks :=
  {| Name := "GetData"; Method := ""; Path := "getdata";
     Handler := sampleHandler "data";
     Include := {| arr := 2; off := 0; len := 3; cap := 3 |};
     Exclude := {| arr := 1; off := 0; len := 2; cap := 2 |} |}.

Definition sampleTable : gmap string (list (Route Marks)) :=
  {[ "test" := [sampleRoute] ]}.

(** A table with two routes under one prefix, and a factory with two
    default middleware. *)
Definition twoRoutes : gmap string (list (Route Marks)) :=
  {[ "v1" := [ {| Name := "Status"; Method := "GET"; Path := "status";
                  Handler := sampleHandler "status";
                  Include := nilSlice; Exclude := nilSlice |};
               {| Name := "Version"; Method := "GET"; Path := "version";
                  Handler := sampleHandler "version";
                  Include := nilSlice; Exclude := nilSlice |} ] ]}.

Definition twoDefaults : gorillaMuxFactory Marks :=
  Default "audit" sampleCount (Default "count" sampleCount emptyFactory).

Definition apisRoute : Route Marks :=
  {| Name := "Apis"; Method := "GET"; Path := "apis";
     Handler := sampleHandler "listing";
     Include := nilSlice; Exclude := nilSlice |}.

(** ** The options of [New], by the call that builds them

    A [ServerOpt] is a function; the ones the package itself provides are
    the results of these six calls. *)

Inductive OptionCall : Type :=
  | OptServerAddress (address : string)
  | OptServerIP (ip : net.IP)
  | OptServerPort (port : Z)
  | OptServerCertificateFile (certFile keyFile : string)
  | OptServerLogger (logger : option string)
  | OptServerListener (listener : option ServerStatusListener).

Definition optionOf {H : Type} (env : StdEnv) (c : OptionCall) : ServerOpt H :=
  match c with
  | OptServerAddress address => ServerAddress address
  | OptServerIP ip => ServerIP env ip
  | OptServerPort port => ServerPort port
  | OptServerCertificateFile certFile keyFile => ServerCertificateFile env certFile keyFile
  | OptServerLogger logger => ServerLogger logger
  | OptServerListener listener => ServerListener listener
  end.

Definition isCertificateCall (c : OptionCall) : bool :=
  match c with
  | OptServerCertificateFile _ _ => true
  | _ => false
  end.

(** The TLS configuration [ServerCertificateFile] leaves: TLS 1.1 at least,
    one certificate. *)
Definition certificateShaped (c : option TLSConfig) : Prop :=
  match c with
  | Some cfg => MinVersion cfg = VersionTLS11 /\ length (Certificates cfg) = 1
  | None => True
  end.

(** The accept loops whose goroutine has not finished. *)
Definition liveLoops {H : Type} (p : Process H) : list AcceptLoop :=
  filter (fun l => pc l <> Exited) (loops p).

(** The status changes the listeners were told of, oldest first. *)
Definition notifications {H : Type} (p : Process H)
  : list (ServerStatus * ServerStatus) :=
  omap (fun e => match e with
                 | Notified _ statusOld statusNew => Some (statusOld, statusNew)
                 | _ => None
                 end) (events p).

(** What the lock keeps true of the accept loops: all finished while the
    status is [Stopped]; otherwise all but the last one started, which has
    not run its first block while the status is [Starting], and is in or
    just out of [ListenAndServe] while it is [Running]. *)
Definition oneLoop {H : Type} (p : Process H) : Prop :=
  match status p with
  | Stopped => Forall (fun l => pc l = Exited) (loops p)
  | Starting =>
      exists finished proto,
        loops p = finished ++ [{| protocol := proto; pc := Spawned |}]
        /\ Forall (fun l => pc l = Exited) finished
  | Running =>
      exists finished proto c,
        loops p = finished ++ [{| protocol := proto; pc := c |}]
        /\ Forall (fun l => pc l = Exited) finished
        /\ (c = Serving \/ c = Returned)
  end.

(** The three status changes of a start that runs its course. *)
Definition inCycle (t : ServerStatus * ServerStatus) : Prop :=
  t = (Stopped, Starting) \/ t = (Starting, Running) \/ t = (Running, Stopped).

(** A sample server, as [New] returns it for an address and a listener, and
    the process it is after [StartHTTP] and the first block of the accept
    loop. *)
Definition sampleServer : ServerImpl unit :=
  {| serverStatus := Stopped; statusListener := Some "watch";
     server := {| Addr := "0.0.0.0:8080"; SrvHandler := tt; TLSConfig_ := None;
                  ErrorLog := None |};
     shutdownTimeout := DefaultShutdownTimeout |}.

Definition sampleServing : Process unit :=
  setStatus Running (setPC 0 Serving (setStatus Starting (spawn HTTP (started sampleServer)))).

(** The listener is in place, and the last status it was told (the status
    [st0] when it was told none) is the status of the server. *)
Definition toldLast {H : Type} (st0 : ServerStatus) (p : Process H) : Prop :=
  is_Some (statusListener (srv p))
  /\ status p = default st0 (last (notifications p).*2).

(** ** The logging middleware (logger.go) *)

(** [http.StatusOK]. *)
Definition StatusOK : Z := 200.

(** [LoggingResponseWriter]: the proxy put around the response writer, as
    far as its own state goes. Every call on it reaches the writer inside. *)
Record LoggingResponseWriter : Type := { statusCode : Z }.

Definition NewLoggingResponseWriter : LoggingResponseWriter :=
  {| statusCode := StatusOK |}.

(** [WriteHeader] saves the code (and hands the call on). *)
Definition LoggingResponseWriter_WriteHeader (code : Z) (lrw : LoggingResponseWriter)
  : LoggingResponseWriter :=
  {| statusCode := code |}.

(** The proxy after the calls [calls] went through it: [Header] and [Write]
    are the methods of the writer inside and leave the proxy as it is. *)
Definition through (lrw : LoggingResponseWriter) (calls : list RwCall)
  : LoggingResponseWriter :=
  foldl (fun lrw c => match c with
                      | RwWriteHeader code => LoggingResponseWriter_WriteHeader code lrw
                      | _ => lrw
                      end) lrw calls.

Record logger : Type := { tag : string }.

Definition LoggerOpt : Type := logger -> logger.

Definition LoggerTag (t : string) : LoggerOpt := fun _ => {| tag := t |}.

Definition Logger (options : list LoggerOpt) : logger :=
  foldl (fun l opt => opt l) {| tag := "" |} options.

(** The line that marks the start of the processing. *)
Definition logger_start (l : logger) (r : Request) : LogLine :=
  if negb (String.eqb (tag l) "") then
    Debugf ("rest api > " +:+ tag l +:+ ", method=" +:+ ReqMethod r
            +:+ ", proto=" +:+ Proto r +:+ ", sender=" +:+ RemoteAddr r
            +:+ ", agent=" +:+ UserAgent r)
  else
    Debugf ("rest api > " +:+ ReqMethod r +:+ " " +:+ URLPath r
            +:+ ", proto=" +:+ Proto r +:+ ", sender=" +:+ RemoteAddr r
            +:+ ", agent=" +:+ UserAgent r).

(** The line that marks its end; [elapsed] is the text of the time it took. *)
Definition logger_end (l : logger) (r : Request) (lrw : LoggingResponseWriter)
    (elapsed : string) : LogLine :=
  if negb (String.eqb (tag l) "") then
    Debugf ("rest api < " +:+ tag l +:+ ", http=" +:+ pretty (statusCode lrw)
            +:+ ", method=" +:+ ReqMethod r +:+ ", sender=" +:+ RemoteAddr r)
  else
    Debugf ("rest api < " +:+ ReqMethod r +:+ " " +:+ URLPath r
            +:+ ", http=" +:+ pretty (statusCode lrw)
            +:+ ", sender=" +:+ RemoteAddr r +:+ ", elapsed=" +:+ elapsed).

(** [logger.ServeHTTP]. The clock is outside the model: [elapsed] answers
    the text of the time between the two readings of it, given the world at
    each. The calls that went through the proxy are the ones the response
    writer received while [next] ran. *)
Definition logger_ServeHTTP {App : Type} (elapsed : World App -> World App -> string)
    (l : logger) : Middleware App :=
  fun r =>
    Read (fun w0 =>
    Do (LogEff (logger_start l r))
    (Next r
    (Read (fun w1 =>
       let lrw := through NewLoggingResponseWriter (drop (length (rw w0)) (rw w1)) in
       Do (LogEff (logger_end l r lrw (elapsed w0 w1))) Ret)))).

(** The code of the last [WriteHeader] among the calls, [d] without one. *)
Definition lastWriteHeader (d : Z) (calls : list RwCall) : Z :=
  default d (last (omap (fun c => match c with
                                  | RwWriteHeader code => Some code
                                  | _ => None
                                  end) calls)).

(** ** The data handlers of the package's test (middleware.go)

    The application's state is the package variable [testdata]. What
    [encoding/json] does is outside the model: [decodePostdata] answers the
    field [Data] of the [Postdata] a body decodes to ([inl]) or the error
    ([inr]), and [encodeResponse] the bytes of a [Response] with the given
    field [Error], or the error. A response writer that fails to write is
    not modelled. *)

Record JSON : Type := {
  decodePostdata : string -> string + string;
  encodeResponse : string -> string + string
}.

Definition newline : string := String (Ascii.ascii_of_nat 10) EmptyString.

Definition StatusBadRequest : Z := 400.
Definition StatusInternalServerError : Z := 500.

(** [http.Error]. *)
Definition httpError {App : Type} (error : string) (code : Z) (w : World App)
  : World App :=
  perform (Write (error +:+ newline))
    (perform (WriteHeader code)
       (perform (HeaderSet "X-Content-Type-Options" "nosniff")
          (perform (HeaderSet "Content-Type" "text/plain; charset=utf-8") w))).

(** [json.NewEncoder(w).Encode(&resp)], and what follows when it fails. *)
Definition encodeTo (json : JSON) (what respError : string) (w : World string)
  : World string :=
  match encodeResponse json respError with
  | inr e =>
      httpError e StatusInternalServerError
        (perform (LogEff (Errorf (what +:+ " Error: " +:+ e +:+ newline))) w)
  | inl bytes => perform (Write (bytes +:+ newline)) w
  end.

Definition PostDataHandler (json : JSON) : HandlerFunc string :=
  fun r w =>
    match decodePostdata json (Body r) with
    | inr e =>
        httpError e StatusBadRequest
          (perform (LogEff (Errorf ("/postdata Bad Request Error: " +:+ e +:+ newline))) w)
    | inl data =>
        let w := onApp (fun _ => data) w in
        encodeTo json "/postdata" "" w
    end.

Definition DeleteDataHandler (json : JSON) : HandlerFunc string :=
  fun r w =>
    match decodePostdata json (Body r) with
    | inr e =>
        httpError e StatusBadRequest
          (perform (LogEff (Errorf ("/deletedata Bad Request Error: " +:+ e +:+ newline))) w)
    | inl data =>
        if negb (String.eqb data (app w))
        then encodeTo json "/deleteData" "Data does not match" w
        else encodeTo json "/deleteData" "" (onApp (fun _ => "") w)
    end.

(** * Properties *)

(** ** Splitting an address *)

Lemma Split_without_separator (s : string) (sep : Ascii.ascii) :
  strings_.Contains s sep = false -> strings_.Split s sep = [s].
Proof.
  induction s as [|c rest IH]; simpl; [done|].
  destruct (Ascii.eqb c sep); simpl; [done|].
  intros Hrest. by rewrite (IH Hrest).
Qed.

Lemma Split_nonempty (s : string) (sep : Ascii.ascii) :
  strings_.Split s sep <> [].
Proof.
  induction s as [|c rest IH]; simpl; [done|].
  destruct (Ascii.eqb c sep); [done|].
  by destruct (strings_.Split rest sep).
Qed.

Lemma Split_host_port (host rest : string) (sep : Ascii.ascii) :
  strings_.Contains host sep = false ->
  strings_.Split (host +:+ String sep rest) sep = host :: strings_.Split rest sep.
Proof.
  induction host as [|c host IH]; simpl.
  - intros _. by rewrite Ascii.eqb_refl.
  - destruct (Ascii.eqb c sep); simpl; [done|].
    intros Hhost. by rewrite (IH Hhost).
Qed.

Lemma Split_with_separator (s : string) (sep : Ascii.ascii) :
  strings_.Contains s sep = true -> 2 <= length (strings_.Split s sep).
Proof.
  induction s as [|c rest IH]; simpl; [done|].
  destruct (Ascii.eqb c sep); simpl.
  - intros _. pose proof (Split_nonempty rest sep) as Hne.
    destruct (strings_.Split rest sep); [done | simpl; lia].
  - intros Hrest. specialize (IH Hrest).
    destruct (strings_.Split rest sep); simpl in *; lia.
Qed.

Section ServerOptions.
Context {H : Type}.
Implicit Types (srv : ServerImpl H) (p : Process H).

Lemma applyOptions_app (pre post : list (ServerOpt H)) srv :
  applyOptions (pre ++ post) srv = bindR (applyOptions pre srv) (applyOptions post).
Proof.
  revert srv. induction pre as [|opt pre IH]; intros srv; simpl; [done|].
  destruct (opt srv); simpl; auto.
Qed.

Lemma ServerIP_invalid (env : StdEnv) (ip : net.IP) srv :
  net.To4 ip = None ->
  ServerIP env ip srv = Err ("invalid api server IP: " +:+ IP_String env ip).
Proof. intros Hip. unfold ServerIP. by rewrite Hip. Qed.

(** C9: on a server whose address has no [:] (a freshly constructed one
    among them, whose address is empty), [ServerIP] with a valid IPv4
    address returns no error value: it faults on index 1 of a slice of
    length 1. Once an address [host:port] is set, it returns the server with
    the address made of the IP and that port. *)
Theorem ServerIP_needs_host_port (env : StdEnv) (ip : net.IP) (handler : H) srv :
  is_Some (net.To4 ip) ->
  (strings_.Contains (Addr (server srv)) ":" = false ->
   ServerIP env ip srv = Panic (IndexOutOfRange 1 1))
  /\ New handler [ServerIP env ip] = Panic (IndexOutOfRange 1 1)
  /\ (strings_.Contains (Addr (server srv)) ":" = true ->
      exists port,
        strings_.Split (Addr (server srv)) ":" !! 1 = Some port
        /\ ServerIP env ip srv
           = Ok (withServer (withAddr (IP_String env ip +:+ ":" +:+ port)) srv))
  /\ (forall host port,
        strings_.Contains host ":" = false ->
        strings_.Contains port ":" = false ->
        New handler [ServerAddress (host +:+ ":" +:+ port); ServerIP env ip]
        = Ok (withServer (withAddr (IP_String env ip +:+ ":" +:+ port))
                (withServer (withAddr (host +:+ ":" +:+ port))
                   {| serverStatus := Stopped; statusListener := None;
                      server := {| Addr := ""; SrvHandler := handler;
                                   TLSConfig_ := None; ErrorLog := None |};
                      shutdownTimeout := DefaultShutdownTimeout |}))).
Proof.
  intros [p4 Hip]. repeat split.
  - intros Hno. unfold ServerIP. rewrite Hip.
    by rewrite (Split_without_separator _ _ Hno).
  - unfold New, applyOptions, ServerIP. by rewrite Hip.
  - intros Hyes. pose proof (Split_with_separator _ _ Hyes) as Hlen.
    destruct (strings_.Split (Addr (server srv)) ":" !! 1) as [port|] eqn:Hport.
    + exists port. split; [done|]. unfold ServerIP, index. by rewrite Hip, Hport.
    + apply lookup_ge_None in Hport. lia.
  - intros host port Hhost Hport. unfold New, applyOptions, ServerAddress, ServerIP.
    rewrite Hip. simpl Addr.
    change (host +:+ ":" +:+ port) with (host +:+ String ":" port).
    rewrite (Split_host_port _ _ _ Hhost), (Split_without_separator _ _ Hport).
    done.
Qed.

End ServerOptions.

Lemma ServerIP_needs_host_port_witness :
  is_Some (net.To4 [10; 0; 0; 1]%N)
  /\ New tt [ServerIP sampleEnv [10; 0; 0; 1]%N] = Panic (IndexOutOfRange 1 1).
Proof.
  split; [by eexists|].
  apply (ServerIP_needs_host_port sampleEnv [10; 0; 0; 1]%N tt
           {| serverStatus := Stopped; statusListener := None;
              server := {| Addr := ""; SrvHandler := tt; TLSConfig_ := None;
                           ErrorLog := None |};
              shutdownTimeout := DefaultShutdownTimeout |}).
  by eexists.
Defined.

(** ** The life cycle of the server *)

Section Lifecycle.
Context {H : Type}.
Implicit Types (p : Process H) (a : Step).

Lemma status_setStatus (st : ServerStatus) p : status (setStatus st p) = st.
Proof. done. Qed.

Lemma status_setPC (i : nat) (c : LoopPC) p : status (setPC i c p) = status p.
Proof. done. Qed.

Lemma status_spawn (proto : Protocol) p : status (spawn proto p) = status p.
Proof. done. Qed.

Lemma Endpoint_setStatus (st : ServerStatus) p :
  Endpoint (srv (setStatus st p)) = Endpoint (srv p).
Proof. done. Qed.

Lemma pcOf_spawned (proto : Protocol) (st : ServerStatus) p :
  pcOf (length (loops p)) (setStatus st (spawn proto p)) = Some Spawned.
Proof.
  unfold pcOf. simpl. rewrite lookup_app_r by lia.
  by rewrite Nat.sub_diag.
Qed.

Lemma pcOf_setPC (i : nat) (c c' : LoopPC) p :
  pcOf i p = Some c -> pcOf i (setPC i c' p) = Some c'.
Proof.
  unfold pcOf. simpl. intros Hpc.
  destruct (loops p !! i) as [l|] eqn:Hl; [|done].
  by rewrite list_lookup_alter_eq, Hl.
Qed.

Lemma pcOf_setStatus (i : nat) (st : ServerStatus) p :
  pcOf i (setStatus st p) = pcOf i p.
Proof. done. Qed.

(** The goroutine of an accepted start, from its first block to its last:
    [Running] after the first, still [Running] when [ListenAndServe] comes
    back (whatever it returns), [Stopped] after the last. *)
Lemma accept_loop_transitions (proto : Protocol) p (e : option string) :
  let p1 := setStatus Starting (spawn proto p) in
  let i := length (loops p) in
  exists p2 p3 p4,
    loopRun i p1 = Some p2 /\ status p2 = Running
    /\ loopReturn i e p2 = Some p3 /\ status p3 = Running
    /\ loopExit i p3 = Some p4 /\ status p4 = Stopped.
Proof.
  intros p1 i.
  assert (pcOf i p1 = Some Spawned) as H1 by apply pcOf_spawned.
  assert (pcOf i (setStatus Running (setPC i Serving p1)) = Some Serving) as H2.
  { rewrite pcOf_setStatus. by apply pcOf_setPC with Spawned. }
  eexists _, _, _. split_and!.
  - unfold loopRun. rewrite bool_decide_eq_true_2; [reflexivity | assumption].
  - done.
  - unfold loopReturn. rewrite bool_decide_eq_true_2; [reflexivity | assumption].
  - done.
  - unfold loopExit. rewrite bool_decide_eq_true_2; [reflexivity|].
    change (pcOf i (setPC i Returned (setStatus Running (setPC i Serving p1)))
            = Some Returned).
    by apply pcOf_setPC with Serving.
  - done.
Qed.

(** Which steps move the status. *)
Lemma step_to_Running a p p' :
  step a p = Some p' -> status p <> Running -> status p' = Running ->
  exists i, a = LoopRun i /\ pcOf i p = Some Spawned.
Proof.
  destruct a; simpl; intros Hstep Hold Hnew; simplify_eq; try done.
  - unfold StartHTTP in Hnew. by case_bool_decide.
  - unfold StartHTTPS in Hnew. case_bool_decide; [done|].
    by destruct (TLSConfig_ (server (srv p))).
  - unfold Stop in Hnew. by case_bool_decide.
  - unfold loopRun in Hstep. case_bool_decide; [|done]. eauto.
  - unfold loopReturn in Hstep. case_bool_decide; by simplify_eq.
  - unfold loopExit in Hstep. case_bool_decide; by simplify_eq.
Qed.

Lemma step_to_Stopped a p p' :
  step a p = Some p' -> status p <> Stopped -> status p' = Stopped ->
  exists i, a = LoopExit i /\ pcOf i p = Some Returned.
Proof.
  destruct a; simpl; intros Hstep Hold Hnew; simplify_eq; try done.
  - unfold StartHTTP in Hnew. by case_bool_decide.
  - unfold StartHTTPS in Hnew. case_bool_decide; [done|].
    by destruct (TLSConfig_ (server (srv p))).
  - unfold Stop in Hnew. by case_bool_decide.
  - unfold loopRun in Hstep. case_bool_decide; by simplify_eq.
  - unfold loopReturn in Hstep. case_bool_decide; by simplify_eq.
  - unfold loopExit in Hstep. case_bool_decide; [|done]. eauto.
Qed.

(** C4: [StartHTTP] and [StartHTTPS] return the already-active error exactly
    when the status is not [Stopped], and then change nothing; [StartHTTPS]
    also fails, changing nothing, without TLS material; an accepted start
    sets [Starting], starts one goroutine and returns [nil]; [Running] and
    the return to [Stopped] are steps of that goroutine, and of no call. *)
Theorem Start_is_guarded_and_asynchronous p :
  ((StartHTTP p).1
     = Some ("api server is already running (or starting) on: " +:+ Endpoint (srv p))
   <-> status p <> Stopped)
  /\ (is_Some (StartHTTP p).1 <-> status p <> Stopped)
  /\ ((StartHTTPS p).1 = Some ("api server is already running on: " +:+ Endpoint (srv p))
      <-> status p <> Stopped)
  /\ (status p <> Stopped -> (StartHTTP p).2 = p /\ (StartHTTPS p).2 = p)
  /\ (status p = Stopped -> TLSConfig_ (server (srv p)) = None ->
      StartHTTPS p
      = (Some "https api server can not start without SSL certificate and private key", p))
  /\ (status p = Stopped ->
      StartHTTP p = (None, setStatus Starting (spawn HTTP p))
      /\ status (StartHTTP p).2 = Starting
      /\ loops (StartHTTP p).2 = loops p ++ [{| protocol := HTTP; pc := Spawned |}])
  /\ (status p = Stopped -> is_Some (TLSConfig_ (server (srv p))) ->
      StartHTTPS p = (None, setStatus Starting (spawn HTTPS p))
      /\ status (StartHTTPS p).2 = Starting
      /\ loops (StartHTTPS p).2 = loops p ++ [{| protocol := HTTPS; pc := Spawned |}])
  /\ (forall (proto : Protocol) (e : option string),
        exists p2 p3 p4,
          loopRun (length (loops p)) (setStatus Starting (spawn proto p)) = Some p2
          /\ status p2 = Running
          /\ loopReturn (length (loops p)) e p2 = Some p3 /\ status p3 = Running
          /\ loopExit (length (loops p)) p3 = Some p4 /\ status p4 = Stopped)
  /\ (forall a p', step a p = Some p' -> status p <> Running -> status p' = Running ->
        exists i, a = LoopRun i /\ pcOf i p = Some Spawned)
  /\ (forall a p', step a p = Some p' -> status p <> Stopped -> status p' = Stopped ->
        exists i, a = LoopExit i /\ pcOf i p = Some Returned).
Proof.
  split_and!.
  - unfold StartHTTP. case_bool_decide; simpl; split; done.
  - unfold StartHTTP.
    case_bool_decide; simpl; split; first [done | by eexists | by intros [? ?]].
  - unfold StartHTTPS. case_bool_decide; simpl; [done|].
    destruct (TLSConfig_ (server (srv p))); simpl; split; done.
  - intros Hst. unfold StartHTTP, StartHTTPS. by rewrite !bool_decide_eq_true_2.
  - intros Hst Htls. unfold StartHTTPS.
    rewrite bool_decide_eq_false_2, Htls; [done|]. by intros ?.
  - intros Hst. unfold StartHTTP.
    rewrite bool_decide_eq_false_2; [done|]. by intros ?.
  - intros Hst [c Htls]. unfold StartHTTPS.
    rewrite bool_decide_eq_false_2, Htls; [done|]. by intros ?.
  - intros proto e. apply accept_loop_transitions.
  - intros a p'. apply step_to_Running.
  - intros a p'. apply step_to_Stopped.
Qed.

(** C5: [Stop] returns the already-stopped error exactly when the status is
    [Stopped]; it never writes the status (nor anything else of the server);
    when accepted it calls [Shutdown] with the server's timeout and returns
    [nil]; the status only becomes [Stopped] in the last block of an accept
    loop. *)
Theorem Stop_only_requests p :
  ((Stop p).1
     = Some ("api server is already stopped and not listening on: " +:+ Endpoint (srv p))
   <-> status p = Stopped)
  /\ (is_Some (Stop p).1 <-> status p = Stopped)
  /\ status (Stop p).2 = status p
  /\ srv (Stop p).2 = srv p
  /\ loops (Stop p).2 = loops p
  /\ (status p = Stopped -> (Stop p).2 = p)
  /\ (status p <> Stopped ->
      (Stop p).1 = None
      /\ events (Stop p).2 = events p ++ [ShutdownCalled (shutdownTimeout (srv p))])
  /\ (forall a p', step a p = Some p' -> status p <> Stopped -> status p' = Stopped ->
        exists i, a = LoopExit i /\ pcOf i p = Some Returned).
Proof.
  unfold Stop. split_and!.
  - case_bool_decide; simpl; split; done.
  - case_bool_decide; simpl; split; first [done | by eexists | by intros [? ?]].
  - by case_bool_decide.
  - by case_bool_decide.
  - by case_bool_decide.
  - intros Hst. by rewrite bool_decide_eq_true_2.
  - intros Hst. by rewrite bool_decide_eq_false_2.
  - intros a p'. apply step_to_Stopped.
Qed.

Lemma Endpoint_step a p p' :
  step a p = Some p' -> Endpoint (srv p') = Endpoint (srv p).
Proof.
  destruct a; simpl; intros Hstep; simplify_eq; try done.
  - unfold StartHTTP. by case_bool_decide.
  - unfold StartHTTPS. case_bool_decide; [done|].
    by destruct (TLSConfig_ (server (srv p))).
  - unfold Stop. by case_bool_decide.
  - unfold loopRun in Hstep. case_bool_decide; by simplify_eq.
  - unfold loopReturn in Hstep. case_bool_decide; by simplify_eq.
  - unfold loopExit in Hstep. case_bool_decide; by simplify_eq.
Qed.

Lemma Endpoint_steps (l : list Step) p p' :
  steps l p = Some p' -> Endpoint (srv p') = Endpoint (srv p).
Proof.
  revert p. induction l as [|a l IH]; simpl; intros p Hrun; [by simplify_eq|].
  destruct (step a p) as [p1|] eqn:Hstep; [|done]. simpl in Hrun.
  rewrite (IH _ Hrun). by eapply Endpoint_step.
Qed.

(** C10: [Endpoint] is ["http://"] followed by the bind address, whatever
    the state and the configuration of the server: also with TLS material,
    also when the start was accepted by [StartHTTPS], and after any run of
    steps. *)
Theorem Endpoint_is_always_http p :
  Endpoint (srv p) = "http://" +:+ Addr (server (srv p))
  /\ (forall c, TLSConfig_ (server (srv p)) = Some c ->
        Endpoint (srv p) = "http://" +:+ Addr (server (srv p)))
  /\ ((StartHTTPS p).1 = None ->
      Endpoint (srv (StartHTTPS p).2) = "http://" +:+ Addr (server (srv p)))
  /\ (forall (l : list Step) p', steps l p = Some p' ->
        Endpoint (srv p') = "http://" +:+ Addr (server (srv p))).
Proof.
  split_and!; try done.
  - intros _. unfold StartHTTPS. case_bool_decide; [done|].
    by destruct (TLSConfig_ (server (srv p))).
  - intros l p' Hrun. by rewrite (Endpoint_steps _ _ _ Hrun).
Qed.

End Lifecycle.

(** ** The gatekeeper *)

Section Gatekeeper.
Context {App : Type}.
Implicit Types (g : serviceGatekeeper App) (r : Request) (s : Run App).

(** What a rejecting gatekeeper sends to the response writer. *)
Lemma bodyWritten_reject (code : Z) (ct msg : string) :
  bodyWritten
    ([RwHeaderSet "Content-Type" ct; RwWriteHeader code]
       ++ (if bool_decide (0 < String.length msg) then [RwWrite msg] else []))
  = msg.
Proof.
  case_bool_decide as Hlen; simpl.
  - clear Hlen. induction msg as [|c msg IH]; [done|].
    change (String c (msg +:+ "") = String c msg). by f_equal.
  - destruct msg; [done|]. simpl in Hlen. lia.
Qed.

(** C6: a gatekeeper whose predicate answers false never calls [next]
    (whatever [next] is) and sends the response writer exactly the configured
    content type, status code and body; one whose predicate answers true
    calls [next] exactly once and does nothing itself. *)
Theorem gatekeeper_rejects_or_delegates g r (next : Request -> Run App -> Run App) s :
  (gatekeeper g r (app (world s)) = false ->
   nextCalls (serviceGatekeeper_ServeHTTP g r) next s = 0
   /\ ownEffects (serviceGatekeeper_ServeHTTP g r) next s
      = [LogEff {| level := LWarn;
                   text := "api request is not accepted: " +:+ logMessage g |};
         HeaderSet "Content-Type" (contentType g);
         WriteHeader (responseCode g)]
        ++ (if bool_decide (0 < String.length (responseMessage g))
            then [Write (responseMessage g)] else [])
   /\ rw (world (exec (serviceGatekeeper_ServeHTTP g r) next s))
      = rw (world s)
        ++ ([RwHeaderSet "Content-Type" (contentType g); RwWriteHeader (responseCode g)]
            ++ (if bool_decide (0 < String.length (responseMessage g))
                then [RwWrite (responseMessage g)] else []))
   /\ bodyWritten
        ([RwHeaderSet "Content-Type" (contentType g); RwWriteHeader (responseCode g)]
           ++ (if bool_decide (0 < String.length (responseMessage g))
               then [RwWrite (responseMessage g)] else []))
      = responseMessage g
   /\ app (world (exec (serviceGatekeeper_ServeHTTP g r) next s)) = app (world s)
   /\ entered (exec (serviceGatekeeper_ServeHTTP g r) next s) = entered s)
  /\ (gatekeeper g r (app (world s)) = true ->
      nextCalls (serviceGatekeeper_ServeHTTP g r) next s = 1
      /\ ownEffects (serviceGatekeeper_ServeHTTP g r) next s = []
      /\ exec (serviceGatekeeper_ServeHTTP g r) next s = next r s).
Proof.
  unfold serviceGatekeeper_ServeHTTP, Branch. split; intros Hgk.
  - split_and!; [| | | apply bodyWritten_reject | |];
      simpl; rewrite Hgk; simpl; case_bool_decide; simpl;
      rewrite <- ?app_assoc; done.
  - simpl. by rewrite Hgk.
Qed.

(** The configuration a gatekeeper is built with: the defaults of
    [NewServiceGatekeeper], then the options in the order given. *)
Lemma NewServiceGatekeeper_defaults (gk : ServiceGatekeeper App) :
  NewServiceGatekeeper gk []
  = ({| gatekeeper := gk; responseCode := 503; contentType := "";
        responseMessage := ""; logMessage := "service is not available" |}, []).
Proof. done. Qed.

Lemma NewServiceGatekeeper_snoc (gk : ServiceGatekeeper App)
    (options : list (ServiceGatekeeperOpt App)) (opt : ServiceGatekeeperOpt App) :
  NewServiceGatekeeper gk (options ++ [opt]) = opt (NewServiceGatekeeper gk options).
Proof. unfold NewServiceGatekeeper. by rewrite foldl_snoc. Qed.

End Gatekeeper.

(** ** Normalizing the routes *)

Section UpdateRoutes.
Context {App : Type}.
Implicit Types (routes : list (Route App)) (r : Route App).

Lemma sliceAll_same (s : Slice) : sliceAll s = s.
Proof. destruct s as [a o l c]. unfold sliceAll; simpl. f_equal; lia. Qed.

Lemma updateRoute_lookup routes (routes2 : list (Route App)) (i j : nat) :
  updateRoute routes routes2 i !! j
  = if decide (i = j)
    then match routes !! i with
         | Some ri =>
             (fun r2 =>
                setExclude (Exclude ri)
                  (setInclude (Include ri)
                     (if String.eqb (Method ri) "" then setMethod MethodGet r2 else r2)))
               <$> routes2 !! i
         | None => routes2 !! i
         end
    else routes2 !! j.
Proof.
  unfold updateRoute. destruct (routes !! i) as [ri|]; [|by case_decide; subst].
  rewrite !sliceAll_same.
  destruct (decide (i = j)) as [<-|Hne].
  - rewrite !list_lookup_alter_eq.
    destruct (String.eqb (Method ri) ""); [rewrite list_lookup_alter_eq|];
      by destruct (routes2 !! i).
  - rewrite !list_lookup_alter_ne by done.
    destruct (String.eqb (Method ri) ""); [by rewrite list_lookup_alter_ne | done].
Qed.

Lemma updateRoutes_loop_lookup routes (routes2 : list (Route App)) (a n j : nat) :
  (forall i, a <= i < a + n -> routes2 !! i = routes !! i) ->
  foldl (updateRoute routes) routes2 (seq a n) !! j
  = if decide (a <= j < a + n) then specNormalized <$> routes !! j else routes2 !! j.
Proof.
  revert a routes2. induction n as [|n IH]; intros a routes2 Hsame; simpl.
  - case_decide; [lia | done].
  - rewrite IH.
    + rewrite updateRoute_lookup. rewrite (Hsame a) by lia.
      repeat case_decide; try lia; subst; try done.
      destruct (routes !! j) as [[nm m pa ha inc exc]|]; [|done]. simpl.
      unfold specNormalized, setExclude, setInclude, setMethod. simpl.
      by destruct (String.eqb m "").
    + intros i Hi. rewrite updateRoute_lookup.
      case_decide; [lia|]. apply Hsame. lia.
Qed.

Lemma updateRoutes_fmap routes : updateRoutes routes = specNormalized <$> routes.
Proof.
  apply list_eq. intros j. unfold updateRoutes.
  rewrite updateRoutes_loop_lookup by done.
  rewrite list_lookup_fmap. case_decide; [done|].
  rewrite (lookup_ge_None_2 routes j) by lia. done.
Qed.

(** C7: normalization gives every route of the table the method GET when
    its method is empty and its own method otherwise, and keeps its name,
    path and handler; no route is added or dropped. *)
Theorem updateRoutes_defaults_method routes (i : nat) r :
  routes !! i = Some r ->
  length (updateRoutes routes) = length routes
  /\ exists r2,
       updateRoutes routes !! i = Some r2
       /\ (Method r = "" -> Method r2 = "GET")
       /\ (Method r <> "" -> Method r2 = Method r)
       /\ Name r2 = Name r /\ Path r2 = Path r /\ Handler r2 = Handler r.
Proof.
  intros Hr. rewrite updateRoutes_fmap. split; [by rewrite length_fmap|].
  exists (specNormalized r). rewrite list_lookup_fmap, Hr. split_and!; try done.
  - intros Hm. unfold specNormalized; simpl. by rewrite Hm.
  - intros Hm. unfold specNormalized; simpl.
    destruct (String.eqb_spec (Method r) ""); done.
Qed.

(** The lists of a normalized route are the caller's own slices: the same
    backing array at the same offset, so a write through the caller's slice
    shows in the normalized route. *)
Lemma updateRoutes_keeps_slices routes (i : nat) r :
  routes !! i = Some r ->
  exists r2,
    updateRoutes routes !! i = Some r2
    /\ Include r2 = Include r /\ Exclude r2 = Exclude r.
Proof.
  intros Hr. exists (specNormalized r).
  by rewrite updateRoutes_fmap, list_lookup_fmap, Hr.
Qed.

Lemma elems_setElem (h h' : Store) (s : Slice) (j : nat) (v : string) :
  setElem h s j v = Ok h' -> elems h' s = <[j := v]> (elems h s).
Proof.
  unfold setElem. case_decide as Hj; [|done]. intros [= <-].
  unfold elems. rewrite lookup_alter_eq.
  destruct (h !! arr s) as [a|]; simpl.
  - rewrite drop_insert_ge by lia. rewrite take_insert_lt by lia.
    f_equal. lia.
  - by rewrite drop_nil, take_nil.
Qed.

End UpdateRoutes.

Lemma updateRoutes_defaults_method_witness :
  [ {| Name := "GetData"; Method := ""; Path := "getdata";
       Handler := sampleHandler "data"; Include := nilSlice; Exclude := nilSlice |} ]
    !! 0 = Some {| Name := "GetData"; Method := ""; Path := "getdata";
                   Handler := sampleHandler "data"; Include := nilSlice;
                   Exclude := nilSlice |}
  /\ exists r2,
       updateRoutes
         [ {| Name := "GetData"; Method := ""; Path := "getdata";
              Handler := sampleHandler "data"; Include := nilSlice;
              Exclude := nilSlice |} ] !! 0 = Some r2
       /\ Method r2 = "GET".
Proof.
  split; [reflexivity|].
  destruct (updateRoutes_defaults_method
              [ {| Name := "GetData"; Method := ""; Path := "getdata";
                   Handler := sampleHandler "data"; Include := nilSlice;
                   Exclude := nilSlice |} ] 0 _ eq_refl)
    as [_ [r2 (Hl & Hget & _)]].
  exists r2. split; [exact Hl | apply Hget; reflexivity].
Defined.

(** C2 (the code does otherwise): [updateRoutes] re-slices the caller's
    [Include] with [[:]], which keeps the backing array. Here the caller
    overwrites element 0 of its own slice after normalization, and the
    normalized route reads the new value. *)
Example updateRoutes_aliases_caller_slices :
  let h0 : Store := {[ 7 := ["auth"; "audit"] ]} in
  let r : Route Marks :=
    {| Name := "GetData"; Method := "GET"; Path := "getdata";
       Handler := sampleHandler "data";
       Include := {| arr := 7; off := 0; len := 2; cap := 2 |};
       Exclude := nilSlice |} in
  exists r2 h1,
    updateRoutes [r] !! 0 = Some r2
    /\ elems h0 (Include r2) = ["auth"; "audit"]
    /\ setElem h0 (Include r) 0 "other" = Ok h1
    /\ elems h1 (Include r2) = ["other"; "audit"].
Proof.
  eexists _, _. split_and!; [reflexivity | reflexivity | reflexivity |].
  by vm_compute.
Qed.

(** A copy into an array of its own would not have been touched. *)
Example cloneSlice_is_private :
  let h0 : Store := {[ 7 := ["auth"; "audit"] ]} in
  let s := {| arr := 7; off := 0; len := 2; cap := 2 |} in
  exists h1,
    setElem (cloneSlice h0 8 s).1 s 0 "other" = Ok h1
    /\ elems h1 (cloneSlice h0 8 s).2 = ["auth"; "audit"].
Proof. eexists. split; [reflexivity | by vm_compute]. Qed.

(** ** The chain of a route *)

Section RouteChain.
Context {App : Type}.
Implicit Types (f : gorillaMuxFactory App) (route : Route App).

Lemma excluded_loop (m0 : gmap string unit) (exclude : list string) (name : string) :
  foldl (fun excluded n => <[n := tt]> excluded) m0 exclude !! name = None
  <-> m0 !! name = None /\ name ∉ exclude.
Proof.
  revert m0. induction exclude as [|x exclude IH]; intros m0; simpl.
  - split; [intros ?; split; [done | apply not_elem_of_nil] | by intros [? _]].
  - rewrite IH, lookup_insert_None, not_elem_of_cons. intuition congruence.
Qed.

Lemma excludedOf_None (exclude : list string) (name : string) :
  excludedOf exclude !! name = None <-> name ∉ exclude.
Proof.
  unfold excludedOf. rewrite excluded_loop, lookup_empty. tauto.
Qed.

Lemma addDefaults_loop (exclude : list string) (l : list (string * Middleware App))
    (acc : Negroni App) :
  foldl (fun mws '(name, middleware) =>
           match excludedOf exclude !! name with
           | None => mws ++ [Registered TDefault name middleware]
           | Some _ => mws
           end) acc l
  = acc ++ ((fun e => Registered TDefault e.1 e.2)
              <$> filter (fun e => e.1 ∉ exclude) l).
Proof.
  revert acc. induction l as [|[name mw] l IH]; intros acc; simpl.
  - by rewrite app_nil_r.
  - rewrite IH, filter_cons. simpl.
    destruct (excludedOf exclude !! name) as [[]|] eqn:Hex.
    + rewrite decide_False; [done|].
      intros Hnot. apply excludedOf_None in Hnot. congruence.
    + rewrite decide_True by by apply excludedOf_None.
      by rewrite fmap_cons, <- app_assoc.
Qed.

Lemma addDefaults_spec (o : RangeOrder) (site : RangeSite) f (exclude : list string)
    (acc : Negroni App) :
  addDefaults o site f (excludedOf exclude) acc = acc ++ specDefaults o site f exclude.
Proof. apply addDefaults_loop. Qed.

Lemma addRequested_spec f (exclude : list string) (mws : Negroni App)
    (out : list LogLine) (name : string) :
  addRequested f (excludedOf exclude) (mws, out) name
  = (mws ++ specRequested f exclude [name], out ++ specLogged f exclude [name]).
Proof.
  unfold addRequested, specRequested, specLogged, specVerdict. simpl.
  destruct (excludedOf exclude !! name) as [[]|] eqn:Hex.
  - rewrite decide_True; [by rewrite app_nil_r|].
    destruct (decide (name ∈ exclude)) as [|Hnot]; [done|].
    apply excludedOf_None in Hnot. congruence.
  - rewrite decide_False by by apply excludedOf_None.
    destruct (always f !! name) as [a|] eqn:Ha.
    { rewrite decide_True by by eexists. by rewrite app_nil_r. }
    rewrite decide_False by by intros [? ?].
    destruct (defaults f !! name) as [d|] eqn:Hd.
    { rewrite decide_True by by eexists. by rewrite app_nil_r. }
    rewrite decide_False by by intros [? ?].
    destruct (available f !! name) as [mw|]; simpl; by rewrite app_nil_r.
Qed.

Lemma specRequested_cons f (exclude : list string) (name : string) (include : list string) :
  specRequested f exclude (name :: include)
  = specRequested f exclude [name] ++ specRequested f exclude include.
Proof.
  unfold specRequested. simpl.
  by destruct (specVerdict f exclude name).
Qed.

Lemma specLogged_cons f (exclude : list string) (name : string) (include : list string) :
  specLogged f exclude (name :: include)
  = specLogged f exclude [name] ++ specLogged f exclude include.
Proof.
  unfold specLogged. simpl.
  by destruct (specVerdict f exclude name).
Qed.

Lemma addRequested_loop f (exclude include : list string) (mws : Negroni App)
    (out : list LogLine) :
  foldl (addRequested f (excludedOf exclude)) (mws, out) include
  = (mws ++ specRequested f exclude include, out ++ specLogged f exclude include).
Proof.
  revert mws out. induction include as [|name include IH]; intros mws out.
  - simpl. by rewrite !app_nil_r.
  - cbn [foldl]. rewrite addRequested_spec, IH.
    rewrite (specRequested_cons f exclude name include).
    rewrite (specLogged_cons f exclude name include).
    by rewrite !app_assoc.
Qed.

(** The slice [middlewares] is the chain the specification describes,
    closed by the route's own subrouter; the lines logged are one per name
    that was skipped. *)
Lemma middlewaresOf_spec (o : RangeOrder) (site : RangeSite) (h : Store) f route
    (leafs : list (MuxRoute (HandlerFunc App))) (out : list LogLine) :
  middlewaresOf o site h f route leafs out
  = (specDefaults o site f (elems h (Exclude route))
       ++ specRequested f (elems h (Exclude route)) (elems h (Include route))
       ++ [WrapSubrouter leafs],
     out ++ specLogged f (elems h (Exclude route)) (elems h (Include route))).
Proof.
  unfold middlewaresOf. rewrite addDefaults_spec, addRequested_loop. simpl.
  by rewrite <- app_assoc.
Qed.

(** A name of the exclude list names no handler of the chain. *)
Lemma excluded_not_in_chain f (o : RangeOrder) (site : RangeSite)
    (exclude include : list string) (name : string) :
  name ∈ exclude ->
  Some name
    ∉ nameOf <$> (specDefaults o site f exclude ++ specRequested f exclude include).
Proof.
  intros Hex Hin. rewrite fmap_app in Hin. apply elem_of_app in Hin as [Hin|Hin].
  - unfold specDefaults in Hin. rewrite <- list_fmap_compose in Hin.
    apply list_elem_of_fmap in Hin as [[n mw] [Heq Hin]]. simpl in Heq.
    injection Heq as ->. apply list_elem_of_filter in Hin as [Hnot _]. done.
  - unfold specRequested in Hin.
    apply list_elem_of_fmap in Hin as [x [Heq Hin]].
    apply list_elem_of_omap in Hin as [n [_ Hn]].
    unfold specVerdict in Hn.
    destruct (decide (n ∈ exclude)) as [Hn'|Hn']; [done|].
    repeat case_decide; try done.
    destruct (available f !! n); [|done].
    injection Hn as <-. simpl in Heq. by injection Heq as ->.
Qed.

End RouteChain.

(** ** What [Make] builds *)

Section MakeBuilds.
Context {App : Type}.
Implicit Types (f : gorillaMuxFactory App) (route : Route App)
  (routeMap : gmap string (list (Route App))).

Lemma registerRoute_spec (o : RangeOrder) (h : Store) f (urlPrefix prefixTpl : string)
    (top : list (MuxRoute (TopTarget App)))
    (proutes : list (MuxRoute (PrefixTarget App))) (out : list LogLine) (i : nat) route :
  registerRoute o h f (alwaysChain o f) urlPrefix prefixTpl (top, proutes, out, i) route
  = (top ++ fileRoutesOf route,
     proutes ++ prefixRoutesOf o h f urlPrefix prefixTpl i route,
     out ++ loggedOf h f route,
     S i).
Proof.
  unfold registerRoute, prefixRoutesOf, fileRoutesOf, loggedOf.
  destruct (subrouterOf prefixTpl route) as [[subTpl subErr] leafs].
  rewrite !middlewaresOf_spec.
  destruct (addRegexpMatcher prefixTpl ("/" +:+ Path route)) as [routeTpl routeErr].
  destruct (addRegexpMatcher "" "/api/") as [apiTpl apiErr]. simpl.
  destruct (String.eqb (Name route) "Apis");
    by rewrite <- ?app_assoc, ?app_nil_r.
Qed.

Lemma registerRoute_loop (o : RangeOrder) (h : Store) f (urlPrefix prefixTpl : string)
    (routes : list (Route App)) (top : list (MuxRoute (TopTarget App)))
    (proutes : list (MuxRoute (PrefixTarget App))) (out : list LogLine) (i : nat) :
  foldl (registerRoute o h f (alwaysChain o f) urlPrefix prefixTpl)
        (top, proutes, out, i) routes
  = (top ++ (routes ≫= fileRoutesOf),
     proutes
       ++ mjoin (imap (fun j => prefixRoutesOf o h f urlPrefix prefixTpl (i + j)) routes),
     out ++ (routes ≫= loggedOf h f),
     i + length routes).
Proof.
  revert top proutes out i.
  induction routes as [|route routes IH]; intros top proutes out i.
  - simpl. by rewrite !app_nil_r, Nat.add_0_r.
  - cbn [foldl]. rewrite registerRoute_spec, IH.
    rewrite !bind_cons, imap_cons. cbn [mjoin list_join length].
    assert (imap (fun j => prefixRoutesOf o h f urlPrefix prefixTpl (S i + j)) routes
            = imap ((fun j => prefixRoutesOf o h f urlPrefix prefixTpl (i + j)) ∘ S)
                routes) as ->.
    { apply imap_ext. intros j x _. simpl. by rewrite Nat.add_succ_r. }
    by rewrite Nat.add_0_r, <- !app_assoc, Nat.add_succ_r.
Qed.

Lemma registerPrefix_spec (o : RangeOrder) (h : Store) f (st : Building App)
    (entry : string * list (Route App)) :
  registerPrefix o h f (alwaysChain o f) st entry
  = {| bTop := bTop st ++ topRoutesOf o f entry;
       bSubs := <[entry.1 := prefixRouterOf o h f entry.1 entry.2]> (bSubs st);
       bNotFound := Some (alwaysChain o f ++ [WrapFunc NotFoundHandler]);
       bLog := bLog st ++ (updateRoutes entry.2 ≫= loggedOf h f) |}.
Proof.
  destruct entry as [urlPrefix routes].
  unfold registerPrefix, topRoutesOf, prefixRouterOf, listingRoute. cbn [fst snd].
  destruct (addRegexpMatcher "" ("/" +:+ urlPrefix)) as [prefixTpl prefixErr].
  cbn [fst snd].
  destruct (addRegexpMatcher prefixTpl "/") as [listTpl listErr].
  destruct (addRegexpMatcher "" urlPrefix) as [pathTpl pathErr].
  rewrite registerRoute_loop. cbn [fst snd].
  by rewrite <- !app_assoc.
Qed.

Lemma registerPrefix_loop (o : RangeOrder) (h : Store) f
    (l : list (string * list (Route App))) (st : Building App) :
  let st' := foldl (registerPrefix o h f (alwaysChain o f)) st l in
  bTop st' = bTop st ++ (l ≫= topRoutesOf o f)
  /\ bLog st' = bLog st ++ (l ≫= fun entry => updateRoutes entry.2 ≫= loggedOf h f)
  /\ bNotFound st'
     = match l with
       | [] => bNotFound st
       | _ => Some (alwaysChain o f ++ [WrapFunc NotFoundHandler])
       end
  /\ (forall key,
        bSubs st' !! key
        = match list_to_map (M := gmap string (list (Route App))) (reverse l) !! key with
          | Some routes => Some (prefixRouterOf o h f key routes)
          | None => bSubs st !! key
          end).
Proof.
  revert st. induction l as [|entry l IH]; intros st.
  - simpl. rewrite !app_nil_r.
    split_and!; try done; intros key; by rewrite lookup_empty.
  - cbn [foldl]. rewrite registerPrefix_spec.
    destruct (IH {| bTop := bTop st ++ topRoutesOf o f entry;
                    bSubs := <[entry.1 := prefixRouterOf o h f entry.1 entry.2]> (bSubs st);
                    bNotFound := Some (alwaysChain o f ++ [WrapFunc NotFoundHandler]);
                    bLog := bLog st ++ (updateRoutes entry.2 ≫= loggedOf h f) |})
      as (Htop & Hlog & Hnf & Hsubs).
    cbn [bTop bSubs bNotFound bLog] in Htop, Hlog, Hnf, Hsubs. cbn zeta.
    split_and!.
    + by rewrite Htop, <- app_assoc.
    + by rewrite Hlog, <- app_assoc.
    + rewrite Hnf. by destruct l.
    + intros key. rewrite Hsubs, reverse_cons, list_to_map_app. simpl.
      rewrite lookup_union.
      destruct (list_to_map (reverse l) !! key) as [routes|] eqn:Hl; simpl.
      * by rewrite union_Some_l.
      * rewrite (left_id None _). rewrite insert_empty.
        destruct (decide (entry.1 = key)) as [<-|Hne].
        -- by rewrite !lookup_insert_eq, lookup_singleton_eq.
        -- by rewrite lookup_insert_ne, lookup_singleton_ne.
Qed.

Lemma rangeOf_list_to_map (o : RangeOrder) (site : RangeSite) {V : Type}
    (m : gmap string V) :
  list_to_map (reverse (rangeOf o site m)) = m.
Proof.
  assert (reverse (rangeOf o site m) ≡ₚ map_to_list m) as Hp.
  { rewrite reverse_Permutation. apply rangeOf_perm. }
  rewrite <- (list_to_map_to_list m) at 2.
  apply list_to_map_proper; [|done].
  rewrite Hp. apply NoDup_fst_map_to_list.
Qed.

(** The handler of [Make], part by part. *)
Lemma Make_spec (o : RangeOrder) (h : Store) f routeMap :
  topRoutes (made (Make o h f routeMap))
  = rangeOf o OverRouteMap routeMap ≫= topRoutesOf o f
  /\ madeLog (Make o h f routeMap)
     = (rangeOf o OverRouteMap routeMap
          ≫= fun entry => updateRoutes entry.2 ≫= loggedOf h f)
  /\ NotFoundHandler_ (made (Make o h f routeMap))
     = match rangeOf o OverRouteMap routeMap with
       | [] => None
       | _ => Some (alwaysChain o f ++ [WrapFunc NotFoundHandler])
       end
  /\ (forall key,
        subrouters (made (Make o h f routeMap)) !! key
        = prefixRouterOf o h f key <$> routeMap !! key)
  /\ madeErr (Make o h f routeMap) = None.
Proof.
  unfold Make. simpl.
  destruct (registerPrefix_loop o h f (rangeOf o OverRouteMap routeMap)
              {| bTop := []; bSubs := ∅; bNotFound := None; bLog := [] |})
    as (Htop & Hlog & Hnf & Hsubs).
  simpl in *. split_and!; try done.
  intros key. rewrite Hsubs, rangeOf_list_to_map, lookup_empty.
  by destruct (routeMap !! key).
Qed.

End MakeBuilds.

(** ** Running a chain *)

Section RunChain.
Context {App : Type}.
Implicit Types (n : Negroni App) (s : Run App) (p : Prog App)
  (next final : Request -> Run App -> Run App).

Lemma exec_keepsEntered p next s (x : Tier * string) :
  keepsEntered next -> x ∈ entered s -> x ∈ entered (exec p next s).
Proof.
  intros Hnext. revert s.
  induction p as [|e k IH|r k IH|k IH]; intros s Hx; simpl; auto.
Qed.

Lemma runChainThen_keepsEntered (env : MuxEnv App) n final :
  keepsEntered final -> keepsEntered (runChainThen env n final).
Proof.
  intros Hfinal. induction n as [|[t name mw|hf|leafs] n IH]; intros r s x Hx; simpl.
  - by apply Hfinal.
  - apply exec_keepsEntered; [done|]. simpl. apply elem_of_app. by left.
  - by apply IH.
  - by apply IH.
Qed.

Lemma exec_delegating p next s (x : Tier * string) :
  delegating p -> keepsEntered next ->
  (forall r s', x ∈ entered (next r s')) ->
  x ∈ entered (exec p next s).
Proof.
  intros Hp Hkeep Hnext. revert s Hp.
  induction p as [|e k IH|r k IH|k IH]; intros s Hp; simpl in *.
  - done.
  - by apply IH.
  - by apply exec_keepsEntered.
  - by apply IH.
Qed.

(** A registered middleware is entered when the ones ahead of it in the
    chain all yield. *)
Lemma runChainThen_enters (env : MuxEnv App) (pre post : Negroni App)
    (t : Tier) (name : string) (mw : Middleware App) final (req : Request) s :
  allDelegating pre -> keepsEntered final ->
  (t, name) ∈ entered (runChainThen env (pre ++ Registered t name mw :: post) final req s).
Proof.
  intros Hpre Hfinal. revert req s.
  induction Hpre as [|x pre Hx Hpre IH]; intros req s; simpl.
  - apply exec_keepsEntered; [by apply runChainThen_keepsEntered|].
    simpl. apply elem_of_app. right. apply list_elem_of_singleton. done.
  - destruct x as [t' name' mw'|hf|leafs]; auto.
    apply exec_delegating; auto. by apply runChainThen_keepsEntered.
Qed.

Lemma alwaysChain_fmap (o : RangeOrder) (f : gorillaMuxFactory App) :
  alwaysChain o f
  = (fun e => Registered TAlways e.1 e.2) <$> rangeOf o OverAlways (always f).
Proof.
  unfold alwaysChain.
  assert (forall l acc,
            foldl (fun hs '(name, middleware) => hs ++ [Registered TAlways name middleware])
                  acc l
            = acc ++ ((fun e : string * Middleware App => Registered TAlways e.1 e.2) <$> l))
    as Hloop.
  { induction l as [|[name mw] l IH]; intros acc; simpl.
    - by rewrite app_nil_r.
    - by rewrite IH, <- app_assoc. }
  apply Hloop.
Qed.

Lemma alwaysChain_elem (o : RangeOrder) (f : gorillaMuxFactory App) (x : NegroniHandler App) :
  x ∈ alwaysChain o f
  <-> exists name mw, x = Registered TAlways name mw /\ always f !! name = Some mw.
Proof.
  rewrite alwaysChain_fmap, list_elem_of_fmap. split.
  - intros [[name mw] [-> Hin]]. exists name, mw. split; [done|].
    rewrite (rangeOf_perm o) in Hin. by apply elem_of_map_to_list in Hin.
  - intros (name & mw & -> & Hl). exists (name, mw). split; [done|].
    rewrite (rangeOf_perm o). by apply elem_of_map_to_list.
Qed.

Lemma always_prefix_enters (env : MuxEnv App) (l : list (string * Middleware App))
    (rest : Negroni App) final (req : Request) s (name : string) (mw : Middleware App) :
  NoDup l.*1 ->
  (name, mw) ∈ l ->
  (forall k m r, k <> name -> (k, m) ∈ l -> delegating (m r)) ->
  keepsEntered final ->
  (TAlways, name)
    ∈ entered (runChainThen env (((fun e => Registered TAlways e.1 e.2) <$> l) ++ rest)
                 final req s).
Proof.
  intros Hnodup Hin Hdel Hfinal. revert req s.
  induction l as [|[k m] l IH]; intros req s; [by apply elem_of_nil in Hin|].
  apply NoDup_cons in Hnodup as [Hk Hnodup]. simpl.
  apply elem_of_cons in Hin as [[= <- <-]|Hin].
  - apply exec_keepsEntered; [by apply runChainThen_keepsEntered|].
    simpl. apply elem_of_app. right. by apply list_elem_of_singleton.
  - assert (k <> name) as Hne.
    { intros ->. apply Hk. apply list_elem_of_fmap. by exists (name, mw). }
    apply exec_delegating.
    + apply (Hdel k m req Hne). apply elem_of_cons. by left.
    + by apply runChainThen_keepsEntered.
    + intros r s'. apply IH; [done..|].
      intros k' m' r' Hk' Hin'. apply (Hdel k' m' r' Hk'). apply elem_of_cons. by right.
Qed.

(** Every middleware of the always tier is entered by a chain that starts
    with the always chain, when the others of the always tier yield. *)
Lemma always_entered (o : RangeOrder) (env : MuxEnv App) (f : gorillaMuxFactory App)
    n final (req : Request) s (name : string) (mw : Middleware App) :
  startsWith (alwaysChain o f) n ->
  always f !! name = Some mw ->
  (forall k m r, k <> name -> always f !! k = Some m -> delegating (m r)) ->
  keepsEntered final ->
  (TAlways, name) ∈ entered (runChainThen env n final req s).
Proof.
  intros [rest ->] Hname Hdel Hfinal. rewrite alwaysChain_fmap.
  apply always_prefix_enters with (mw := mw); [| | |done].
  - rewrite (rangeOf_perm o). apply NoDup_fst_map_to_list.
  - rewrite (rangeOf_perm o). by apply elem_of_map_to_list.
  - intros k m r Hk Hin. apply (Hdel k m r Hk).
    rewrite (rangeOf_perm o) in Hin. by apply elem_of_map_to_list in Hin.
Qed.

End RunChain.

(** ** Where a request ends *)

Section Dispatch.
Context {App : Type}.
Implicit Types (f : gorillaMuxFactory App) (A n : Negroni App) (req : Request)
  (routeMap : gmap string (list (Route App))).

Lemma startsWith_app A (rest : Negroni App) : startsWith A (A ++ rest).
Proof. by exists rest. Qed.

Lemma matchPrefixRoutes_inside (env : MuxEnv App) A
    (routes : list (MuxRoute (PrefixTarget App))) req (x : Resolved App) :
  Forall (fun rt => forall n, target rt = PChain n -> startsWith A n) routes ->
  matchPrefixRoutes env routes req = Some x -> insideAlways A x.
Proof.
  induction 1 as [|rt routes Hrt Hroutes IH]; simpl; [done|].
  destruct (routeMatches env rt req); [|done].
  destruct (target rt) as [hf|leafs|n] eqn:Htarget.
  - by intros [= <-].
  - destruct (matchLeafs env leafs req); [by intros [= <-] | done].
  - intros [= <-]. simpl. by apply Hrt.
Qed.

Lemma resolvePrefix_inside (env : MuxEnv App) A (pr : PrefixRouter App) req
    (x : Resolved App) :
  wrappedRouter A pr -> resolvePrefix env pr req = Some x -> insideAlways A x.
Proof.
  intros [Hroutes Hnf]. unfold resolvePrefix.
  destruct (matchPrefixRoutes env (prRoutes pr) req) as [y|] eqn:Hm.
  - intros [= <-]. by eapply matchPrefixRoutes_inside.
  - destruct (prNotFound pr) as [n|]; [|done]. intros [= <-]. simpl. by apply Hnf.
Qed.

Lemma matchTopRoutes_inside (env : MuxEnv App) A (subs : gmap string (PrefixRouter App))
    (routes : list (MuxRoute (TopTarget App))) req (x : Resolved App) :
  (forall key pr, subs !! key = Some pr -> wrappedRouter A pr) ->
  Forall (fun rt => forall n key, target rt = TAlwaysWrap n key -> startsWith A n) routes ->
  matchTopRoutes env subs routes req = Some x -> insideAlways A x.
Proof.
  intros Hsubs. induction 1 as [|rt routes Hrt Hroutes IH]; simpl; [done|].
  destruct (routeMatches env rt req); [|done].
  destruct (target rt) as [key|n key|strip dir] eqn:Htarget.
  - destruct (subs !! key) as [pr|] eqn:Hpr; simpl; [|done].
    destruct (resolvePrefix env pr req) as [y|] eqn:Hy; [|done].
    intros [= <-]. eapply resolvePrefix_inside; [|done]. by eapply Hsubs.
  - intros [= <-]. simpl. by eapply Hrt.
  - by intros [= <-].
Qed.

Lemma prefixRouterOf_wrapped (o : RangeOrder) (h : Store) f (key : string)
    (routes : list (Route App)) :
  wrappedRouter (alwaysChain o f) (prefixRouterOf o h f key routes).
Proof.
  split; simpl.
  - apply Forall_cons. split; [done|].
    apply Forall_forall. intros rt Hrt.
    apply list_elem_of_join in Hrt as (pair & Hrt & Hpair).
    apply elem_of_lookup_imap in Hpair as (i & route & -> & _).
    unfold prefixRoutesOf in Hrt.
    destruct (subrouterOf _ route) as [[subTpl subErr] leafs].
    destruct (addRegexpMatcher _ ("/" +:+ Path route)) as [routeTpl routeErr].
    apply elem_of_cons in Hrt as [->|Hrt]; [done|].
    apply list_elem_of_singleton in Hrt as ->. simpl.
    intros n [= <-]. apply startsWith_app.
  - intros n [= <-]. apply startsWith_app.
Qed.

Lemma topRoutesOf_wrapped (o : RangeOrder) f (l : list (string * list (Route App))) :
  Forall (fun rt => forall n key,
            target rt = TAlwaysWrap n key -> startsWith (alwaysChain o f) n)
         (l ≫= topRoutesOf o f).
Proof.
  apply Forall_forall. intros rt Hrt.
  apply list_elem_of_bind in Hrt as (entry & Hrt & _).
  unfold topRoutesOf in Hrt. apply elem_of_app in Hrt as [Hrt|Hrt].
  - apply elem_of_cons in Hrt as [->|Hrt]; [done|].
    apply list_elem_of_singleton in Hrt as ->. simpl.
    intros n key [= <- _]. exists []. by rewrite app_nil_r.
  - apply list_elem_of_bind in Hrt as (route & Hrt & _).
    unfold fileRoutesOf in Hrt. destruct (String.eqb (Name route) "Apis").
    + by apply list_elem_of_singleton in Hrt as ->.
    + by apply elem_of_nil in Hrt.
Qed.

(** Whatever negroni chain the handler of [Make] hands a request to starts
    with the always chain. *)
Lemma resolve_inside (o : RangeOrder) (env : MuxEnv App) (h : Store) f routeMap req :
  insideAlways (alwaysChain o f) (resolve env (made (Make o h f routeMap)) req).
Proof.
  destruct (Make_spec o h f routeMap) as (Htop & _ & Hnf & Hsubs & _).
  unfold resolve.
  destruct (matchTopRoutes env _ _ req) as [x|] eqn:Hm.
  - eapply matchTopRoutes_inside; [| |exact Hm].
    + intros key pr Hpr. rewrite Hsubs in Hpr.
      destruct (routeMap !! key) as [routes|]; [|done].
      injection Hpr as <-. apply prefixRouterOf_wrapped.
    + rewrite Htop. apply topRoutesOf_wrapped.
  - rewrite Hnf. destruct (rangeOf o OverRouteMap routeMap); simpl; [done|].
    apply startsWith_app.
Qed.

End Dispatch.

(** ** The always tier *)

(** C1, as the code has it: for a request that the handler of [Make] hands
    to the chain of a route or to the not-found handler, the chain starts
    with the always chain, whatever the route includes or excludes; every
    middleware of the always tier is in it, and is entered provided the
    other middleware of the always tier yield to the rest of the chain. *)
Theorem always_tier_wraps_routes_and_not_found {App : Type}
    (o : RangeOrder) (env : MuxEnv App) (h : Store) (f : gorillaMuxFactory App)
    (routeMap : gmap string (list (Route App))) (req : Request) (s : Run App)
    (name : string) (mw : Middleware App) (chain : Negroni App) :
  always f !! name = Some mw ->
  resolve env (made (Make o h f routeMap)) req = RouteChain chain
  \/ resolve env (made (Make o h f routeMap)) req = NotFoundChain chain ->
  startsWith (alwaysChain o f) chain
  /\ Registered TAlways name mw ∈ chain
  /\ ((forall k m r, k <> name -> always f !! k = Some m -> delegating (m r)) ->
      (TAlways, name) ∈ entered (ServeHTTP env (made (Make o h f routeMap)) req s)).
Proof.
  intros Hname Hres.
  pose proof (resolve_inside o env h f routeMap req) as Hin.
  assert (startsWith (alwaysChain o f) chain) as Hstart.
  { destruct Hres as [Hres|Hres]; by rewrite Hres in Hin. }
  split_and!; [done| |].
  - destruct Hstart as [rest ->]. apply elem_of_app. left.
    apply alwaysChain_elem. eauto.
  - intros Hdel. unfold ServeHTTP.
    destruct Hres as [Hres|Hres]; rewrite Hres; unfold runChain;
      (eapply always_entered; [exact Hstart | exact Hname | exact Hdel |]);
      by intros r s' x.
Qed.

Lemma always_tier_wraps_routes_and_not_found_witness :
  (TAlways, "count")
    ∈ entered
        (ServeHTTP literalMux
           (made (Make keyOrder sampleStore
                    (Always "gate" sampleOpenGate
                       (Always "count" sampleCount emptyFactory))
                    sampleTable))
           (sampleRequest "GET" "/test/getdata") freshRun).
Proof.
  refine (proj2 (proj2
            (always_tier_wraps_routes_and_not_found keyOrder literalMux sampleStore
               (Always "gate" sampleOpenGate (Always "count" sampleCount emptyFactory))
               sampleTable
               (sampleRequest "GET" "/test/getdata") freshRun "count" sampleCount
               _ _ _)) _).
  - reflexivity.
  - left. reflexivity.
  - intros k m r Hne Hk. simpl in Hk.
    apply lookup_insert_Some in Hk as [[_ <-]|[_ Hk]]; [intros w; exact I|].
    apply lookup_insert_Some in Hk as [[Heq _]|[_ Hk]]; [by destruct Hne|].
    by rewrite lookup_empty in Hk.
Defined.

(** C1 as stated fails on the code, twice over. A request to the listing
    endpoint of a prefix goes to [APIListingHandler], which [Make] registers
    outside the always chain: no middleware runs. And on a route, a
    gatekeeper of the always tier that rejects the request keeps the
    middleware behind it in the always chain from running (here the range
    over the always tier visits the gatekeeper first). *)
Lemma always_tier_skipped_on_listing_and_after_rejection :
  (always (Always "count" sampleCount emptyFactory) !! "count" = Some sampleCount
   /\ resolve literalMux
        (made (Make keyOrder sampleStore (Always "count" sampleCount emptyFactory)
                 sampleTable))
        (sampleRequest "GET" "/test/")
      = PlainFunc APIListingHandler
   /\ ServeHTTP literalMux
        (made (Make keyOrder sampleStore (Always "count" sampleCount emptyFactory)
                 sampleTable))
        (sampleRequest "GET" "/test/") freshRun
      = {| world := {| rw := [RwWriteHeader 404]; logged := []; app := [] |};
           entered := [] |})
  /\ (always (Always "gate" sampleGate (Always "count" sampleCount emptyFactory))
        !! "count" = Some sampleCount
      /\ entered
           (ServeHTTP literalMux
              (made (Make keyOrder sampleStore
                       (Always "gate" sampleGate
                          (Always "count" sampleCount emptyFactory))
                       sampleTable))
              (sampleRequest "GET" "/test/getdata") freshRun)
         = [(TAlways, "gate")]).
Proof. split_and!; by vm_compute. Qed.

(** ** The chain of every route *)

Section ChainOfMake.
Context {App : Type}.
Implicit Types (f : gorillaMuxFactory App) (route : Route App)
  (routeMap : gmap string (list (Route App))).

Lemma subrouterOf_Apis (prefixTpl : string) route :
  Name route = "Apis" -> (subrouterOf prefixTpl route).2 = [].
Proof.
  intros Hname. unfold subrouterOf.
  destruct (addRegexpMatcher prefixTpl "/") as [subTpl subErr].
  destruct (addRegexpMatcher subTpl _) as [leafTpl leafErr].
  by rewrite Hname.
Qed.

Lemma subrouterOf_terminal (prefixTpl : string) route :
  Name route <> "Apis" ->
  WrapSubrouter (subrouterOf prefixTpl route).2 = specTerminal prefixTpl route.
Proof.
  intros Hname. unfold subrouterOf, specTerminal.
  destruct (addRegexpMatcher prefixTpl "/") as [subTpl subErr]. cbn [fst snd].
  destruct (addRegexpMatcher subTpl _) as [leafTpl leafErr]. cbn [fst snd].
  by destruct (String.eqb_spec (Name route) "Apis").
Qed.

Lemma conflict_logged f (exclude include : list string) (name : string) :
  name ∈ include -> name ∈ exclude ->
  Errorf ("middleware [" +:+ name
          +:+ "] is present in <included> and <excluded> list, skipping")
    ∈ specLogged f exclude include.
Proof.
  intros Hin Hex. unfold specLogged. apply list_elem_of_omap.
  exists name. split; [done|]. unfold specVerdict. by rewrite decide_True.
Qed.

Lemma chain_route_of_prefixRouter (o : RangeOrder) (h : Store) f (key : string)
    (routes : list (Route App)) (i : nat) route :
  routes !! i = Some route ->
  {| kind := PathExact;
     tpl := (addRegexpMatcher (addRegexpMatcher "" ("/" +:+ key)).1
               ("/" +:+ Path route)).1;
     methods := [ToUpper (Method (specNormalized route))];
     routeName := "";
     target :=
       PChain (alwaysChain o f
                 ++ specDefaults o (OverDefaults key i) f (elems h (Exclude route))
                 ++ specRequested f (elems h (Exclude route)) (elems h (Include route))
                 ++ [WrapSubrouter
                       (subrouterOf (addRegexpMatcher "" ("/" +:+ key)).1
                          (specNormalized route)).2]);
     err := (addRegexpMatcher (addRegexpMatcher "" ("/" +:+ key)).1
               ("/" +:+ Path route)).2 |}
    ∈ prRoutes (prefixRouterOf o h f key routes).
Proof.
  intros Hroute. unfold prefixRouterOf. cbn [prRoutes].
  apply elem_of_cons. right. apply list_elem_of_join.
  exists (prefixRoutesOf o h f key (addRegexpMatcher "" ("/" +:+ key)).1 i
            (specNormalized route)).
  split.
  - unfold prefixRoutesOf.
    destruct (subrouterOf _ (specNormalized route)) as [[subTpl subErr] leafs].
    cbn [fst snd Path Include Exclude specNormalized].
    destruct (addRegexpMatcher _ ("/" +:+ Path route)) as [routeTpl routeErr].
    rewrite middlewaresOf_spec.
    cbn [fst snd Path Include Exclude specNormalized].
    apply elem_of_cons. right. by apply list_elem_of_singleton.
  - apply elem_of_lookup_imap. exists i, (specNormalized route). split; [done|].
    by rewrite updateRoutes_fmap, list_lookup_fmap, Hroute.
Qed.

Lemma logged_by_Make (o : RangeOrder) (h : Store) f routeMap (key : string)
    (routes : list (Route App)) route (line : LogLine) :
  routeMap !! key = Some routes -> route ∈ routes ->
  line ∈ specLogged f (elems h (Exclude route)) (elems h (Include route)) ->
  line ∈ madeLog (Make o h f routeMap).
Proof.
  intros Hkey Hroute Hline.
  destruct (Make_spec o h f routeMap) as (_ & -> & _).
  apply list_elem_of_bind. exists (key, routes). split.
  - apply list_elem_of_bind. exists (specNormalized route). split; [done|].
    simpl. rewrite updateRoutes_fmap. by apply list_elem_of_fmap_2.
  - rewrite (rangeOf_perm o). by apply elem_of_map_to_list.
Qed.

End ChainOfMake.

(** C3, as the code has it: the route of the table is bound to the always
    chain followed by the default-tier middleware whose name is not
    excluded, then, for each included name in order, the available-tier
    middleware of that name unless the name is excluded, in the always or
    default tier, or not registered (each skip logged), then the route's own
    subrouter. That subrouter holds the route handler, except for a route
    named [Apis], where it is empty. No excluded name is in the chain. *)
Theorem route_chain_of_Make {App : Type} (o : RangeOrder) (h : Store)
    (f : gorillaMuxFactory App) (routeMap : gmap string (list (Route App)))
    (key : string) (routes : list (Route App)) (i : nat) (route : Route App) :
  routeMap !! key = Some routes ->
  routes !! i = Some route ->
  exists pr rt,
    subrouters (made (Make o h f routeMap)) !! key = Some pr
    /\ rt ∈ prRoutes pr
    /\ tpl rt = (addRegexpMatcher (addRegexpMatcher "" ("/" +:+ key)).1
                   ("/" +:+ Path route)).1
    /\ methods rt = [ToUpper (Method (specNormalized route))]
    /\ target rt
       = PChain (alwaysChain o f
                   ++ specDefaults o (OverDefaults key i) f (elems h (Exclude route))
                   ++ specRequested f (elems h (Exclude route)) (elems h (Include route))
                   ++ [WrapSubrouter
                         (subrouterOf (addRegexpMatcher "" ("/" +:+ key)).1
                            (specNormalized route)).2])
    /\ (Name route <> "Apis" ->
        WrapSubrouter
          (subrouterOf (addRegexpMatcher "" ("/" +:+ key)).1 (specNormalized route)).2
        = specTerminal (addRegexpMatcher "" ("/" +:+ key)).1 (specNormalized route))
    /\ (Name route = "Apis" ->
        (subrouterOf (addRegexpMatcher "" ("/" +:+ key)).1 (specNormalized route)).2 = [])
    /\ (forall name, name ∈ elems h (Exclude route) ->
          Some name
            ∉ nameOf <$> (specDefaults o (OverDefaults key i) f (elems h (Exclude route))
                            ++ specRequested f (elems h (Exclude route))
                                 (elems h (Include route))))
    /\ (forall line,
          line ∈ specLogged f (elems h (Exclude route)) (elems h (Include route)) ->
          line ∈ madeLog (Make o h f routeMap))
    /\ (forall name, name ∈ elems h (Include route) -> name ∈ elems h (Exclude route) ->
          Errorf ("middleware [" +:+ name
                  +:+ "] is present in <included> and <excluded> list, skipping")
            ∈ madeLog (Make o h f routeMap)).
Proof.
  intros Hkey Hroute.
  assert (route ∈ routes) as Hin by by eapply list_elem_of_lookup_2.
  destruct (Make_spec o h f routeMap) as (_ & _ & _ & Hsubs & _).
  eexists _, _. split_and!.
  - by rewrite Hsubs, Hkey.
  - by apply chain_route_of_prefixRouter.
  - done.
  - done.
  - done.
  - intros Hname. by apply subrouterOf_terminal.
  - intros Hname. by apply subrouterOf_Apis.
  - intros name. apply excluded_not_in_chain.
  - intros line. by eapply logged_by_Make.
  - intros name Hinc Hex. eapply logged_by_Make; [done..|].
    by apply conflict_logged.
Qed.

Lemma route_chain_of_Make_witness :
  exists pr rt,
    subrouters
      (made (Make keyOrder sampleStore
               (Available "trace" sampleCount
                  (Default "audit" sampleCount (Default "log" sampleCount emptyFactory)))
               sampleTable)) !! "test" = Some pr
    /\ rt ∈ prRoutes pr
    /\ tpl rt = "/test/getdata"
    /\ methods rt = ["GET"].
Proof.
  destruct (route_chain_of_Make keyOrder sampleStore
              (Available "trace" sampleCount
                 (Default "audit" sampleCount (Default "log" sampleCount emptyFactory)))
              sampleTable "test" [sampleRoute] 0 sampleRoute)
    as (pr & rt & Hpr & Hrt & Htpl & Hm & _).
  - reflexivity.
  - reflexivity.
  - exists pr, rt. split_and!; [exact Hpr | exact Hrt | exact Htpl | exact Hm].
Defined.

(** C3 as stated fails on a route named [Apis]: [Make] registers no handler
    in its subrouter (it mounts the static file server on the top router),
    so the chain of the route ends in an empty subrouter and a request for
    the route gets the reply of [http.NotFound], not the route handler. *)
Lemma Apis_route_chain_has_no_route_handler :
  (exists pr rt,
     subrouters (made (Make keyOrder ∅ emptyFactory {[ "v1" := [apisRoute] ]})) !! "v1"
     = Some pr
     /\ prRoutes pr !! 2 = Some rt
     /\ tpl rt = "/v1/apis"
     /\ target rt = PChain [WrapSubrouter []])
  /\ WrapSubrouter [] <> specTerminal "/v1" apisRoute
  /\ world (ServeHTTP literalMux
              (made (Make keyOrder ∅ emptyFactory {[ "v1" := [apisRoute] ]}))
              (sampleRequest "GET" "/v1/apis") freshRun)
     = httpNotFound (sampleRequest "GET" "/v1/apis") (world freshRun)
  /\ world (ServeHTTP literalMux
              (made (Make keyOrder ∅ emptyFactory {[ "v1" := [apisRoute] ]}))
              (sampleRequest "GET" "/v1/apis") freshRun)
     <> Handler apisRoute (sampleRequest "GET" "/v1/apis") (world freshRun).
Proof.
  split_and!.
  - eexists _, _. split_and!; by vm_compute.
  - by intros [=].
  - by vm_compute.
  - vm_compute. by intros [=].
Qed.

(** ** Errors at construction *)

(** C8, as the code has it: [New] stops at the first option that fails and
    returns that error and no server, whatever options follow; [Make]
    returns a [nil] error for every route table, and a route whose template
    mux refused stays in the router and matches no request. *)
Theorem New_aborts_and_Make_never_fails {H App : Type} (handler : H)
    (pre post : list (ServerOpt H)) (opt : ServerOpt H) (impl : ServerImpl H)
    (e : string) (o : RangeOrder) (h : Store) (f : gorillaMuxFactory App)
    (routeMap : gmap string (list (Route App))) :
  New handler pre = Ok impl ->
  opt impl = Err e ->
  New handler (pre ++ opt :: post) = Err e
  /\ madeErr (Make o h f routeMap) = None
  /\ (forall (env : MuxEnv App) (T : Type) (rt : MuxRoute T) (req : Request),
        err rt <> None -> routeMatches env rt req = false).
Proof.
  intros Hpre Hopt. split_and!.
  - unfold New in *. rewrite applyOptions_app, Hpre. simpl. by rewrite Hopt.
  - done.
  - intros env T rt req Herr. unfold routeMatches.
    by rewrite bool_decide_eq_false_2.
Qed.

Lemma New_aborts_and_Make_never_fails_witness :
  New tt [ServerAddress "0.0.0.0:8080"; ServerIP sampleEnv [1; 2; 3]%N; ServerPort 9090]
  = Err "invalid api server IP: ?"
  /\ madeErr (Make keyOrder sampleStore emptyFactory sampleTable) = None.
Proof.
  destruct (New_aborts_and_Make_never_fails tt
              [ServerAddress "0.0.0.0:8080"] [ServerPort 9090]
              (ServerIP sampleEnv [1; 2; 3]%N)
              (withServer (withAddr "0.0.0.0:8080")
                 {| serverStatus := Stopped; statusListener := None;
                    server := {| Addr := ""; SrvHandler := tt; TLSConfig_ := None;
                                 ErrorLog := None |};
                    shutdownTimeout := DefaultShutdownTimeout |})
              "invalid api server IP: ?" keyOrder sampleStore emptyFactory sampleTable
              eq_refl eq_refl) as (Hnew & Hmake & _).
  split; [exact Hnew | exact Hmake].
Defined.

(** C8 as stated fails for [Make]: on a route table whose prefix mux
    refuses (unbalanced braces), [Make] returns its router with a [nil]
    error; the routes of that prefix are registered and carry the error. *)
Lemma Make_succeeds_on_malformed_prefix :
  madeErr (Make keyOrder sampleStore emptyFactory {[ "v1/{id" := [sampleRoute] ]}) = None
  /\ Forall (fun rt => is_Some (err rt))
       (topRoutes
          (made (Make keyOrder sampleStore emptyFactory {[ "v1/{id" := [sampleRoute] ]})))
  /\ length
       (topRoutes
          (made (Make keyOrder sampleStore emptyFactory {[ "v1/{id" := [sampleRoute] ]})))
     = 2
  /\ is_Some
       (subrouters
          (made (Make keyOrder sampleStore emptyFactory {[ "v1/{id" := [sampleRoute] ]}))
          !! "v1/{id").
Proof.
  split_and!.
  - done.
  - vm_compute. repeat constructor; by eexists.
  - by vm_compute.
  - vm_compute. by eexists.
Qed.

(** ** Registration and the order of the default tier *)

Section Registration.
Context {App : Type}.
Implicit Types (f : gorillaMuxFactory App) (mw : Middleware App).

(** The last registration of a name in a tier wins. *)
Lemma Always_overwrites (name : string) mw mw' f :
  Always name mw' (Always name mw f) = Always name mw' f.
Proof. unfold Always. simpl. by rewrite insert_insert_eq. Qed.

Lemma Default_overwrites (name : string) mw mw' f :
  Default name mw' (Default name mw f) = Default name mw' f.
Proof. unfold Default. simpl. by rewrite insert_insert_eq. Qed.

Lemma Available_overwrites (name : string) mw mw' f :
  Available name mw' (Available name mw f) = Available name mw' f.
Proof. unfold Available. simpl. by rewrite insert_insert_eq. Qed.

(** The tiers are apart: registering in one leaves the others as they were. *)
Lemma Always_only_always (name : string) mw f :
  defaults (Always name mw f) = defaults f
  /\ available (Always name mw f) = available f
  /\ always (Always name mw f) !! name = Some mw.
Proof. unfold Always. simpl. by rewrite lookup_insert_eq. Qed.

End Registration.

(** The names of the default middleware in the chains of two routes of one
    table: the order need not be the same from one route to the next. *)
Example defaults_order_may_change_between_routes :
  chainNames <$> subrouters (made (Make mixedOrder ∅ twoDefaults twoRoutes)) !! "v1"
  = Some [ ["count"; "audit"]; ["audit"; "count"] ].
Proof. by vm_compute. Qed.

(** ** The shutdown timeout *)

Section ShutdownTimeout.
Context {H : Type}.
Implicit Types (srv : ServerImpl H).

(** No option of the package touches the shutdown timeout: a server built
    from them waits [DefaultShutdownTimeout], ten seconds, in [Stop]. *)
Lemma options_keep_shutdownTimeout (env : StdEnv) srv srv' :
  (forall address, ServerAddress address srv = Ok srv' ->
     shutdownTimeout srv' = shutdownTimeout srv)
  /\ (forall ip, ServerIP env ip srv = Ok srv' ->
        shutdownTimeout srv' = shutdownTimeout srv)
  /\ (forall port, ServerPort port srv = Ok srv' ->
        shutdownTimeout srv' = shutdownTimeout srv)
  /\ (forall certFile keyFile, ServerCertificateFile env certFile keyFile srv = Ok srv' ->
        shutdownTimeout srv' = shutdownTimeout srv)
  /\ (forall logger, ServerLogger logger srv = Ok srv' ->
        shutdownTimeout srv' = shutdownTimeout srv)
  /\ (forall listener, ServerListener listener srv = Ok srv' ->
        shutdownTimeout srv' = shutdownTimeout srv).
Proof.
  split_and!.
  - by intros address [= <-].
  - intros ip. unfold ServerIP. destruct (net.To4 ip); [|done].
    destruct (index _ 1); simpl; [|done..]. by intros [= <-].
  - intros port. unfold ServerPort.
    destruct (index _ 0); simpl; [|done..]. by intros [= <-].
  - intros certFile keyFile. unfold ServerCertificateFile.
    destruct (LoadX509KeyPair env certFile keyFile); [|done]. by intros [= <-].
  - by intros logger [= <-].
  - by intros listener [= <-].
Qed.

Lemma New_default_timeout (handler : H) :
  shutdownTimeout <$> (match New handler [] with Ok srv => Some srv | _ => None end)
  = Some (10 * 1000000000)%Z.
Proof. done. Qed.

End ShutdownTimeout.

(** ** The address options *)

Lemma Split_head (s : string) (sep : Ascii.ascii) :
  exists host rest,
    strings_.Split s sep = host :: rest
    /\ strings_.Contains host sep = false
    /\ (s = host /\ rest = [] \/ exists tl, s = host +:+ String sep tl).
Proof.
  induction s as [|c s IH]; simpl.
  - exists "", []. split_and!; auto.
  - destruct (Ascii.eqb c sep) eqn:Hc.
    + apply Ascii.eqb_eq in Hc as ->.
      exists "", (strings_.Split s sep). split_and!; eauto.
    + destruct IH as (host & rest & -> & Hhost & Hs).
      exists (String c host), rest. split_and!; [done|by simpl; rewrite Hc|].
      destruct Hs as [[-> ->]|[tl ->]]; [by left|right; by exists tl].
Qed.

Lemma Contains_app (s t : string) (sep : Ascii.ascii) :
  strings_.Contains (s +:+ t) sep = strings_.Contains s sep || strings_.Contains t sep.
Proof.
  induction s as [|c s IH]; [done|].
  change (String c s +:+ t) with (String c (s +:+ t)). simpl.
  by rewrite IH, orb_assoc.
Qed.

Lemma pretty_N_go_Contains (x : N) (s : string) :
  strings_.Contains (pretty_N_go x s) ":" = strings_.Contains s ":".
Proof.
  revert s. induction (N.lt_wf_0 x) as [x _ IH]; intros s.
  assert (x = 0 \/ 0 < x)%N as [->|Hpos] by lia; [done|].
  rewrite pretty_N_go_step by done.
  rewrite IH by (by apply N.div_lt). simpl.
  unfold pretty_N_char. by repeat case_match.
Qed.

Lemma pretty_N_Contains (x : N) : strings_.Contains (pretty x) ":" = false.
Proof.
  unfold pretty, pretty_N. case_decide; [done|]. by rewrite pretty_N_go_Contains.
Qed.

Lemma Itoa_Contains (n : Z) : strings_.Contains (strconv.Itoa n) ":" = false.
Proof.
  unfold strconv.Itoa, pretty, pretty_Z. destruct n as [|x|x]; [done|..].
  - apply pretty_N_Contains.
  - rewrite Contains_app. simpl. apply pretty_N_Contains.
Qed.

Lemma dotted_Contains (p4 : net.IP) : strings_.Contains (net.dotted p4) ":" = false.
Proof.
  unfold net.dotted.
  destruct p4 as [|a [|b [|c [|d [|e p4]]]]]; try done.
  by rewrite !Contains_app, !pretty_N_Contains.
Qed.

Lemma To4_length (ip p4 : net.IP) : net.To4 ip = Some p4 -> length p4 = 4.
Proof.
  unfold net.To4.
  destruct (Nat.eqb (length ip) net.IPv4len) eqn:H4.
  - intros [= <-]. by apply Nat.eqb_eq in H4.
  - destruct (Nat.eqb (length ip) net.IPv6len) eqn:H6; [|done]. simpl.
    apply Nat.eqb_eq in H6. unfold net.IPv6len in H6.
    repeat case_match; try done. intros [= <-].
    rewrite length_take, length_drop. lia.
Qed.

Lemma IP_String_Contains (env : StdEnv) (ip : net.IP) :
  is_Some (net.To4 ip) -> strings_.Contains (IP_String env ip) ":" = false.
Proof.
  intros [p4 Hp4]. unfold IP_String. rewrite Hp4.
  destruct ip; [done|]. apply dotted_Contains.
Qed.

Section AddressOptions.
Context {H : Type}.
Implicit Types (srv : ServerImpl H).

Lemma ServerPort_Ok (port : Z) srv :
  exists host rest,
    strings_.Split (Addr (server srv)) ":" = host :: rest
    /\ ServerPort port srv
       = Ok (withServer (withAddr (host +:+ ":" +:+ strconv.Itoa port)) srv).
Proof.
  destruct (Split_head (Addr (server srv)) ":") as (host & rest & Hsplit & _ & _).
  exists host, rest. split; [done|].
  unfold ServerPort, index. by rewrite Hsplit.
Qed.

(** X1: [ServerPort] never fails and never faults. It keeps the text of the
    bind address in front of its first colon (the whole address when there is
    none) and puts a colon and the decimal port behind it: everything from
    the first colon on is dropped, so [a:b:c] becomes [a:port], and a server
    that has no address yet gets [:port]. *)
Theorem ServerPort_keeps_text_before_first_colon (port : Z) (handler : H) srv :
  (exists host,
     ServerPort port srv
     = Ok (withServer (withAddr (host +:+ ":" +:+ strconv.Itoa port)) srv)
     /\ strings_.Contains host ":" = false
     /\ (Addr (server srv) = host
         \/ exists rest, Addr (server srv) = host +:+ ":" +:+ rest))
  /\ (forall host rest,
        strings_.Contains host ":" = false ->
        Addr (server srv) = host +:+ ":" +:+ rest ->
        ServerPort port srv
        = Ok (withServer (withAddr (host +:+ ":" +:+ strconv.Itoa port)) srv))
  /\ (strings_.Contains (Addr (server srv)) ":" = false ->
      ServerPort port srv
      = Ok (withServer
              (withAddr (Addr (server srv) +:+ ":" +:+ strconv.Itoa port)) srv))
  /\ Addr <$> (server <$> (match New handler [ServerPort port] with
                            | Ok impl => Some impl
                            | _ => None
                            end))
     = Some (":" +:+ strconv.Itoa port).
Proof.
  split_and!.
  - destruct (Split_head (Addr (server srv)) ":") as (host & rest & Hsplit & Hhost & Hs).
    exists host. split_and!; [|done|].
    + unfold ServerPort, index. by rewrite Hsplit.
    + destruct Hs as [[-> _]|[tl ->]]; [by left|right; by exists tl].
  - intros host rest Hhost Haddr. unfold ServerPort, index.
    rewrite Haddr.
    change (host +:+ ":" +:+ rest) with (host +:+ String ":" rest).
    by rewrite Split_host_port.
  - intros Hno. unfold ServerPort, index.
    by rewrite Split_without_separator.
  - done.
Qed.

(** X2: after [ServerPort], [ServerIP] with an IPv4 address never faults,
    whatever the address was before (also none at all): together they leave
    the dotted address, a colon and the decimal port. In the other order,
    on an address that has a colon, the result is the same. *)
Theorem ServerPort_then_ServerIP (env : StdEnv) (ip : net.IP) (port : Z) srv :
  is_Some (net.To4 ip) ->
  applyOptions [ServerPort port; ServerIP env ip] srv
  = Ok (withServer (withAddr (IP_String env ip +:+ ":" +:+ strconv.Itoa port)) srv)
  /\ (strings_.Contains (Addr (server srv)) ":" = true ->
      applyOptions [ServerIP env ip; ServerPort port] srv
      = Ok (withServer (withAddr (IP_String env ip +:+ ":" +:+ strconv.Itoa port)) srv)).
Proof.
  intros Hip. pose proof Hip as [p4 Hp4]. split.
  - cbn [applyOptions].
    destruct (ServerPort_Ok port srv) as (host & rest & Hsplit & ->).
    destruct (Split_head (Addr (server srv)) ":") as (host' & rest' & Hsplit' & Hhost & _).
    rewrite Hsplit in Hsplit'. simplify_eq.
    unfold ServerIP, index. rewrite Hp4. simpl.
    change (host' +:+ ":" +:+ strconv.Itoa port)
      with (host' +:+ String ":" (strconv.Itoa port)).
    rewrite Split_host_port by done.
    by rewrite (Split_without_separator _ _ (Itoa_Contains port)).
  - intros Hcolon.
    destruct (Split_head (Addr (server srv)) ":") as (host & rest & Hsplit & Hhost & Hs).
    destruct Hs as [[Heq _]|[tl Heq]].
    { rewrite <-Heq in Hhost. congruence. }
    cbn [applyOptions]. unfold ServerIP at 1. unfold index. rewrite Hp4.
    rewrite Heq, Split_host_port by done. simpl.
    destruct (Split_head tl ":") as (p & rest' & -> & _ & _). simpl.
    unfold ServerPort, index. simpl.
    change (IP_String env ip +:+ ":" +:+ p) with (IP_String env ip +:+ String ":" p).
    by rewrite Split_host_port by (by apply IP_String_Contains).
Qed.

End AddressOptions.

Lemma ServerPort_then_ServerIP_witness :
  is_Some (net.To4 [10; 0; 0; 1]%N)
  /\ applyOptions [ServerPort 8080; ServerIP sampleEnv [10; 0; 0; 1]%N]
       {| serverStatus := Stopped; statusListener := None;
          server := {| Addr := ""; SrvHandler := tt; TLSConfig_ := None;
                       ErrorLog := None |};
          shutdownTimeout := DefaultShutdownTimeout |}
     = Ok {| serverStatus := Stopped; statusListener := None;
             server := {| Addr := "10.0.0.1:8080"; SrvHandler := tt;
                          TLSConfig_ := None; ErrorLog := None |};
             shutdownTimeout := DefaultShutdownTimeout |}.
Proof.
  split; [by eexists|].
  apply (ServerPort_then_ServerIP sampleEnv [10; 0; 0; 1]%N 8080). by eexists.
Defined.

(** ** The certificate option and [StartHTTPS] *)

Section Certificates.
Context {H : Type}.
Implicit Types (srv impl : ServerImpl H) (calls : list OptionCall).

Lemma optionOf_TLS (env : StdEnv) (c : OptionCall) srv srv' :
  optionOf env c srv = Ok srv' ->
  serverStatus srv' = serverStatus srv
  /\ (if isCertificateCall c
      then is_Some (TLSConfig_ (server srv'))
           /\ certificateShaped (TLSConfig_ (server srv'))
      else TLSConfig_ (server srv') = TLSConfig_ (server srv)).
Proof.
  destruct c as [a|ip|port|cf kf|l|l]; simpl.
  - by intros [= <-].
  - unfold ServerIP. destruct (net.To4 ip); [|done]. unfold index.
    destruct (strings_.Split (Addr (server srv)) ":" !! 1); [|done]. by intros [= <-].
  - unfold ServerPort, index.
    destruct (strings_.Split (Addr (server srv)) ":" !! 0); [|done]. by intros [= <-].
  - unfold ServerCertificateFile. destruct (LoadX509KeyPair env cf kf); [|done].
    intros [= <-]. simpl. by split_and!.
  - by intros [= <-].
  - by intros [= <-].
Qed.

Lemma applyOptions_TLS (env : StdEnv) calls srv impl :
  applyOptions (optionOf env <$> calls) srv = Ok impl ->
  serverStatus impl = serverStatus srv
  /\ (is_Some (TLSConfig_ (server impl))
      <-> is_Some (TLSConfig_ (server srv)) \/ Exists (fun c => isCertificateCall c) calls)
  /\ (certificateShaped (TLSConfig_ (server srv)) ->
      certificateShaped (TLSConfig_ (server impl))).
Proof.
  revert srv. induction calls as [|c calls IH]; intros srv; simpl.
  - intros [= <-]. split_and!; [done| |done].
    split; [by left|]. intros [?|Hex]; [done|]. by apply Exists_nil in Hex.
  - destruct (optionOf env c srv) as [srv1| |] eqn:Hc; [|done..].
    intros Hrest. apply IH in Hrest as (Hst & Htls & Hshape).
    apply optionOf_TLS in Hc as [Hst1 Hc].
    split_and!.
    + congruence.
    + rewrite Htls, Exists_cons.
      destruct (isCertificateCall c).
      * destruct Hc as [Hsome _]. split; [intros _; right; by left | by left].
      * rewrite Hc. split; [intros [?|?]; auto|].
        intros [?|[?|?]]; auto. done.
    + intros Hsrv. apply Hshape.
      destruct (isCertificateCall c); [by destruct Hc | by rewrite Hc].
Qed.

(** X3: on a server that [New] built from the package's own options,
    [StartHTTPS] is accepted exactly when a [ServerCertificateFile] option
    was among them; without one it answers the missing-certificate error and
    changes nothing. The TLS configuration, when there is one, asks for TLS
    1.1 at least and holds one certificate. [StartHTTP] is accepted either
    way. *)
Theorem StartHTTPS_needs_certificate_option (env : StdEnv) (handler : H) calls impl :
  New handler (optionOf env <$> calls) = Ok impl ->
  ((StartHTTPS (started impl)).1 = None
   <-> exists certFile keyFile, OptServerCertificateFile certFile keyFile ∈ calls)
  /\ ((forall certFile keyFile, OptServerCertificateFile certFile keyFile ∉ calls) ->
      StartHTTPS (started impl)
      = (Some "https api server can not start without SSL certificate and private key",
         started impl))
  /\ (forall cfg, TLSConfig_ (server impl) = Some cfg ->
        MinVersion cfg = VersionTLS11 /\ length (Certificates cfg) = 1)
  /\ (StartHTTP (started impl)).1 = None.
Proof.
  intros Hnew. unfold New in Hnew.
  apply applyOptions_TLS in Hnew as (Hst & Htls & Hshape). simpl in Hst, Htls, Hshape.
  assert (Exists (fun c => isCertificateCall c) calls
          <-> exists certFile keyFile, OptServerCertificateFile certFile keyFile ∈ calls)
    as Hex.
  { rewrite Exists_exists. split.
    - intros ([ | | |cf kf| | ] & Hin & Hc); try done. by exists cf, kf.
    - intros (cf & kf & Hin). by exists (OptServerCertificateFile cf kf). }
  assert (is_Some (TLSConfig_ (server impl))
          <-> exists certFile keyFile, OptServerCertificateFile certFile keyFile ∈ calls)
    as Hsome.
  { rewrite Htls, <-Hex. split; [intros [[? ?]|?]; done | by right]. }
  split_and!.
  - rewrite <-Hsome. unfold StartHTTPS, status. simpl. rewrite Hst. simpl.
    destruct (TLSConfig_ (server impl)); simpl; split; first [done | by eexists | by intros [? ?]].
  - intros Hnone. unfold StartHTTPS, status. simpl. rewrite Hst. simpl.
    destruct (TLSConfig_ (server impl)) eqn:Hcfg; [|done].
    destruct Hsome as [(cf & kf & Hin) _]; [by eexists|]. by destruct (Hnone cf kf).
  - intros cfg Hcfg. specialize (Hshape I). by rewrite Hcfg in Hshape.
  - unfold StartHTTP, status. simpl. by rewrite Hst.
Qed.

End Certificates.

Lemma StartHTTPS_needs_certificate_option_witness :
  New tt (optionOf
            {| ipOtherString := fun _ => "?";
               LoadX509KeyPair := fun certFile keyFile => inl (certFile +:+ keyFile) |}
            <$> [OptServerAddress "0.0.0.0:8443";
                 OptServerCertificateFile "server.crt" "server.key"])
  = Ok {| serverStatus := Stopped; statusListener := None;
          server := {| Addr := "0.0.0.0:8443"; SrvHandler := tt;
                       TLSConfig_ := Some {| MinVersion := 770;
                                             Certificates := ["server.crtserver.key"] |};
                       ErrorLog := None |};
          shutdownTimeout := DefaultShutdownTimeout |}
  /\ (StartHTTPS
        (started {| serverStatus := Stopped; statusListener := None;
                    server := {| Addr := "0.0.0.0:8443"; SrvHandler := tt;
                                 TLSConfig_ := Some {| MinVersion := 770;
                                                       Certificates :=
                                                         ["server.crtserver.key"] |};
                                 ErrorLog := None |};
                    shutdownTimeout := DefaultShutdownTimeout |})).1 = None.
Proof.
  split; [reflexivity|].
  eapply (StartHTTPS_needs_certificate_option
            {| ipOtherString := fun _ => "?";
               LoadX509KeyPair := fun certFile keyFile => inl (certFile +:+ keyFile) |}
            tt
            [OptServerAddress "0.0.0.0:8443";
             OptServerCertificateFile "server.crt" "server.key"]).
  - reflexivity.
  - exists "server.crt", "server.key". apply list_elem_of_here || (right; left).
Defined.

(** ** One accept loop at a time *)

Section OneLoop.
Context {H : Type}.
Implicit Types (p : Process H) (a : Step).

Lemma notifications_setStatus (st : ServerStatus) p :
  notifications (setStatus st p)
  = notifications p
    ++ match statusListener (srv p) with
       | Some _ => [(status p, st)]
       | None => []
       end.
Proof.
  unfold notifications, setStatus. simpl.
  destruct (statusListener (srv p)); [|by rewrite app_nil_r].
  by rewrite omap_app.
Qed.

Lemma liveLoops_finished (finished : list AcceptLoop) :
  Forall (fun l => pc l = Exited) finished ->
  filter (fun l => pc l <> Exited) finished = [].
Proof.
  induction 1 as [|l finished Hl _ IH]; [done|].
  rewrite filter_cons_False by (by intros ?). done.
Qed.

Lemma pcOf_last p (finished : list AcceptLoop) (l : AcceptLoop) (i : nat) (c : LoopPC) :
  loops p = finished ++ [l] ->
  Forall (fun l => pc l = Exited) finished ->
  pcOf i p = Some c -> c <> Exited ->
  i = length finished /\ pc l = c.
Proof.
  unfold pcOf. intros -> Hfin Hpc Hne.
  destruct (decide (i < length finished)) as [Hlt|Hge].
  - rewrite lookup_app_l in Hpc by done.
    destruct (finished !! i) as [l'|] eqn:Hl'; [|done].
    rewrite Forall_lookup in Hfin. specialize (Hfin _ _ Hl').
    simpl in Hpc. congruence.
  - rewrite lookup_app_r in Hpc by lia.
    destruct (i - length finished) as [|k] eqn:Hk; simpl in Hpc; [|done].
    split; [lia | congruence].
Qed.

Lemma pcOf_finished p (i : nat) (c : LoopPC) :
  Forall (fun l => pc l = Exited) (loops p) ->
  pcOf i p = Some c -> c = Exited.
Proof.
  unfold pcOf. intros Hfin Hpc.
  destruct (loops p !! i) as [l|] eqn:Hl; [|done].
  rewrite Forall_lookup in Hfin. specialize (Hfin _ _ Hl).
  simpl in Hpc. congruence.
Qed.

Lemma alter_last (finished : list AcceptLoop) (l : AcceptLoop) (c : LoopPC) :
  alter (fun l => {| protocol := protocol l; pc := c |}) (length finished) (finished ++ [l])
  = finished ++ [{| protocol := protocol l; pc := c |}].
Proof.
  induction finished as [|x finished IH]; [done|].
  simpl. by rewrite <-IH.
Qed.

(** What every step keeps: one loop at most, and only the status changes
    of the cycle told to a listener. *)
Lemma step_oneLoop a p p' :
  step a p = Some p' ->
  oneLoop p /\ Forall inCycle (notifications p) ->
  oneLoop p' /\ Forall inCycle (notifications p').
Proof.
  intros Hstep [Hone Hcyc].
  destruct a as [l| | | | | |i|i e|i]; simpl in Hstep.
  - by simplify_eq.
  - by simplify_eq.
  - by simplify_eq.
  - simplify_eq. unfold StartHTTP. case_bool_decide as Hst; [done|]. simpl.
    assert (status p = Stopped) as Hstopped by (by destruct (status p)).
    unfold oneLoop in Hone. rewrite Hstopped in Hone. split.
    + unfold oneLoop. rewrite status_setStatus. by exists (loops p), HTTP.
    + rewrite notifications_setStatus. apply Forall_app. split; [done|].
      simpl. destruct (statusListener (srv p)); [|done].
      apply Forall_singleton. left. by rewrite status_spawn, Hstopped.
  - simplify_eq. unfold StartHTTPS. case_bool_decide as Hst; [done|].
    destruct (TLSConfig_ (server (srv p))); [|done]. simpl.
    assert (status p = Stopped) as Hstopped by (by destruct (status p)).
    unfold oneLoop in Hone. rewrite Hstopped in Hone. split.
    + unfold oneLoop. rewrite status_setStatus. by exists (loops p), HTTPS.
    + rewrite notifications_setStatus. apply Forall_app. split; [done|].
      simpl. destruct (statusListener (srv p)); [|done].
      apply Forall_singleton. left. by rewrite status_spawn, Hstopped.
  - simplify_eq. unfold Stop. case_bool_decide; [done|]. simpl. split; [done|].
    unfold notifications. simpl. by rewrite omap_app, app_nil_r.
  - unfold loopRun in Hstep. case_bool_decide as Hpc; [|done]. simplify_eq.
    unfold oneLoop in Hone. destruct (status p) eqn:Hst.
    + by apply (pcOf_finished _ _ _ Hone) in Hpc.
    + destruct Hone as (finished & proto & Hloops & Hfin).
      destruct (pcOf_last _ _ _ _ _ Hloops Hfin Hpc) as [-> _]; [done|]. split.
      * unfold oneLoop. rewrite status_setStatus. exists finished, proto, Serving.
        simpl. rewrite Hloops, alter_last. auto.
      * rewrite notifications_setStatus. apply Forall_app. split; [done|].
        simpl. destruct (statusListener (srv p)); [|done].
        apply Forall_singleton. right; left. by rewrite status_setPC, Hst.
    + destruct Hone as (finished & proto & c & Hloops & Hfin & Hc).
      destruct (pcOf_last _ _ _ _ _ Hloops Hfin Hpc) as [_ Hpcl]; [done|].
      simpl in Hpcl. destruct Hc; congruence.
  - unfold loopReturn in Hstep. case_bool_decide as Hpc; [|done]. simplify_eq.
    split.
    + unfold oneLoop in *. change (status _) with (status p). destruct (status p) eqn:Hst.
      * by apply (pcOf_finished _ _ _ Hone) in Hpc.
      * destruct Hone as (finished & proto & Hloops & Hfin).
        by destruct (pcOf_last _ _ _ _ _ Hloops Hfin Hpc) as [_ ?].
      * destruct Hone as (finished & proto & c & Hloops & Hfin & Hc).
        destruct (pcOf_last _ _ _ _ _ Hloops Hfin Hpc) as [-> _]; [done|].
        exists finished, proto, Returned. simpl. rewrite Hloops, alter_last. auto.
    + unfold notifications. simpl.
      destruct e as [e|]; [|done].
      destruct (ErrorLog (server (srv p))); by rewrite omap_app, app_nil_r.
  - unfold loopExit in Hstep. case_bool_decide as Hpc; [|done]. simplify_eq.
    unfold oneLoop in Hone. destruct (status p) eqn:Hst.
    + by apply (pcOf_finished _ _ _ Hone) in Hpc.
    + destruct Hone as (finished & proto & Hloops & Hfin).
      by destruct (pcOf_last _ _ _ _ _ Hloops Hfin Hpc) as [_ ?].
    + destruct Hone as (finished & proto & c & Hloops & Hfin & Hc).
      destruct (pcOf_last _ _ _ _ _ Hloops Hfin Hpc) as [-> _]; [done|]. split.
      * unfold oneLoop. rewrite status_setStatus. simpl.
        rewrite Hloops, alter_last. apply Forall_app. split; [done|].
        by apply Forall_singleton.
      * rewrite notifications_setStatus. apply Forall_app. split; [done|].
        simpl. destruct (statusListener (srv p)); [|done].
        apply Forall_singleton. right; right. by rewrite status_setPC, Hst.
Qed.

Lemma steps_oneLoop (l : list Step) p p' :
  steps l p = Some p' ->
  oneLoop p /\ Forall inCycle (notifications p) ->
  oneLoop p' /\ Forall inCycle (notifications p').
Proof.
  revert p. induction l as [|a l IH]; simpl; intros p Hrun Hinv; [by simplify_eq|].
  destruct (step a p) as [p1|] eqn:Hstep; [|done]. simpl in Hrun.
  eapply IH; [done|]. by eapply step_oneLoop.
Qed.

Lemma started_oneLoop (impl : ServerImpl H) :
  serverStatus impl = Stopped ->
  oneLoop (started impl) /\ Forall inCycle (notifications (started impl)).
Proof.
  intros Hst. split; [|done]. unfold oneLoop, status. simpl. by rewrite Hst.
Qed.

(** X4: whatever calls and goroutine steps follow [New], at most one accept
    loop is under way at any time: none while the status is [Stopped]; one
    that has not yet run its first block while it is [Starting]; one that is
    inside [ListenAndServe], or back from it and not yet finished, while it
    is [Running]. *)
Theorem one_accept_loop_at_a_time (impl : ServerImpl H) (l : list Step) p :
  serverStatus impl = Stopped ->
  steps l (started impl) = Some p ->
  match status p with
  | Stopped => liveLoops p = []
  | Starting => exists proto, liveLoops p = [{| protocol := proto; pc := Spawned |}]
  | Running =>
      exists proto c,
        liveLoops p = [{| protocol := proto; pc := c |}] /\ (c = Serving \/ c = Returned)
  end.
Proof.
  intros Hst Hrun.
  destruct (steps_oneLoop _ _ _ Hrun (started_oneLoop _ Hst)) as [Hone _].
  unfold oneLoop in Hone. unfold liveLoops. destruct (status p).
  - by apply liveLoops_finished.
  - destruct Hone as (finished & proto & -> & Hfin). exists proto.
    rewrite filter_app, (liveLoops_finished _ Hfin). done.
  - destruct Hone as (finished & proto & c & -> & Hfin & Hc). exists proto, c.
    split; [|done].
    rewrite filter_app, (liveLoops_finished _ Hfin). simpl.
    rewrite filter_cons_True by (by destruct Hc as [-> | ->]). done.
Qed.

(** X5: a status listener is only ever told of three changes, from
    [Stopped] to [Starting], from [Starting] to [Running] and from
    [Running] to [Stopped]: whatever calls and goroutine steps follow
    [New], and whenever the listener was installed or replaced. *)
Theorem listener_is_told_the_cycle_only (impl : ServerImpl H) (l : list Step) p
    (statusOld statusNew : ServerStatus) :
  serverStatus impl = Stopped ->
  steps l (started impl) = Some p ->
  (statusOld, statusNew) ∈ notifications p ->
  (statusOld = Stopped /\ statusNew = Starting)
  \/ (statusOld = Starting /\ statusNew = Running)
  \/ (statusOld = Running /\ statusNew = Stopped).
Proof.
  intros Hst Hrun Hin.
  destruct (steps_oneLoop _ _ _ Hrun (started_oneLoop _ Hst)) as [_ Hcyc].
  rewrite Forall_forall in Hcyc. specialize (Hcyc _ Hin).
  destruct Hcyc as [?|[?|?]]; simplify_eq; auto.
Qed.

End OneLoop.

Lemma one_accept_loop_at_a_time_witness :
  serverStatus sampleServer = Stopped
  /\ steps [CallStartHTTP; LoopRun 0] (started sampleServer) = Some sampleServing
  /\ exists proto c,
       liveLoops sampleServing = [{| protocol := proto; pc := c |}]
       /\ (c = Serving \/ c = Returned).
Proof.
  split; [reflexivity|]. split; [reflexivity|].
  exact (one_accept_loop_at_a_time sampleServer [CallStartHTTP; LoopRun 0] sampleServing
           eq_refl eq_refl).
Defined.

Lemma listener_is_told_the_cycle_only_witness :
  (Starting, Running) ∈ notifications sampleServing
  /\ ((Starting = Stopped /\ Running = Starting)
      \/ (Starting = Starting /\ Running = Running)
      \/ (Starting = Running /\ Running = Stopped)).
Proof.
  assert ((Starting, Running) ∈ notifications sampleServing) as Hin.
  { right. left. }
  split; [exact Hin|].
  exact (listener_is_told_the_cycle_only sampleServer [CallStartHTTP; LoopRun 0]
           sampleServing Starting Running eq_refl eq_refl Hin).
Defined.

(** ** The listener and the status *)

Section Listener.
Context {H : Type}.
Implicit Types (p : Process H) (a : Step).

Lemma toldLast_setStatus (st0 st : ServerStatus) p :
  is_Some (statusListener (srv p)) -> toldLast st0 (setStatus st p).
Proof.
  intros [l Hl]. split; [by exists l|].
  rewrite notifications_setStatus, Hl, fmap_app. simpl. by rewrite last_snoc.
Qed.

Lemma step_toldLast (st0 : ServerStatus) a p p' :
  a <> CallStatusListener None ->
  step a p = Some p' -> toldLast st0 p -> toldLast st0 p'.
Proof.
  intros Ha Hstep [Hl Hst].
  destruct a as [l| | | | | |i|i e|i]; simpl in Hstep.
  - simplify_eq. destruct l as [l|]; [|done]. split; [by eexists | done].
  - by simplify_eq.
  - by simplify_eq.
  - simplify_eq. unfold StartHTTP. case_bool_decide; [done|].
    by apply toldLast_setStatus.
  - simplify_eq. unfold StartHTTPS. case_bool_decide; [done|].
    destruct (TLSConfig_ (server (srv p))); [|done]. by apply toldLast_setStatus.
  - simplify_eq. unfold Stop. case_bool_decide; [done|]. split; [done|].
    unfold notifications. simpl. by rewrite omap_app, app_nil_r.
  - unfold loopRun in Hstep. case_bool_decide; [|done]. simplify_eq.
    by apply toldLast_setStatus.
  - unfold loopReturn in Hstep. case_bool_decide; [|done]. simplify_eq.
    split; [done|]. unfold notifications. simpl.
    destruct e as [e|]; [|done].
    destruct (ErrorLog (server (srv p))); by rewrite omap_app, app_nil_r.
  - unfold loopExit in Hstep. case_bool_decide; [|done]. simplify_eq.
    by apply toldLast_setStatus.
Qed.

(** X6: a listener given to [New] and never taken away (replaced, maybe, but
    not by [nil]) is told of every change of the status: after any run of
    calls and goroutine steps, the status is the new status of the last
    change it was told of, and the status at construction when it was told
    of none. *)
Theorem listener_knows_the_status (impl : ServerImpl H) (l : list Step) p :
  is_Some (statusListener impl) ->
  Forall (fun a => a <> CallStatusListener None) l ->
  steps l (started impl) = Some p ->
  status p = default (serverStatus impl) (last (notifications p).*2).
Proof.
  intros Hl Hall Hrun.
  cut (toldLast (serverStatus impl) p); [by intros [_ ?]|].
  assert (toldLast (serverStatus impl) (started impl)) as Hinv by done.
  revert Hinv Hrun. generalize (started impl) as p0. generalize (serverStatus impl) as st0.
  induction Hall as [|a l Ha _ IH]; simpl; intros st0 p0 Hinv Hrun; [by simplify_eq|].
  destruct (step a p0) as [p1|] eqn:Hstep; [|done]. simpl in Hrun.
  eapply IH; [|done]. by eapply step_toldLast.
Qed.

(** X7: a [Stop] that comes after an accepted start and before the accept
    loop ran its first block is accepted ([nil], [Shutdown] is called), and
    the status still becomes [Running] when the loop runs that block: the
    shutdown that was asked for does not keep the server from reporting
    itself as running. *)
Theorem Stop_before_the_loop_runs p :
  status p = Stopped ->
  (StartHTTP p).1 = None
  /\ (Stop (StartHTTP p).2).1 = None
  /\ exists p',
       steps [CallStartHTTP; CallStop; LoopRun (length (loops p))] p = Some p'
       /\ status p' = Running
       /\ IsRunning p' = true
       /\ events p'
          = events (StartHTTP p).2
            ++ [ShutdownCalled (shutdownTimeout (srv p))]
            ++ match statusListener (srv p) with
               | Some l => [Notified l Starting Running]
               | None => []
               end.
Proof.
  intros Hst. unfold StartHTTP, Stop.
  rewrite (bool_decide_eq_false_2 (status p ≠ Stopped)) by (by intros ?).
  cbn [fst snd]. rewrite status_setStatus.
  rewrite (bool_decide_eq_false_2 (Starting = Stopped)) by done.
  split_and!; [done..|].
  cbn [steps step mbind option_bind]. unfold StartHTTP, Stop.
  rewrite (bool_decide_eq_false_2 (status p ≠ Stopped)) by (by intros ?).
  cbn [fst snd]. rewrite status_setStatus.
  rewrite (bool_decide_eq_false_2 (Starting = Stopped)) by done.
  cbn [fst snd]. unfold loopRun.
  rewrite bool_decide_eq_true_2.
  2:{ unfold pcOf. simpl. rewrite lookup_app_r by lia. by rewrite Nat.sub_diag. }
  eexists. split; [reflexivity|]. split_and!; [done..|].
  simpl. destruct (statusListener (srv p)); by rewrite <-?app_assoc.
Qed.

End Listener.

Lemma listener_knows_the_status_witness :
  is_Some (statusListener sampleServer)
  /\ Forall (fun a => a <> CallStatusListener None) [CallStartHTTP; LoopRun 0]
  /\ steps [CallStartHTTP; LoopRun 0] (started sampleServer) = Some sampleServing
  /\ status sampleServing
     = default (serverStatus sampleServer) (last (notifications sampleServing).*2).
Proof.
  assert (Forall (fun a => a <> CallStatusListener None) [CallStartHTTP; LoopRun 0])
    as Hall by (repeat constructor; discriminate).
  split; [by eexists|]. split; [exact Hall|]. split; [reflexivity|].
  exact (listener_knows_the_status sampleServer [CallStartHTTP; LoopRun 0]
           sampleServing (ex_intro _ "watch" eq_refl) Hall eq_refl).
Defined.

Lemma Stop_before_the_loop_runs_witness :
  status (started sampleServer) = Stopped
  /\ (Stop (StartHTTP (started sampleServer)).2).1 = None
  /\ exists p',
       steps [CallStartHTTP; CallStop; LoopRun 0] (started sampleServer) = Some p'
       /\ status p' = Running.
Proof.
  split; [reflexivity|].
  destruct (Stop_before_the_loop_runs (started sampleServer) eq_refl)
    as (_ & Hstop & p' & Hrun & Hst & _).
  split; [exact Hstop|]. exists p'. split; [exact Hrun | exact Hst].
Defined.

(** ** The gatekeeper's configuration *)

Section GatekeeperOptions.
Context {App : Type}.
Implicit Types (r : Request) (s : Run App) (next : Request -> Run App -> Run App).

(** X8: a gatekeeper made without options answers a request it does not
    accept with status 503 and nothing else: it sets the header
    [Content-Type] to the empty text, writes no body, logs the warning that
    the service is not available, and leaves the application and the rest of
    the chain alone. *)
Theorem gatekeeper_without_options_rejects_with_503 (gk : ServiceGatekeeper App)
    r next s :
  gk r (app (world s)) = false ->
  exec (serviceGatekeeper_ServeHTTP (NewServiceGatekeeper gk []).1 r) next s
  = {| world :=
         {| rw := rw (world s) ++ [RwHeaderSet "Content-Type" ""; RwWriteHeader 503];
            logged := logged (world s)
                      ++ [Warnf "api request is not accepted: service is not available"];
            app := app (world s) |};
       entered := entered s |}.
Proof.
  intros Hgk. unfold serviceGatekeeper_ServeHTTP, Branch. simpl.
  rewrite Hgk. simpl. unfold onWorld, perform. simpl. by rewrite <-app_assoc.
Qed.

(** X9: the option [ServiceGatekeeperJSONResponse], given last, leaves the
    response code, the log message and the predicate as the options before
    it set them. When the value serializes, the content type becomes
    [application/json] and the body the serialized bytes; when it does not,
    the error is logged, the content type becomes [text/plain] and the body
    an internal-error text, which is what a request that is not accepted
    then receives. *)
Theorem gatekeeper_JSON_option_falls_back_to_text {A : Type}
    (gk : ServiceGatekeeper App) (options : list (ServiceGatekeeperOpt App))
    (marshal : A -> string + string) (response : A) r next s :
  let g0 := NewServiceGatekeeper gk options in
  let g := NewServiceGatekeeper gk
             (options ++ [ServiceGatekeeperJSONResponse marshal response]) in
  responseCode g.1 = responseCode g0.1
  /\ logMessage g.1 = logMessage g0.1
  /\ gatekeeper g.1 = gatekeeper g0.1
  /\ match marshal response with
     | inl respJSON =>
         contentType g.1 = "application/json"
         /\ responseMessage g.1 = respJSON
         /\ g.2 = g0.2
     | inr e =>
         contentType g.1 = "text/plain"
         /\ responseMessage g.1 = "<internal error: response is not JSON format>"
         /\ g.2 = g0.2 ++ [Errorf ("service gatekeeper failed to serialize JSON response: "
                                   +:+ e)]
         /\ (gatekeeper g0.1 r (app (world s)) = false ->
             rw (world (exec (serviceGatekeeper_ServeHTTP g.1 r) next s))
             = rw (world s)
               ++ [RwHeaderSet "Content-Type" "text/plain";
                   RwWriteHeader (responseCode g0.1);
                   RwWrite "<internal error: response is not JSON format>"])
     end.
Proof.
  intros g0 g. subst g. rewrite NewServiceGatekeeper_snoc. fold g0.
  destruct g0 as [m l]. unfold ServiceGatekeeperJSONResponse. simpl.
  destruct (marshal response) as [respJSON|e]; simpl; split_and!; try done.
  intros Hgk. unfold serviceGatekeeper_ServeHTTP, Branch. simpl.
  rewrite Hgk. simpl. by rewrite <-!app_assoc.
Qed.

End GatekeeperOptions.

Lemma gatekeeper_without_options_rejects_with_503_witness :
  rw (world (exec (sampleGate (sampleRequest "GET" "/test/getdata")) (fun _ s => s)
               freshRun))
  = [RwHeaderSet "Content-Type" ""; RwWriteHeader 503].
Proof.
  unfold sampleGate.
  by rewrite (gatekeeper_without_options_rejects_with_503 (fun _ _ => false)
                (sampleRequest "GET" "/test/getdata") (fun _ s => s) freshRun eq_refl).
Defined.

(** ** The adapters in a chain *)

Section Adapters.
Context {App : Type}.
Implicit Types (r req : Request) (s : Run App) (n rest : Negroni App)
  (next final : Request -> Run App -> Run App).

(** X10: call counters at the head of a chain never stop a request and
    never touch it: each counter is called once, in the order of the chain
    and before anything behind it runs, and the rest of the chain then gets
    the same request, with a world in which only the application's state
    has moved. *)
Theorem call_counters_run_in_chain_order (env : MuxEnv App) (t : Tier)
    (l : list (string * serviceCallMonitor App)) rest final req s :
  runChainThen env
    (((fun e => Registered t e.1 (serviceCallMonitor_ServeHTTP e.2)) <$> l) ++ rest)
    final req s
  = runChainThen env rest final req
      {| world := onApp (fun a => foldl (fun a e => counter e.2 a) a l) (world s);
         entered := entered s ++ ((fun e => (t, e.1)) <$> l) |}.
Proof.
  revert s. induction l as [|[name m] l IH]; intros s.
  - simpl. rewrite app_nil_r. by destruct s as [[? ? ?] ?].
  - simpl fmap. rewrite <-app_comm_cons. cbn [runChainThen].
    unfold serviceCallMonitor_ServeHTTP at 1. cbn [exec].
    rewrite IH. f_equal. simpl. by rewrite <-app_assoc.
Qed.

(** X11: crash handlers at the head of a chain are deferred calls: each
    lets the request through unchanged, and runs when everything behind it
    has returned, so that they run in the reverse of the order of the chain,
    the first of the chain last. *)
Theorem crash_handlers_run_last_in_reverse_order (env : MuxEnv App) (t : Tier)
    (l : list (string * crashHandler App)) rest final req s :
  runChainThen env
    (((fun e => Registered t e.1 (crashHandler_ServeHTTP e.2)) <$> l) ++ rest)
    final req s
  = foldr (fun e acc => onWorld (crash_handler e.2) acc)
      (runChainThen env rest final req
         {| world := world s; entered := entered s ++ ((fun e => (t, e.1)) <$> l) |})
      l.
Proof.
  revert s. induction l as [|[name m] l IH]; intros s.
  - simpl. rewrite app_nil_r. by destruct s.
  - simpl fmap. rewrite <-app_comm_cons. cbn [runChainThen foldr].
    unfold crashHandler_ServeHTTP at 1. cbn [exec].
    rewrite IH. simpl. by rewrite <-app_assoc.
Qed.

Lemma through_lastWriteHeader (lrw : LoggingResponseWriter) (calls : list RwCall) :
  statusCode (through lrw calls) = lastWriteHeader (statusCode lrw) calls.
Proof.
  unfold through, lastWriteHeader. revert lrw.
  induction calls as [|c calls IH] using rev_ind; intros lrw; [done|].
  rewrite foldl_snoc, omap_app. destruct c as [k v|code|b]; simpl.
  - by rewrite app_nil_r, <-IH.
  - by rewrite last_snoc.
  - by rewrite app_nil_r, <-IH.
Qed.

(** X12: the logging middleware calls [next] once, with the request it was
    given, and does nothing itself but write two debug lines, one before and
    one after: it sends nothing to the response writer and leaves the
    application alone. The status in the closing line is the code of the
    last [WriteHeader] call the rest of the chain made, also when an earlier
    call or a write had already fixed the status the client sees, and 200
    when the rest of the chain made no such call. *)
Theorem Logger_wraps_next_and_reports_the_last_WriteHeader
    (elapsed : World App -> World App -> string) (l : logger) r next s :
  nextCalls (logger_ServeHTTP elapsed l r) next s = 1
  /\ (exists lrw text,
        ownEffects (logger_ServeHTTP elapsed l r) next s
        = [LogEff (logger_start l r); LogEff (logger_end l r lrw text)]
        /\ exec (logger_ServeHTTP elapsed l r) next s
           = onWorld (perform (LogEff (logger_end l r lrw text)))
               (next r (onWorld (perform (LogEff (logger_start l r))) s)))
  /\ level (logger_start l r) = LDebug
  /\ (forall lrw text, level (logger_end l r lrw text) = LDebug)
  /\ rw (world (exec (logger_ServeHTTP elapsed l r) next s))
     = rw (world (next r (onWorld (perform (LogEff (logger_start l r))) s)))
  /\ app (world (exec (logger_ServeHTTP elapsed l r) next s))
     = app (world (next r (onWorld (perform (LogEff (logger_start l r))) s)))
  /\ (forall calls : list RwCall,
        rw (world (next r (onWorld (perform (LogEff (logger_start l r))) s)))
        = rw (world s) ++ calls ->
        exists text,
          logged (world (exec (logger_ServeHTTP elapsed l r) next s))
          = logged (world (next r (onWorld (perform (LogEff (logger_start l r))) s)))
            ++ [logger_end l r {| statusCode := lastWriteHeader 200 calls |} text]).
Proof.
  split_and!.
  - done.
  - by eexists _, _.
  - unfold logger_start. by destruct (negb _).
  - intros lrw text. unfold logger_end. by destruct (negb _).
  - done.
  - done.
  - intros calls Hcalls. eexists. simpl. rewrite Hcalls.
    rewrite drop_app_length.
    pose proof (through_lastWriteHeader NewLoggingResponseWriter calls) as Hcode.
    destruct (through NewLoggingResponseWriter calls) as [code]. simpl in Hcode.
    by rewrite Hcode.
Qed.

End Adapters.

(** A handler that writes a body and then a status: the client has its 200
    already, the closing line says 500. *)
Example Logger_reports_a_status_the_client_never_saw :
  logged (world (exec (logger_ServeHTTP (fun _ _ => "1ms") (Logger [LoggerTag "orders"])
                         (sampleRequest "GET" "/v1/orders"))
                   (fun _ s =>
                      onWorld (perform (WriteHeader 500))
                        (onWorld (perform (Write "partial")) s))
                   freshRun))
  = [Debugf "rest api > orders, method=GET, proto=HTTP/1.1, sender=127.0.0.1:40000, agent=client";
     Debugf "rest api < orders, http=500, method=GET, sender=127.0.0.1:40000"].
Proof. by vm_compute. Qed.

(** ** Registering middleware *)

Section Tiers.
Context {App : Type}.
Implicit Types (f : gorillaMuxFactory App) (route : Route App).

Lemma names_of_alwaysChain (o : RangeOrder) f :
  omap nameOf (alwaysChain o f) = (rangeOf o OverAlways (always f)).*1.
Proof.
  rewrite alwaysChain_fmap.
  induction (rangeOf o OverAlways (always f)) as [|[name mw] l IH]; [done|].
  simpl. f_equal. apply IH.
Qed.

(** X14: the always chain holds one handler for each name registered with
    [Always], whatever the order [range] visits the map in: registering a
    name again replaces its middleware and adds nothing, and leaves the
    handlers of the other names as they were. *)
Theorem Always_keeps_one_handler_per_name (o : RangeOrder) f (name : string)
    (mw : Middleware App) :
  length (alwaysChain o f) = size (always f)
  /\ NoDup (omap nameOf (alwaysChain o f))
  /\ Registered TAlways name mw ∈ alwaysChain o (Always name mw f)
  /\ (forall x, x ∈ alwaysChain o (Always name mw f) -> nameOf x = Some name ->
        x = Registered TAlways name mw)
  /\ (forall x, nameOf x <> Some name ->
        x ∈ alwaysChain o (Always name mw f) <-> x ∈ alwaysChain o f)
  /\ (is_Some (always f !! name) ->
      length (alwaysChain o (Always name mw f)) = length (alwaysChain o f)).
Proof.
  assert (forall g : gorillaMuxFactory App, length (alwaysChain o g) = size (always g))
    as Hlen.
  { intros g. rewrite alwaysChain_fmap, length_fmap, (rangeOf_perm o).
    apply length_map_to_list. }
  split_and!.
  - apply Hlen.
  - rewrite names_of_alwaysChain, (rangeOf_perm o). apply NoDup_fst_map_to_list.
  - apply alwaysChain_elem. exists name, mw. split; [done|].
    unfold Always. simpl. by rewrite lookup_insert_eq.
  - intros x Hin Hname. apply alwaysChain_elem in Hin as (k & m & -> & Hk).
    simpl in Hname. simplify_eq. unfold Always in Hk. simpl in Hk.
    rewrite lookup_insert_eq in Hk. by simplify_eq.
  - intros x Hname. rewrite !alwaysChain_elem. unfold Always. simpl.
    split; intros (k & m & -> & Hk); exists k, m; (split; [done|]).
    + rewrite lookup_insert_ne in Hk; [done|]. intros ->. by apply Hname.
    + rewrite lookup_insert_ne; [done|]. intros ->. by apply Hname.
  - intros [m Hm]. rewrite !Hlen. unfold Always. simpl.
    rewrite map_size_insert. by rewrite Hm.
Qed.

Lemma specDefaults_elem (o : RangeOrder) (site : RangeSite) f (exclude : list string)
    (name : string) (mw : Middleware App) :
  defaults f !! name = Some mw -> name ∉ exclude ->
  Registered TDefault name mw ∈ specDefaults o site f exclude.
Proof.
  intros Hname Hex. unfold specDefaults. apply list_elem_of_fmap.
  exists (name, mw). split; [done|].
  apply list_elem_of_filter. split; [done|].
  rewrite (rangeOf_perm o). by apply elem_of_map_to_list.
Qed.

(** X15: a name registered both with [Always] and with [Default] is applied
    twice: the chain of every route that does not exclude the name holds
    the always-tier middleware of that name and, behind it, the
    default-tier one. *)
Theorem name_in_always_and_default_is_applied_twice (o : RangeOrder) (h : Store) f
    (routeMap : gmap string (list (Route App))) (key : string)
    (routes : list (Route App)) (i : nat) route (name : string)
    (a d : Middleware App) :
  always f !! name = Some a ->
  defaults f !! name = Some d ->
  routeMap !! key = Some routes ->
  routes !! i = Some route ->
  name ∉ elems h (Exclude route) ->
  exists pr rt n1 n2 n3,
    subrouters (made (Make o h f routeMap)) !! key = Some pr
    /\ rt ∈ prRoutes pr
    /\ tpl rt = (addRegexpMatcher (addRegexpMatcher "" ("/" +:+ key)).1
                   ("/" +:+ Path route)).1
    /\ target rt
       = PChain (n1 ++ Registered TAlways name a :: n2
                    ++ Registered TDefault name d :: n3).
Proof.
  intros Ha Hd Hkey Hroute Hex.
  destruct (Make_spec o h f routeMap) as (_ & _ & _ & Hsubs & _).
  assert (Registered TAlways name a ∈ alwaysChain o f) as Hin1.
  { apply alwaysChain_elem. by exists name, a. }
  pose proof (specDefaults_elem o (OverDefaults key i) f _ _ _ Hd Hex) as Hin2.
  apply list_elem_of_split in Hin1 as (n1 & n2 & Hn1).
  apply list_elem_of_split in Hin2 as (m1 & m2 & Hn2).
  eexists _, _, n1, (n2 ++ m1), _. split_and!.
  - by rewrite Hsubs, Hkey.
  - by apply chain_route_of_prefixRouter.
  - done.
  - cbn [target]. rewrite Hn1, Hn2. f_equal.
    rewrite <-!app_assoc. simpl. rewrite <-?app_assoc. reflexivity.
Qed.

End Tiers.

Lemma name_in_always_and_default_is_applied_twice_witness :
  exists pr,
    subrouters
      (made (Make keyOrder sampleStore
               (Default "count" sampleCount (Always "count" sampleCount emptyFactory))
               twoRoutes)) !! "v1" = Some pr
    /\ chainNames pr = [ ["count"; "count"]; ["count"; "count"] ].
Proof.
  destruct (name_in_always_and_default_is_applied_twice keyOrder sampleStore
              (Default "count" sampleCount (Always "count" sampleCount emptyFactory))
              twoRoutes "v1"
              [ {| Name := "Status"; Method := "GET"; Path := "status";
                   Handler := sampleHandler "status";
                   Include := nilSlice; Exclude := nilSlice |};
                {| Name := "Version"; Method := "GET"; Path := "version";
                   Handler := sampleHandler "version";
                   Include := nilSlice; Exclude := nilSlice |} ]
              0
              {| Name := "Status"; Method := "GET"; Path := "status";
                 Handler := sampleHandler "status";
                 Include := nilSlice; Exclude := nilSlice |}
              "count" sampleCount sampleCount
              eq_refl eq_refl eq_refl eq_refl)
    as (pr & _ & _ & _ & _ & Hpr & _).
  { vm_compute. apply not_elem_of_nil. }
  exists pr. split; [exact Hpr|].
  vm_compute in Hpr. injection Hpr as <-. vm_compute. reflexivity.
Defined.

(** ** Normalizing twice, and in parts *)

Section UpdateRoutesAgain.
Context {App : Type}.
Implicit Types (routes : list (Route App)).

(** X16: [updateRoutes] gives every route a method and changes nothing
    else, so that normalizing a second time changes nothing, routes that
    all have a method come back as they were, and a table can be normalized
    in parts. *)
Theorem updateRoutes_is_idempotent routes (routes' : list (Route App)) :
  updateRoutes (updateRoutes routes) = updateRoutes routes
  /\ Forall (fun r => Method r <> "") (updateRoutes routes)
  /\ (Forall (fun r => Method r <> "") routes -> updateRoutes routes = routes)
  /\ updateRoutes (routes ++ routes') = updateRoutes routes ++ updateRoutes routes'
  /\ updateRoutes (@nil (Route App)) = [].
Proof.
  rewrite !updateRoutes_fmap.
  assert (forall r : Route App, Method (specNormalized r) <> "") as Hm.
  { intros r. unfold specNormalized. simpl.
    destruct (String.eqb (Method r) "") eqn:Heq; [done|].
    by apply String.eqb_neq in Heq. }
  assert (forall r : Route App, Method r <> "" -> specNormalized r = r) as Hid.
  { intros [n m p hd inc exc] Hne. unfold specNormalized. simpl in *.
    apply String.eqb_neq in Hne. by rewrite Hne. }
  split_and!.
  - rewrite <-list_fmap_compose. apply list_fmap_ext. intros _ r _. simpl.
    by apply Hid.
  - apply Forall_fmap, Forall_true. intros r. apply Hm.
  - intros Hall. rewrite <-(list_fmap_id routes) at 2.
    apply Forall_fmap_ext_1. eapply Forall_impl; [exact Hall|]. apply Hid.
  - by rewrite fmap_app.
  - done.
Qed.

End UpdateRoutesAgain.

(** ** An empty route table *)

Section NoRoutes.
Context {App : Type}.

Lemma rangeOf_empty (o : RangeOrder) (site : RangeSite) {V : Type} :
  rangeOf o site (∅ : gmap string V) = [].
Proof.
  apply Permutation_nil_r. rewrite (rangeOf_perm o). by rewrite map_to_list_empty.
Qed.


End NoRoutes.

(** ** Requests no route matches *)

Section NotFound.
Context {App : Type}.
Implicit Types (n : Negroni App) (s : Run App) (req : Request).

Lemma exec_ext (p : Prog App) (next next' : Request -> Run App -> Run App) s :
  (forall r s', next r s' = next' r s') -> exec p next s = exec p next' s.
Proof.
  intros Hext. revert s.
  induction p as [|e k IH|r k IH|k IH]; intros s; simpl; auto.
  by rewrite Hext.
Qed.

Lemma runChainThen_app (env : MuxEnv App) (n1 n2 : Negroni App)
    (final : Request -> Run App -> Run App) req s :
  runChainThen env (n1 ++ n2) final req s
  = runChainThen env n1 (runChainThen env n2 final) req s.
Proof.
  revert req s. induction n1 as [|[t name mw|hf|leafs] n1 IH]; intros req s; simpl; auto.
  apply exec_ext. intros r s'. apply IH.
Qed.

Lemma matchPrefixRoutes_NotFoundChain (env : MuxEnv App)
    (routes : list (MuxRoute (PrefixTarget App))) req n :
  matchPrefixRoutes env routes req <> Some (NotFoundChain n).
Proof.
  induction routes as [|rt routes IH]; simpl; [done|].
  destruct (routeMatches env rt req); [|done].
  destruct (target rt) as [hf|leafs|c]; [done| |done].
  by destruct (matchLeafs env leafs req).
Qed.

Lemma resolvePrefix_NotFoundChain (env : MuxEnv App) (pr : PrefixRouter App) req n :
  resolvePrefix env pr req = Some (NotFoundChain n) -> prNotFound pr = Some n.
Proof.
  unfold resolvePrefix.
  destruct (matchPrefixRoutes env (prRoutes pr) req) as [x|] eqn:Hm.
  - intros [= ->]. by apply matchPrefixRoutes_NotFoundChain in Hm.
  - destruct (prNotFound pr); [|done]. simpl. by intros [= ->].
Qed.

Lemma matchTopRoutes_NotFoundChain (env : MuxEnv App)
    (subs : gmap string (PrefixRouter App))
    (routes : list (MuxRoute (TopTarget App))) req n :
  matchTopRoutes env subs routes req = Some (NotFoundChain n) ->
  exists key pr, subs !! key = Some pr /\ prNotFound pr = Some n.
Proof.
  induction routes as [|rt routes IH]; simpl; [done|].
  destruct (routeMatches env rt req); [|done].
  destruct (target rt) as [key|c key|strip dir]; [|done..].
  destruct (subs !! key) as [pr|] eqn:Hkey; simpl; [|done].
  destruct (resolvePrefix env pr req) as [x|] eqn:Hres; [|done].
  intros [= ->]. exists key, pr. split; [done|].
  by apply resolvePrefix_NotFoundChain in Hres.
Qed.

Lemma NotFoundChain_of_Make (o : RangeOrder) (env : MuxEnv App) (h : Store)
    (f : gorillaMuxFactory App) (routeMap : gmap string (list (Route App))) req n :
  resolve env (made (Make o h f routeMap)) req = NotFoundChain n ->
  n = alwaysChain o f ++ [WrapFunc NotFoundHandler].
Proof.
  destruct (Make_spec o h f routeMap) as (_ & _ & Hnf & Hsubs & _).
  unfold resolve.
  destruct (matchTopRoutes _ _ _ req) as [x|] eqn:Hm.
  - intros ->. apply matchTopRoutes_NotFoundChain in Hm as (key & pr & Hkey & Hpr).
    rewrite Hsubs in Hkey. destruct (routeMap !! key); simpl in Hkey; [|done].
    simplify_eq. simpl in Hpr. by simplify_eq.
  - rewrite Hnf. destruct (rangeOf o OverRouteMap routeMap); [done|].
    by intros [= <-].
Qed.

(** X18: a request that ends at a not-found handler of the router [Make]
    returns is answered by the always chain around [NotFoundHandler]: the
    always-tier middleware run, and when they yield, [NotFoundHandler]
    writes status 404 and the JSON text of the error, and logs a debug line.
    With an empty always tier that is all that happens. *)
Theorem not_found_runs_the_always_chain_then_NotFoundHandler (o : RangeOrder)
    (env : MuxEnv App) (h : Store) (f : gorillaMuxFactory App)
    (routeMap : gmap string (list (Route App))) req s n :
  resolve env (made (Make o h f routeMap)) req = NotFoundChain n ->
  n = alwaysChain o f ++ [WrapFunc NotFoundHandler]
  /\ ServeHTTP env (made (Make o h f routeMap)) req s
     = runChainThen env (alwaysChain o f)
         (fun r s' => onWorld (NotFoundHandler r) s') req s
  /\ (always f = ∅ ->
      ServeHTTP env (made (Make o h f routeMap)) req s = onWorld (NotFoundHandler req) s
      /\ rw (world (ServeHTTP env (made (Make o h f routeMap)) req s))
         = rw (world s)
           ++ [RwWriteHeader 404;
               RwWrite ("{" +:+ quoted "Error" +:+ ": " +:+ quoted "API Not Supported"
                        +:+ "}")]
      /\ app (world (ServeHTTP env (made (Make o h f routeMap)) req s)) = app (world s)).
Proof.
  intros Hres. pose proof (NotFoundChain_of_Make _ _ _ _ _ _ _ Hres) as ->.
  assert (ServeHTTP env (made (Make o h f routeMap)) req s
          = runChainThen env (alwaysChain o f)
              (fun r s' => onWorld (NotFoundHandler r) s') req s) as Hserve.
  { unfold ServeHTTP. rewrite Hres. unfold runChain. by rewrite runChainThen_app. }
  split_and!; [done..|].
  intros Hempty. rewrite Hserve. unfold alwaysChain.
  rewrite Hempty, rangeOf_empty. simpl. split_and!; [done| |done].
  by rewrite <-app_assoc.
Qed.

End NotFound.

Lemma not_found_runs_the_always_chain_then_NotFoundHandler_witness :
  resolve literalMux (made (Make keyOrder sampleStore emptyFactory sampleTable))
    (sampleRequest "GET" "/nowhere")
  = NotFoundChain [WrapFunc NotFoundHandler]
  /\ rw (world (ServeHTTP literalMux
                  (made (Make keyOrder sampleStore emptyFactory sampleTable))
                  (sampleRequest "GET" "/nowhere") freshRun))
     = rw (world freshRun)
       ++ [RwWriteHeader 404;
           RwWrite ("{" +:+ quoted "Error" +:+ ": " +:+ quoted "API Not Supported"
                    +:+ "}")].
Proof.
  assert (resolve literalMux (made (Make keyOrder sampleStore emptyFactory sampleTable))
            (sampleRequest "GET" "/nowhere")
          = NotFoundChain [WrapFunc NotFoundHandler]) as Hres by (by vm_compute).
  split; [exact Hres|].
  destruct (not_found_runs_the_always_chain_then_NotFoundHandler keyOrder literalMux
              sampleStore emptyFactory sampleTable (sampleRequest "GET" "/nowhere")
              freshRun _ Hres) as (_ & _ & Hempty).
  destruct (Hempty eq_refl) as (_ & Hrw & _). exact Hrw.
Defined.

(** ** The listing endpoint and the file server *)

Section Listing.
Context {App : Type}.
Implicit Types (route : Route App) (req : Request).

(** X19: a route whose path is empty can never be reached. Its template is
    that of the listing endpoint, which is registered ahead of every route
    and for every method: whenever the route bound to such a route's chain
    matches a request, the router of the prefix hands the request to
    [APIListingHandler], and neither the chain nor the route's handler
    runs. *)
Theorem route_with_empty_path_is_shadowed_by_the_listing (o : RangeOrder)
    (env : MuxEnv App) (h : Store) (f : gorillaMuxFactory App) (key : string)
    (routes : list (Route App)) (i : nat) route req :
  routes !! i = Some route ->
  Path route = "" ->
  exists rt,
    rt ∈ prRoutes (prefixRouterOf o h f key routes)
    /\ target rt
       = PChain (alwaysChain o f
                   ++ specDefaults o (OverDefaults key i) f (elems h (Exclude route))
                   ++ specRequested f (elems h (Exclude route)) (elems h (Include route))
                   ++ [WrapSubrouter
                         (subrouterOf (addRegexpMatcher "" ("/" +:+ key)).1
                            (specNormalized route)).2])
    /\ (routeMatches env rt req = true ->
        resolvePrefix env (prefixRouterOf o h f key routes) req
        = Some (PlainFunc APIListingHandler)).
Proof.
  intros Hroute Hpath.
  pose proof (chain_route_of_prefixRouter o h f key routes i route Hroute) as Hin.
  eexists. split; [exact Hin|]. split; [done|].
  unfold routeMatches. cbn [kind tpl err methods]. rewrite Hpath.
  change ("/" +:+ "") with "/".
  intros Hmatch. apply andb_true_iff in Hmatch as [Hmatch _].
  unfold resolvePrefix, prefixRouterOf. cbn [prRoutes matchPrefixRoutes].
  unfold routeMatches, listingRoute. cbn [kind tpl err methods target].
  rewrite Hmatch. by rewrite bool_decide_eq_true_2.
Qed.

Lemma fileRoutesOf_elem (route : Route App) (rt : MuxRoute (TopTarget App)) :
  rt ∈ fileRoutesOf route
  <-> Name route = "Apis"
      /\ rt = {| kind := PathPrefix; tpl := "/api/"; methods := []; routeName := "";
                 target := TFileServer "/api/" "/milkyway/swagger-ui/"; err := None |}.
Proof.
  unfold fileRoutesOf. destruct (String.eqb (Name route) "Apis") eqn:Hname.
  - apply String.eqb_eq in Hname. rewrite list_elem_of_singleton.
    split; [by intros -> | by intros [_ ->]].
  - apply String.eqb_neq in Hname. split; [by intros ?%elem_of_nil | by intros [? _]].
Qed.

(** X20: the router [Make] returns serves the static files of
    [/milkyway/swagger-ui/] under [/api/] exactly when some route of the
    table is named [Apis], whatever prefix that route is listed under and
    whatever its path, method and handler are. The file server is a route of
    the top router, outside every prefix and outside the always chain. *)
Theorem file_server_is_mounted_for_a_route_named_Apis (o : RangeOrder) (h : Store)
    (f : gorillaMuxFactory App) (routeMap : gmap string (list (Route App))) :
  ((exists key routes route,
      routeMap !! key = Some routes /\ route ∈ routes /\ Name route = "Apis")
   <-> {| kind := PathPrefix; tpl := "/api/"; methods := []; routeName := "";
          target := TFileServer "/api/" "/milkyway/swagger-ui/"; err := None |}
         ∈ topRoutes (made (Make o h f routeMap)))
  /\ (forall rt strip dir,
        rt ∈ topRoutes (made (Make o h f routeMap)) ->
        target rt = TFileServer strip dir ->
        kind rt = PathPrefix /\ tpl rt = "/api/" /\ strip = "/api/"
        /\ dir = "/milkyway/swagger-ui/" /\ methods rt = [] /\ err rt = None).
Proof.
  destruct (Make_spec o h f routeMap) as (-> & _).
  assert (forall rt : MuxRoute (TopTarget App),
            rt ∈ (rangeOf o OverRouteMap routeMap ≫= topRoutesOf o f) ->
            (exists strip dir, target rt = TFileServer strip dir) ->
            exists key routes route,
              routeMap !! key = Some routes /\ route ∈ routes /\ rt ∈ fileRoutesOf route)
    as Hinv.
  { intros rt Hin (strip & dir & Htarget).
    apply list_elem_of_bind in Hin as ([key routes] & Hin & Hentry).
    rewrite (rangeOf_perm o) in Hentry. apply elem_of_map_to_list in Hentry.
    unfold topRoutesOf in Hin. simpl in Hin.
    rewrite !elem_of_cons in Hin. destruct Hin as [->|[->|Hin]]; [done..|].
    apply list_elem_of_bind in Hin as (r2 & Hin & Hr2).
    rewrite updateRoutes_fmap in Hr2. apply list_elem_of_fmap in Hr2 as (route & -> & Hr).
    exists key, routes, route. split_and!; [done..|].
    by unfold fileRoutesOf in *. }
  split.
  - split.
    + intros (key & routes & route & Hkey & Hroute & Hname).
      apply list_elem_of_bind. exists (key, routes). split.
      * unfold topRoutesOf. simpl. rewrite !elem_of_cons. right; right.
        apply list_elem_of_bind. exists (specNormalized route). split.
        -- apply fileRoutesOf_elem. by split.
        -- rewrite updateRoutes_fmap. by apply list_elem_of_fmap_2.
      * rewrite (rangeOf_perm o). by apply elem_of_map_to_list.
    + intros Hin. apply Hinv in Hin as (key & routes & route & ? & ? & Hrt);
        [|by eexists _, _].
      apply fileRoutesOf_elem in Hrt as [? _]. by exists key, routes, route.
  - intros rt strip dir Hin Htarget.
    apply Hinv in Hin as (key & routes & route & _ & _ & Hrt); [|by eexists _, _].
    apply fileRoutesOf_elem in Hrt as [_ ->]. simpl in Htarget. by simplify_eq.
Qed.

End Listing.

Lemma route_with_empty_path_is_shadowed_by_the_listing_witness :
  resolvePrefix literalMux
    (prefixRouterOf keyOrder ∅ emptyFactory "v1"
       [ {| Name := "Root"; Method := "GET"; Path := "";
            Handler := sampleHandler "root";
            Include := nilSlice; Exclude := nilSlice |} ])
    (sampleRequest "GET" "/v1/")
  = Some (PlainFunc APIListingHandler).
Proof.
  destruct (route_with_empty_path_is_shadowed_by_the_listing keyOrder literalMux ∅
              emptyFactory "v1"
              [ {| Name := "Root"; Method := "GET"; Path := "";
                   Handler := sampleHandler "root";
                   Include := nilSlice; Exclude := nilSlice |} ]
              0
              {| Name := "Root"; Method := "GET"; Path := "";
                 Handler := sampleHandler "root";
                 Include := nilSlice; Exclude := nilSlice |}
              (sampleRequest "GET" "/v1/") eq_refl eq_refl)
    as (rt & Hin & Htarget & Hmatch).
  apply Hmatch.
  vm_compute in Hin.
  apply elem_of_cons in Hin as [Hrt|Hin]; [by rewrite Hrt in Htarget|].
  apply elem_of_cons in Hin as [Hrt|Hin]; [by rewrite Hrt in Htarget|].
  apply elem_of_cons in Hin as [Hrt|Hin]; [by rewrite Hrt|].
  by apply elem_of_nil in Hin.
Defined.

(** ** What the order of [range] can and cannot change *)

Section Orders.
Context {App : Type}.
Implicit Types (f : gorillaMuxFactory App) (route : Route App).

(** X21: the order in which [range] visits the default tier changes
    nothing of a route's chain but the order among its default-tier
    middleware: under two orders the chains hold the same default-tier
    middleware, each once, followed by the same requested middleware in the
    same order and the same terminal handler, and the same lines are
    logged. *)
Theorem range_order_only_permutes_the_default_tier (o o' : RangeOrder)
    (site site' : RangeSite) (h : Store) f route
    (leafs : list (MuxRoute (HandlerFunc App))) (out : list LogLine) :
  exists ds ds' rest,
    (middlewaresOf o site h f route leafs out).1 = ds ++ rest
    /\ (middlewaresOf o' site' h f route leafs out).1 = ds' ++ rest
    /\ ds ≡ₚ ds'
    /\ NoDup (omap nameOf ds)
    /\ (forall x, x ∈ ds <->
          exists name mw, x = Registered TDefault name mw
                          /\ defaults f !! name = Some mw
                          /\ name ∉ elems h (Exclude route))
    /\ (middlewaresOf o site h f route leafs out).2
       = (middlewaresOf o' site' h f route leafs out).2.
Proof.
  rewrite !middlewaresOf_spec. cbn [fst snd].
  eexists _, _, _. split_and!; [reflexivity..| | | |done].
  - unfold specDefaults. by rewrite !(rangeOf_perm _ _ _ (defaults f)).
  - unfold specDefaults.
    assert (forall l : list (string * Middleware App),
              omap nameOf ((fun e => Registered TDefault e.1 e.2) <$> l) = l.*1) as ->.
    { induction l as [|[name mw] l IH]; [done|]. simpl. f_equal. apply IH. }
    apply (NoDup_fmap_2_strong fst).
    + intros [k1 m1] [k2 m2] Hin1 Hin2 Hk. simpl in Hk. subst k2.
      apply list_elem_of_filter in Hin1 as [_ Hin1].
      apply list_elem_of_filter in Hin2 as [_ Hin2].
      rewrite (rangeOf_perm o) in Hin1, Hin2.
      apply elem_of_map_to_list in Hin1, Hin2. congruence.
    + apply NoDup_filter. rewrite (rangeOf_perm o). apply NoDup_map_to_list.
  - intros x. unfold specDefaults. rewrite list_elem_of_fmap. split.
    + intros ([name mw] & -> & Hin). apply list_elem_of_filter in Hin as [Hex Hin].
      rewrite (rangeOf_perm o) in Hin. apply elem_of_map_to_list in Hin.
      by exists name, mw.
    + intros (name & mw & -> & Hd & Hex). exists (name, mw). split; [done|].
      apply list_elem_of_filter. split; [done|].
      rewrite (rangeOf_perm o). by apply elem_of_map_to_list.
Qed.

Lemma names_of_specRequested f (exclude include : list string) :
  omap nameOf (specRequested f exclude include)
  = filter (fun name => (name ∉ exclude)
                        /\ always f !! name = None
                        /\ defaults f !! name = None
                        /\ is_Some (available f !! name)) include.
Proof.
  unfold specRequested. induction include as [|name include IH]; [done|].
  simpl. unfold specVerdict at 1.
  destruct (decide (name ∈ exclude)) as [Hex|Hex].
  { rewrite filter_cons_False by (by intros [? _]). apply IH. }
  destruct (decide (is_Some (always f !! name))) as [Ha|Ha].
  { rewrite filter_cons_False; [apply IH|]. intros (_ & Hn & _).
    rewrite Hn in Ha. by destruct Ha. }
  destruct (decide (is_Some (defaults f !! name))) as [Hd|Hd].
  { rewrite filter_cons_False; [apply IH|]. intros (_ & _ & Hn & _).
    rewrite Hn in Hd. by destruct Hd. }
  destruct (available f !! name) as [mw|] eqn:Hav.
  - rewrite filter_cons_True.
    + simpl. f_equal. apply IH.
    + split_and!; [done| | |by eexists].
      * by apply eq_None_not_Some.
      * by apply eq_None_not_Some.
  - rewrite filter_cons_False; [apply IH|]. intros (_ & _ & _ & [? ?]). congruence.
Qed.

(** X22: the requested middleware of a route's chain are, name by name,
    the names of [Include] that are not excluded, not in the always or the
    default tier, and registered as available, in the order of [Include]
    and as often as [Include] lists them: a name listed twice is applied
    twice. *)
Theorem requested_middleware_follow_Include (o : RangeOrder) (site : RangeSite)
    (h : Store) f route (leafs : list (MuxRoute (HandlerFunc App)))
    (out : list LogLine) :
  omap nameOf (middlewaresOf o site h f route leafs out).1
  = filter (fun name => name ∉ elems h (Exclude route))
      (rangeOf o site (defaults f)).*1
    ++ filter (fun name => (name ∉ elems h (Exclude route))
                           /\ always f !! name = None
                           /\ defaults f !! name = None
                           /\ is_Some (available f !! name))
         (elems h (Include route)).
Proof.
  rewrite middlewaresOf_spec. cbn [fst].
  rewrite !omap_app. simpl. rewrite app_nil_r. f_equal.
  - unfold specDefaults.
    induction (rangeOf o site (defaults f)) as [|[name mw] l IH]; [done|].
    rewrite fmap_cons. simpl fst.
    destruct (decide (name ∉ elems h (Exclude route))) as [Hex|Hex].
    + rewrite filter_cons_True by done.
      rewrite (filter_cons_True _ name) by done. simpl. f_equal. apply IH.
    + rewrite filter_cons_False by done.
      rewrite (filter_cons_False _ name) by done. apply IH.
  - apply names_of_specRequested.
Qed.

End Orders.

(** ** Where a request can end *)

Section Outcomes.
Context {App : Type}.
Implicit Types (req : Request) (route : Route App).

Lemma matchPrefixRoutes_Some (env : MuxEnv App)
    (routes : list (MuxRoute (PrefixTarget App))) req (x : Resolved App) :
  matchPrefixRoutes env routes req = Some x ->
  exists rt,
    rt ∈ routes
    /\ routeMatches env rt req = true
    /\ match target rt with
       | PFunc hf => x = PlainFunc hf
       | PChain n => x = RouteChain n
       | PSubrouter leafs => exists hf, x = PlainFunc hf
       end.
Proof.
  induction routes as [|rt routes IH]; simpl; [done|].
  assert (matchPrefixRoutes env routes req = Some x ->
          exists rt0,
            rt0 ∈ rt :: routes
            /\ routeMatches env rt0 req = true
            /\ match target rt0 with
               | PFunc hf => x = PlainFunc hf
               | PChain n => x = RouteChain n
               | PSubrouter leafs => exists hf, x = PlainFunc hf
               end) as Hrest.
  { intros Hm. destruct (IH Hm) as (rt0 & Hin & Hrt0). exists rt0.
    split; [by apply elem_of_cons; right | done]. }
  destruct (routeMatches env rt req) eqn:Hmatch; [|done].
  destruct (target rt) as [hf|leafs|n] eqn:Htarget.
  - intros [= <-]. exists rt. split_and!; [by apply elem_of_cons; left|done|].
    by rewrite Htarget.
  - destruct (matchLeafs env leafs req) as [hf|] eqn:Hleaf; [|done].
    intros [= <-]. exists rt. split_and!; [by apply elem_of_cons; left|done|].
    rewrite Htarget. by exists hf.
  - intros [= <-]. exists rt. split_and!; [by apply elem_of_cons; left|done|].
    by rewrite Htarget.
Qed.

(** The routes of a per-prefix router: the listing endpoint; for each route
    of the table its own subrouter, under the template of the listing
    endpoint; and the route bound to its chain. *)
Lemma prRoutes_of_prefixRouterOf (o : RangeOrder) (h : Store) (f : gorillaMuxFactory App)
    (key : string) (routes : list (Route App)) (rt : MuxRoute (PrefixTarget App)) :
  rt ∈ prRoutes (prefixRouterOf o h f key routes) ->
  rt = listingRoute (addRegexpMatcher "" ("/" +:+ key)).1
  \/ exists i route,
       routes !! i = Some route
       /\ ((exists leafs,
              rt = {| kind := PathExact;
                      tpl := (addRegexpMatcher (addRegexpMatcher "" ("/" +:+ key)).1 "/").1;
                      methods := []; routeName := ""; target := PSubrouter leafs;
                      err := (addRegexpMatcher (addRegexpMatcher "" ("/" +:+ key)).1
                                "/").2 |})
           \/ target rt
              = PChain (alwaysChain o f
                          ++ specDefaults o (OverDefaults key i) f (elems h (Exclude route))
                          ++ specRequested f (elems h (Exclude route))
                               (elems h (Include route))
                          ++ [WrapSubrouter
                                (subrouterOf (addRegexpMatcher "" ("/" +:+ key)).1
                                   (specNormalized route)).2])).
Proof.
  unfold prefixRouterOf. cbn [prRoutes]. intros Hin.
  apply elem_of_cons in Hin as [->|Hin]; [by left|]. right.
  apply list_elem_of_join in Hin as (l & Hin & Hl).
  apply elem_of_lookup_imap in Hl as (i & r2 & -> & Hr2).
  rewrite updateRoutes_fmap, list_lookup_fmap in Hr2.
  destruct (routes !! i) as [route|] eqn:Hroute; [|done]. simpl in Hr2. simplify_eq.
  exists i, route. split; [done|].
  unfold prefixRoutesOf in Hin.
  assert ((subrouterOf (addRegexpMatcher "" ("/" +:+ key)).1 (specNormalized route)).1
          = addRegexpMatcher (addRegexpMatcher "" ("/" +:+ key)).1 "/") as Hsub.
  { unfold subrouterOf.
    destruct (addRegexpMatcher (addRegexpMatcher "" ("/" +:+ key)).1 "/") as [t e].
    by destruct (addRegexpMatcher t _). }
  destruct (subrouterOf _ (specNormalized route)) as [[subTpl subErr] leafs].
  cbn [fst snd Path Include Exclude specNormalized] in Hin, Hsub.
  destruct (addRegexpMatcher _ ("/" +:+ Path route)) as [routeTpl routeErr].
  rewrite middlewaresOf_spec in Hin.
  cbn [fst snd Path Include Exclude specNormalized] in Hin.
  apply elem_of_cons in Hin as [->|Hin].
  - left. exists leafs. by rewrite <-Hsub.
  - apply list_elem_of_singleton in Hin as ->. by right.
Qed.

(** What a per-prefix router hands a request to: the chain built for a
    route, the not-found chain, or the listing endpoint. The subrouter of a
    route stands behind the listing endpoint under the same template, and
    is never reached from here. *)
Lemma resolvePrefix_of_prefixRouterOf (o : RangeOrder) (env : MuxEnv App) (h : Store)
    (f : gorillaMuxFactory App) (key : string) (routes : list (Route App)) req
    (x : Resolved App) :
  resolvePrefix env (prefixRouterOf o h f key routes) req = Some x ->
  match x with
  | RouteChain n =>
      exists i route,
        routes !! i = Some route
        /\ n = alwaysChain o f
                 ++ specDefaults o (OverDefaults key i) f (elems h (Exclude route))
                 ++ specRequested f (elems h (Exclude route)) (elems h (Include route))
                 ++ [WrapSubrouter
                       (subrouterOf (addRegexpMatcher "" ("/" +:+ key)).1
                          (specNormalized route)).2]
  | NotFoundChain n => n = alwaysChain o f ++ [WrapFunc NotFoundHandler]
  | PlainFunc hf => hf = APIListingHandler
  | _ => False
  end.
Proof.
  unfold resolvePrefix.
  destruct (matchPrefixRoutes env _ req) as [y|] eqn:Hm.
  - intros [= <-]. pose proof Hm as Hm'.
    apply matchPrefixRoutes_Some in Hm' as (rt & Hin & Hmatch & Hrt).
    apply prRoutes_of_prefixRouterOf in Hin
      as [->|(i & route & Hroute & [[leafs ->]|Ht])].
    + unfold listingRoute in Hrt. cbn [target] in Hrt. by subst y.
    + unfold prefixRouterOf in Hm. cbn [prRoutes matchPrefixRoutes] in Hm.
      assert (routeMatches env
                (listingRoute (App := App) (addRegexpMatcher "" ("/" +:+ key)).1) req
              = true) as Hlisting by exact Hmatch.
      rewrite Hlisting in Hm. unfold listingRoute in Hm. cbn [target] in Hm.
      by simplify_eq.
    + rewrite Ht in Hrt. subst y. by exists i, route.
  - simpl. by intros [= <-].
Qed.

Lemma matchTopRoutes_Some (env : MuxEnv App) (subs : gmap string (PrefixRouter App))
    (routes : list (MuxRoute (TopTarget App))) req (x : Resolved App) :
  matchTopRoutes env subs routes req = Some x ->
  exists rt,
    rt ∈ routes
    /\ routeMatches env rt req = true
    /\ match target rt with
       | TSubrouter k =>
           exists pr, subs !! k = Some pr /\ resolvePrefix env pr req = Some x
       | TAlwaysWrap n k => x = AlwaysThenRouter n k
       | TFileServer strip dir => x = FileServer strip dir
       end.
Proof.
  induction routes as [|rt routes IH]; simpl; [done|].
  assert (matchTopRoutes env subs routes req = Some x ->
          exists rt0,
            rt0 ∈ rt :: routes
            /\ routeMatches env rt0 req = true
            /\ match target rt0 with
               | TSubrouter k =>
                   exists pr, subs !! k = Some pr /\ resolvePrefix env pr req = Some x
               | TAlwaysWrap n k => x = AlwaysThenRouter n k
               | TFileServer strip dir => x = FileServer strip dir
               end) as Hrest.
  { intros Hm. destruct (IH Hm) as (rt0 & Hin & Hrt0). exists rt0.
    split; [by apply elem_of_cons; right | done]. }
  destruct (routeMatches env rt req) eqn:Hmatch; [|done].
  destruct (target rt) as [k|n k|strip dir] eqn:Htarget.
  - destruct (subs !! k) as [pr|] eqn:Hk; simpl; [|done].
    destruct (resolvePrefix env pr req) as [y|] eqn:Hres; [|done].
    intros [= <-]. exists rt. split_and!; [by apply elem_of_cons; left|done|].
    rewrite Htarget. by exists pr.
  - intros [= <-]. exists rt. split_and!; [by apply elem_of_cons; left|done|].
    by rewrite Htarget.
  - intros [= <-]. exists rt. split_and!; [by apply elem_of_cons; left|done|].
    by rewrite Htarget.
Qed.


(** X24: the route [Make] registers for the bare prefix, the always chain
    around the router of the prefix, is dead for every prefix that starts
    with another letter than a slash (as the prefixes of the repository's
    tables do): mux refuses its template, the route matches no request, no
    request is ever handed to the always chain around a router, and [Make]
    still returns no error. *)
Theorem bare_prefix_route_never_matches (o : RangeOrder) (env : MuxEnv App)
    (h : Store) (f : gorillaMuxFactory App)
    (routeMap : gmap string (list (Route App))) req :
  (forall key, is_Some (routeMap !! key) ->
     exists a rest, key = String a rest /\ a <> "/"%char) ->
  (forall rt n key,
     rt ∈ topRoutes (made (Make o h f routeMap)) ->
     target rt = TAlwaysWrap n key ->
     err rt = Some ("mux: path must start with a slash, got " +:+ quoted key)
     /\ routeMatches env rt req = false)
  /\ (forall n key, resolve env (made (Make o h f routeMap)) req <> AlwaysThenRouter n key)
  /\ madeErr (Make o h f routeMap) = None.
Proof.
  intros Hkeys.
  destruct (Make_spec o h f routeMap) as (Htop & _ & Hnf & Hsubs & Herr).
  assert (forall rt n key,
            rt ∈ topRoutes (made (Make o h f routeMap)) ->
            target rt = TAlwaysWrap n key ->
            err rt = Some ("mux: path must start with a slash, got " +:+ quoted key)
            /\ routeMatches env rt req = false) as Hdead.
  { intros rt n key Hin Htarget. rewrite Htop in Hin.
    apply list_elem_of_bind in Hin as ([k routes] & Hin & Hentry).
    rewrite (rangeOf_perm o) in Hentry. apply elem_of_map_to_list in Hentry.
    unfold topRoutesOf in Hin. cbn [fst snd] in Hin.
    rewrite elem_of_app, !elem_of_cons in Hin.
    destruct Hin as [[->|[->|Hin]]|Hin]; cbn [target] in Htarget.
    - done.
    - simplify_eq.
      destruct (Hkeys key) as (a & rest & -> & Ha); [by eexists|].
      assert (addRegexpMatcher "" (String a rest)
              = (String a rest,
                 Some ("mux: path must start with a slash, got " +:+ quoted (String a rest))))
        as Hreg.
      { unfold addRegexpMatcher. apply Ascii.eqb_neq in Ha. by rewrite Ha. }
      unfold routeMatches. cbn [err]. rewrite Hreg. done.
    - by apply elem_of_nil in Hin.
    - apply list_elem_of_bind in Hin as (r2 & Hin & _).
      apply fileRoutesOf_elem in Hin as [_ ->]. done. }
  split_and!; [exact Hdead| |done].
  intros n key Hres. unfold resolve in Hres.
  destruct (matchTopRoutes _ _ _ req) as [x|] eqn:Hm.
  - subst x. apply matchTopRoutes_Some in Hm as (rt & Hin & Hmatch & Hrt).
    destruct (target rt) as [k|n' k|strip dir] eqn:Htarget.
    + destruct Hrt as (pr & Hpr & Hrp).
      rewrite Hsubs in Hpr. destruct (routeMap !! k) as [routes|]; [|done].
      simpl in Hpr. simplify_eq.
      by apply resolvePrefix_of_prefixRouterOf in Hrp.
    + destruct (Hdead rt n' k Hin Htarget) as [_ Hno]. congruence.
    + done.
  - rewrite Hnf in Hres. by destruct (rangeOf o OverRouteMap routeMap).
Qed.

End Outcomes.

Lemma bare_prefix_route_never_matches_witness :
  (forall key, is_Some (sampleTable !! key) ->
     exists a rest, key = String a rest /\ a <> "/"%char)
  /\ forall n key,
       resolve literalMux (made (Make keyOrder sampleStore emptyFactory sampleTable))
         (sampleRequest "GET" "test")
       <> AlwaysThenRouter n key.
Proof.
  assert (forall key, is_Some (sampleTable !! key) ->
            exists a rest, key = String a rest /\ a <> "/"%char) as Hkeys.
  { intros key [routes Hkey]. unfold sampleTable in Hkey.
    apply lookup_singleton_Some in Hkey as [<- _].
    exists "t"%char, "est". split; [reflexivity | discriminate]. }
  split; [exact Hkeys|].
  exact (proj1 (proj2 (bare_prefix_route_never_matches keyOrder literalMux sampleStore
                         emptyFactory sampleTable (sampleRequest "GET" "test") Hkeys))).
Defined.


(** ** The data handlers *)

Section DataHandlers.
Implicit Types (json : JSON) (r : Request) (w : World string).

Lemma app_encodeTo json (what respError : string) w :
  app (encodeTo json what respError w) = app w.
Proof. unfold encodeTo. by destruct (encodeResponse json respError). Qed.

(** X25: the data handlers keep the one text [testdata]. A post with a
    body that decodes stores its data, whatever was stored; a delete
    empties the store when its data is the stored text, and otherwise
    leaves the store alone and answers [Data does not match]; so a delete
    after a post of the same body leaves the store empty. A body that does
    not decode is answered with status 400 and the decoder's error, and
    the store is left alone. *)
Theorem data_handlers_store_and_delete json r r' w (data : string) :
  decodePostdata json (Body r) = inl data ->
  app (PostDataHandler json r w) = data
  /\ app (DeleteDataHandler json r (PostDataHandler json r w)) = ""
  /\ (app w = data -> app (DeleteDataHandler json r w) = "")
  /\ (app w <> data ->
      DeleteDataHandler json r w = encodeTo json "/deleteData" "Data does not match" w
      /\ app (DeleteDataHandler json r w) = app w)
  /\ (forall e, decodePostdata json (Body r') = inr e ->
        app (PostDataHandler json r' w) = app w
        /\ app (DeleteDataHandler json r' w) = app w
        /\ rw (PostDataHandler json r' w)
           = rw w ++ [RwHeaderSet "Content-Type" "text/plain; charset=utf-8";
                      RwHeaderSet "X-Content-Type-Options" "nosniff";
                      RwWriteHeader 400;
                      RwWrite (e +:+ newline)]
        /\ rw (DeleteDataHandler json r' w) = rw (PostDataHandler json r' w)).
Proof.
  intros Hdec.
  assert (app (PostDataHandler json r w) = data) as Hpost.
  { unfold PostDataHandler. rewrite Hdec. by rewrite app_encodeTo. }
  assert (forall w0, app w0 = data -> app (DeleteDataHandler json r w0) = "") as Hdel.
  { intros w0 Hw0. unfold DeleteDataHandler. rewrite Hdec, Hw0, String.eqb_refl. simpl.
    by rewrite app_encodeTo. }
  split_and!.
  - done.
  - by apply Hdel.
  - apply Hdel.
  - intros Hne. unfold DeleteDataHandler. rewrite Hdec.
    assert (String.eqb data (app w) = false) as -> by (by apply String.eqb_neq).
    simpl. split; [done|]. by rewrite app_encodeTo.
  - intros e He. unfold PostDataHandler, DeleteDataHandler. rewrite He.
    split_and!; try done.
    simpl. by rewrite <-!app_assoc.
Qed.

End DataHandlers.

Lemma data_handlers_store_and_delete_witness :
  app (DeleteDataHandler
         {| decodePostdata := fun body => if String.eqb body "" then inr "EOF" else inl body;
            encodeResponse := fun e => inl e |}
         {| ReqMethod := "DELETE"; URLPath := "/test/deletedata"; Proto := "HTTP/1.1";
            RemoteAddr := "127.0.0.1:40000"; UserAgent := "client"; Body := "somedata" |}
         (PostDataHandler
            {| decodePostdata :=
                 fun body => if String.eqb body "" then inr "EOF" else inl body;
               encodeResponse := fun e => inl e |}
            {| ReqMethod := "DELETE"; URLPath := "/test/deletedata"; Proto := "HTTP/1.1";
               RemoteAddr := "127.0.0.1:40000"; UserAgent := "client";
               Body := "somedata" |}
            {| rw := []; logged := []; app := "old" |}))
  = "".
Proof.
  exact (proj1 (proj2
           (data_handlers_store_and_delete
              {| decodePostdata :=
                   fun body => if String.eqb body "" then inr "EOF" else inl body;
                 encodeResponse := fun e => inl e |}
              {| ReqMethod := "DELETE"; URLPath := "/test/deletedata"; Proto := "HTTP/1.1";
                 RemoteAddr := "127.0.0.1:40000"; UserAgent := "client";
                 Body := "somedata" |}
              (sampleRequest "POST" "/test/postdata")
              {| rw := []; logged := []; app := "old" |}
              "somedata" eq_refl))).
Defined.

(** ** What the accept loop logs, and the timeout of a shutdown *)

Section Events.
Context {H : Type}.
Implicit Types (p : Process H) (a : Step).

Lemma step_keeps_server a p p' :
  step a p = Some p' ->
  server (srv p') = server (srv p) /\ shutdownTimeout (srv p') = shutdownTimeout (srv p).
Proof.
  destruct a; simpl; intros Hstep; simplify_eq; try done.
  - unfold StartHTTP. by case_bool_decide.
  - unfold StartHTTPS. case_bool_decide; [done|].
    by destruct (TLSConfig_ (server (srv p))).
  - unfold Stop. by case_bool_decide.
  - unfold loopRun in Hstep. case_bool_decide; by simplify_eq.
  - unfold loopReturn in Hstep. case_bool_decide; by simplify_eq.
  - unfold loopExit in Hstep. case_bool_decide; by simplify_eq.
Qed.

(** The events a step adds: a notification, the error [ListenAndServe]
    came back with, or the call of [Shutdown]. *)
Lemma step_events a p p' (ev : Event) :
  step a p = Some p' ->
  ev ∈ events p' ->
  ev ∈ events p
  \/ (exists l statusOld statusNew, ev = Notified l statusOld statusNew)
  \/ (exists i e, a = LoopReturn i (Some e)
                  /\ ev = match ErrorLog (server (srv p)) with
                          | Some l => ErrorLogged (Some l) e
                          | None => ErrorLogged None ("error:  " +:+ e)
                          end)
  \/ (a = CallStop /\ ev = ShutdownCalled (shutdownTimeout (srv p))).
Proof.
  assert (forall (st : ServerStatus) (q : Process H),
            ev ∈ events (setStatus st q) ->
            ev ∈ events q
            \/ exists l statusOld statusNew, ev = Notified l statusOld statusNew) as Hset.
  { intros st q. unfold setStatus. simpl.
    destruct (statusListener (srv q)); [|by left].
    rewrite elem_of_app, list_elem_of_singleton. intros [?| ->]; [by left|right].
    by eexists _, _, _. }
  destruct a as [l| | | | | |i|i e|i]; simpl; intros Hstep Hin; simplify_eq.
  - by left.
  - by left.
  - by left.
  - unfold StartHTTP in Hin. case_bool_decide; [by left|].
    apply Hset in Hin as [?|?]; [by left | right; by left].
  - unfold StartHTTPS in Hin. case_bool_decide; [by left|].
    destruct (TLSConfig_ (server (srv p))); [|by left].
    apply Hset in Hin as [?|?]; [by left | right; by left].
  - unfold Stop in Hin. case_bool_decide; [by left|]. simpl in Hin.
    apply elem_of_app in Hin as [?|Hin]; [by left|].
    apply list_elem_of_singleton in Hin. by right; right; right.
  - unfold loopRun in Hstep. case_bool_decide; [|done]. simplify_eq.
    apply Hset in Hin as [?|?]; [by left | right; by left].
  - unfold loopReturn in Hstep. case_bool_decide; [|done]. simplify_eq.
    simpl in Hin. destruct e as [e|]; [|by left].
    destruct (ErrorLog (server (srv p))) as [lg|] eqn:Hlg;
      (apply elem_of_app in Hin as [?|Hin]; [by left|]);
      apply list_elem_of_singleton in Hin; right; right; left; by exists i, e.
  - unfold loopExit in Hstep. case_bool_decide; [|done]. simplify_eq.
    apply Hset in Hin as [?|?]; [by left | right; by left].
Qed.

Lemma steps_events (l : list Step) p p' (ev : Event) :
  steps l p = Some p' ->
  ev ∈ events p' ->
  ev ∈ events p
  \/ (exists lst statusOld statusNew, ev = Notified lst statusOld statusNew)
  \/ (exists i e, LoopReturn i (Some e) ∈ l
                  /\ ev = match ErrorLog (server (srv p)) with
                          | Some lg => ErrorLogged (Some lg) e
                          | None => ErrorLogged None ("error:  " +:+ e)
                          end)
  \/ (CallStop ∈ l /\ ev = ShutdownCalled (shutdownTimeout (srv p))).
Proof.
  revert p. induction l as [|a l IH]; simpl; intros p Hrun Hin; [simplify_eq; by left|].
  destruct (step a p) as [p1|] eqn:Hstep; [|done]. simpl in Hrun.
  destruct (step_keeps_server _ _ _ Hstep) as [Hsrv Hto].
  destruct (IH _ Hrun Hin) as [Hold|[?|[(i & e & Hl & ->)|[Hl ->]]]].
  - destruct (step_events _ _ _ _ Hstep Hold) as [?|[?|[(i & e & -> & ->)|[-> ->]]]].
    + by left.
    + right; by left.
    + right; right; left. exists i, e. split; [apply elem_of_cons; by left|done].
    + right; right; right. split; [apply elem_of_cons; by left|done].
  - right; by left.
  - right; right; left. exists i, e. rewrite Hsrv.
    split; [apply elem_of_cons; by right|done].
  - right; right; right. rewrite Hto. split; [apply elem_of_cons; by right|done].
Qed.

(** X13: an error is logged only when [ListenAndServe] (or
    [ListenAndServeTLS]) came back with one, and it goes to the logger the
    server was built with: the one given with [ServerLogger], which gets the
    error as it is, or, without one, the standard logger, which gets it
    behind the text [error: ] and a space. *)
Theorem accept_loop_errors_go_to_the_server_logger (impl : ServerImpl H)
    (l : list Step) p (logger : option string) (msg : string) :
  steps l (started impl) = Some p ->
  ErrorLogged logger msg ∈ events p ->
  logger = ErrorLog (server impl)
  /\ exists i e,
       LoopReturn i (Some e) ∈ l
       /\ msg = match ErrorLog (server impl) with
                | Some _ => e
                | None => "error:  " +:+ e
                end.
Proof.
  intros Hrun Hin.
  destruct (steps_events _ _ _ _ Hrun Hin) as [Hold|[Hn|[(i & e & Hl & Hev)|[_ Hev]]]].
  - by apply elem_of_nil in Hold.
  - by destruct Hn as (? & ? & ? & ?).
  - simpl in Hev. destruct (ErrorLog (server impl)) as [lg|]; simplify_eq;
      (split; [done|]); by exists i, e.
  - done.
Qed.

Lemma optionOf_shutdownTimeout (env : StdEnv) (c : OptionCall) (srv0 srv' : ServerImpl H) :
  optionOf env c srv0 = Ok srv' -> shutdownTimeout srv' = shutdownTimeout srv0.
Proof.
  destruct c as [a|ip|port|cf kf|lg|lst]; simpl.
  - by intros [= <-].
  - unfold ServerIP. destruct (net.To4 ip); [|done]. unfold index.
    destruct (strings_.Split (Addr (server srv0)) ":" !! 1); [|done]. by intros [= <-].
  - unfold ServerPort, index.
    destruct (strings_.Split (Addr (server srv0)) ":" !! 0); [|done]. by intros [= <-].
  - unfold ServerCertificateFile. destruct (LoadX509KeyPair env cf kf); [|done].
    by intros [= <-].
  - by intros [= <-].
  - by intros [= <-].
Qed.

Lemma applyOptions_shutdownTimeout (env : StdEnv) (calls : list OptionCall)
    (srv0 impl : ServerImpl H) :
  applyOptions (optionOf env <$> calls) srv0 = Ok impl ->
  shutdownTimeout impl = shutdownTimeout srv0.
Proof.
  revert srv0. induction calls as [|c calls IH]; intros srv0; simpl.
  - by intros [= <-].
  - destruct (optionOf env c srv0) as [srv1| |] eqn:Hc; [|done..].
    intros Hrest. rewrite (IH _ Hrest). by eapply optionOf_shutdownTimeout.
Qed.

(** X26: no option of the package changes the shutdown timeout: on a
    server that [New] built from them, every call of [Shutdown], in any run,
    is given a deadline of ten seconds, and [Shutdown] is only ever called
    by [Stop]. *)
Theorem Shutdown_always_gets_ten_seconds (env : StdEnv) (handler : H)
    (calls : list OptionCall) (impl : ServerImpl H) (l : list Step) p (timeout : Z) :
  New handler (optionOf env <$> calls) = Ok impl ->
  steps l (started impl) = Some p ->
  ShutdownCalled timeout ∈ events p ->
  timeout = (10 * 1000000000)%Z /\ CallStop ∈ l.
Proof.
  intros Hnew Hrun Hin.
  assert (shutdownTimeout impl = DefaultShutdownTimeout) as Hto.
  { unfold New in Hnew. by apply applyOptions_shutdownTimeout in Hnew. }
  destruct (steps_events _ _ _ _ Hrun Hin) as [Hold|[Hn|[(i & e & _ & Hev)|[Hl Hev]]]].
  - by apply elem_of_nil in Hold.
  - by destruct Hn as (? & ? & ? & ?).
  - simpl in Hev. by destruct (ErrorLog (server impl)).
  - simpl in Hev. simplify_eq. by rewrite Hto.
Qed.

End Events.

Lemma accept_loop_errors_go_to_the_server_logger_witness :
  exists p,
    steps [CallStartHTTP; LoopRun 0; LoopReturn 0 (Some "bind: address already in use")]
      (started sampleServer) = Some p
    /\ ErrorLogged None "error:  bind: address already in use" ∈ events p
    /\ None = ErrorLog (server sampleServer)
    /\ exists i e,
         LoopReturn i (Some e)
           ∈ [CallStartHTTP; LoopRun 0; LoopReturn 0 (Some "bind: address already in use")]
         /\ "error:  bind: address already in use"
            = match ErrorLog (server sampleServer) with
              | Some _ => e
              | None => "error:  " +:+ e
              end.
Proof.
  eexists. split; [reflexivity|].
  assert (ErrorLogged None "error:  bind: address already in use"
            ∈ events
                (let p' := setPC 0 Returned sampleServing in
                 {| srv := srv p'; loops := loops p';
                    events := events p'
                              ++ [ErrorLogged None
                                    ("error:  " +:+ "bind: address already in use")] |}))
    as Hin.
  { right. right. left. }
  split; [exact Hin|].
  exact (accept_loop_errors_go_to_the_server_logger sampleServer
           [CallStartHTTP; LoopRun 0; LoopReturn 0 (Some "bind: address already in use")]
           _ None "error:  bind: address already in use" eq_refl Hin).
Defined.

Lemma Shutdown_always_gets_ten_seconds_witness :
  New tt (optionOf sampleEnv <$> [OptServerAddress "0.0.0.0:8080";
                                  OptServerListener (Some "watch")])
  = Ok sampleServer
  /\ exists p,
       steps [CallStartHTTP; CallStop] (started sampleServer) = Some p
       /\ ShutdownCalled 10000000000 ∈ events p
       /\ (10000000000 = 10 * 1000000000)%Z
       /\ CallStop ∈ [CallStartHTTP; CallStop].
Proof.
  split; [reflexivity|]. eexists. split; [reflexivity|].
  assert (ShutdownCalled 10000000000
            ∈ events (Stop (StartHTTP (started sampleServer)).2).2) as Hin.
  { right. left. }
  split; [exact Hin|].
  exact (Shutdown_always_gets_ten_seconds sampleEnv tt
           [OptServerAddress "0.0.0.0:8080"; OptServerListener (Some "watch")]
           sampleServer [CallStartHTTP; CallStop] _ 10000000000 eq_refl eq_refl Hin).
Defined.
